(** * Session-state store of the server (src/lib/server/state.c)

    A shallow embedding of the multi-packet state handling code: the state
    tree (lookup index and expiry queue), the state entries, the derivation
    of the 16 octet state value, and the functions that move the
    session-state pairs and the persistable request data between a request
    and a state entry.

    Conventions.
    - Octets and machine integers are [Z]; every truncation the C code
      performs on assignment is written out ([u8], [u32], [u64]), and so
      is the wrap-around of an [int] ([s32]).
    - Pointers are addresses ([ptr]); the talloc heap maps the addresses of
      live state entries to their contents and records which talloc
      contexts are live.  [None] stands for a NULL pointer.
    - A function returns [None] where the C code aborts: a failed
      [rad_assert], or [talloc_get_type_abort] on memory that is not a live
      state entry.  [talloc_free] of a state context that is not live
      aborts in the functions named [_checked], which are the functions of
      the source once more, with that [talloc_free].
    - The mutex is not modelled: calls are sequential. *)

From stdpp Require Import gmap strings list fin_maps vector.
From Stdlib Require Import ZArith Lia.

Open Scope Z_scope.

(** ** Machine integers *)

Definition u8 (x : Z) : Z := x mod 256.
Definition u32 (x : Z) : Z := x mod 2 ^ 32.
Definition u64 (x : Z) : Z := x mod 2 ^ 64.

(** An [int]: 32 bits, two's complement.  Signed overflow is undefined in
    C; the targets the server is built for wrap around, and so does
    [s32]: [INT_MAX + 1] is [INT_MIN]. *)
Definition s32 (x : Z) : Z := (x + 2 ^ 31) mod 2 ^ 32 - 2 ^ 31.

Definition INT_MAX : Z := 2 ^ 31 - 1.
Definition INT_MIN : Z := - 2 ^ 31.

(** ** Memory primitives on octet buffers *)

(** [memcpy(dst, src, n)]: the first [n] octets of [dst] are replaced by
    the first [n] octets of [src]. *)
Definition memcpy (dst src : list Z) (n : nat) : list Z :=
  take n src ++ drop n dst.

(** [memset(&dst[off], c, n)]. *)
Definition memset (dst : list Z) (off : nat) (c : Z) (n : nat) : list Z :=
  take off dst ++ replicate n c ++ drop (off + n) dst.

(** [memcpy(dst + off, src, n)]. *)
Definition memcpy_at (dst : list Z) (off : nat) (src : list Z) (n : nat) : list Z :=
  take off dst ++ take n src ++ drop (off + n) dst.

(** ** Data model *)

Abbreviation ptr := N (only parsing).

(** A VALUE_PAIR: the attribute it is an instance of, and its octets. *)
Record VALUE_PAIR := mk_vp {
  vp_da : Z;
  vp_octets : list Z
}.

(** An item of request data; only [persist] is looked at here. *)
Record request_data_t := mk_rd {
  rd_unique_ptr : Z;
  rd_unique_int : Z;
  rd_opaque : Z;
  rd_persist : bool
}.

(** sizeof(struct state_comp): four octets, a uint32_t, eight octets. *)
Definition STATE_SIZE : nat := 16.

(** Offsets of the members of [struct state_comp] in [state]. *)
Definition OFF_tries : nat := 0.
Definition OFF_tx : nat := 1.
Definition OFF_r_0 : nat := 2.
Definition OFF_server_id : nat := 3.
Definition OFF_server_hash : nat := 4.
Definition OFF_vx_0 : nat := 8.
Definition OFF_r_5 : nat := 9.
Definition OFF_vx_1 : nat := 10.
Definition OFF_r_6 : nat := 11.
Definition OFF_vx_2 : nat := 12.
Definition OFF_r_7 : nat := 13.
Definition OFF_r_8 : nat := 14.
Definition OFF_r_9 : nat := 15.

(** [fr_state_entry_t].  The union of [state_comp] and [state] is the
    octet buffer [entry_state]; [list] (the link in the expiry queue) is
    the position of the entry's address in [to_expire]. *)
Record fr_state_entry_t := mk_entry {
  entry_id : Z;
  entry_state : list Z;
  entry_seq_start : Z;
  entry_cleanup : Z;
  entry_tries : Z;
  entry_ctx : option ptr;
  entry_vps : list VALUE_PAIR;
  entry_data : list request_data_t;
  entry_thawed : option ptr
}.

(** [fr_state_tree_t].  [tree] is the rbtree ordered by [state_entry_cmp],
    that is by the octets of [entry_state]. *)
Record fr_state_tree_t := mk_tree {
  state_id : Z;
  state_timed_out : Z;
  state_max_sessions : Z;
  state_tree : gmap (list Z) ptr;
  state_to_expire : list ptr;
  state_timeout : Z;
  state_server_id : Z;
  state_da : Z
}.

(** The fields of a REQUEST this file touches.  [request_addr] is the
    address of the request, which an entry records in [thawed];
    [request_server_cs] is [cf_section_name2(request->server_cs)];
    [request_packet] and [request_reply] are the pair lists of
    [request->packet] and [request->reply]. *)
Record REQUEST := mk_request {
  request_addr : ptr;
  request_number : Z;
  request_seq_start : Z;
  request_server_cs : string;
  request_packet : list VALUE_PAIR;
  request_reply : list VALUE_PAIR;
  request_state_ctx : option ptr;
  request_state : list VALUE_PAIR;
  request_data : list request_data_t
}.

(** The talloc heap: live state entries, live talloc contexts, and the
    next address the allocator hands out. *)
Record talloc := mk_talloc {
  entries : gmap ptr fr_state_entry_t;
  ctxs : gset ptr;
  brk : ptr
}.

(** What [state_entry_create] returns: the new entry, or NULL after one
    of its two error messages. *)
Inductive create_result :=
  | Created (entry : ptr)
  | TooMany        (* "At maximum ongoing session limit" *)
  | InsertFailed.  (* "Insertion into state tree failed" *)

Global Instance VALUE_PAIR_eq_dec : EqDecision VALUE_PAIR.
Proof. solve_decision. Defined.
Global Instance request_data_eq_dec : EqDecision request_data_t.
Proof. solve_decision. Defined.
Global Instance create_result_eq_dec : EqDecision create_result.
Proof. solve_decision. Defined.

(** ** Field updates *)

Definition set_tree_index (t : gmap (list Z) ptr) (q : list ptr) (s : fr_state_tree_t) :=
  mk_tree (state_id s) (state_timed_out s) (state_max_sessions s) t q
          (state_timeout s) (state_server_id s) (state_da s).

Definition set_timed_out (n : Z) (s : fr_state_tree_t) :=
  mk_tree (state_id s) n (state_max_sessions s) (state_tree s) (state_to_expire s)
          (state_timeout s) (state_server_id s) (state_da s).

Definition set_id (n : Z) (s : fr_state_tree_t) :=
  mk_tree n (state_timed_out s) (state_max_sessions s) (state_tree s) (state_to_expire s)
          (state_timeout s) (state_server_id s) (state_da s).

Definition set_request_data (d : list request_data_t) (r : REQUEST) :=
  mk_request (request_addr r) (request_number r) (request_seq_start r)
             (request_server_cs r) (request_packet r) (request_reply r)
             (request_state_ctx r) (request_state r) d.

Definition set_request_reply (p : list VALUE_PAIR) (r : REQUEST) :=
  mk_request (request_addr r) (request_number r) (request_seq_start r)
             (request_server_cs r) (request_packet r) p
             (request_state_ctx r) (request_state r) (request_data r).

Definition set_request_seq_start (n : Z) (r : REQUEST) :=
  mk_request (request_addr r) (request_number r) n
             (request_server_cs r) (request_packet r) (request_reply r)
             (request_state_ctx r) (request_state r) (request_data r).

Definition set_request_session (c : option ptr) (v : list VALUE_PAIR) (r : REQUEST) :=
  mk_request (request_addr r) (request_number r) (request_seq_start r)
             (request_server_cs r) (request_packet r) (request_reply r)
             c v (request_data r).

(** ** Collaborators that live in other files *)

(** Modelled from the spec: the pair list helpers of pair.c
    ([fr_pair_find_by_da] with TAG_ANY, [fr_pair_add],
    [fr_pair_delete_by_da]) are not in the source tree.  The state store
    "reads/writes [the token attribute's] raw byte value only": find is
    the first pair of the attribute, add appends, delete removes every
    pair of the attribute. *)
Definition fr_pair_find_by_da (vps : list VALUE_PAIR) (da : Z) : option VALUE_PAIR :=
  List.find (λ vp, bool_decide (vp_da vp = da)) vps.

Definition fr_pair_add (vps : list VALUE_PAIR) (vp : VALUE_PAIR) : list VALUE_PAIR :=
  vps ++ [vp].

Definition fr_pair_delete_by_da (vps : list VALUE_PAIR) (da : Z) : list VALUE_PAIR :=
  filter (λ vp, vp_da vp ≠ da) vps.

(** Modelled from the spec: [request_data_by_persistance] and
    [request_data_restore] of request_data.c are not in the source tree.
    The first detaches "all persistable module data" from the request into
    a list of its own, keeping their order; the second puts a list of
    request data back at the end of the request's list. *)
Definition request_data_by_persistance (request : REQUEST) (persist : bool)
  : list request_data_t * REQUEST :=
  (filter (λ rd, rd_persist rd = persist) (request_data request),
   set_request_data (filter (λ rd, rd_persist rd ≠ persist) (request_data request)) request).

Definition request_data_restore (request : REQUEST) (data : list request_data_t) : REQUEST :=
  set_request_data (request_data request ++ data) request.

(** Modelled from the spec: the rbtree of rbtree.c is not in the source
    tree.  It is the "associative structure keyed by the binary key", with
    "equality = byte-exact key match"; it is created without the replace
    flag, so inserting an entry whose state value is already present
    fails. *)
Definition rbtree_finddata (t : gmap (list Z) ptr) (key : list Z) : option ptr :=
  t !! key.

Definition rbtree_insert (t : gmap (list Z) ptr) (key : list Z) (p : ptr)
  : option (gmap (list Z) ptr) :=
  match t !! key with
  | Some _ => None
  | None => Some (<[key := p]> t)
  end.

Definition rbtree_deletebydata (t : gmap (list Z) ptr) (key : list Z) : gmap (list Z) ptr :=
  delete key t.

Definition rbtree_num_elements (t : gmap (list Z) ptr) : Z :=
  Z.of_nat (size t).

(** Modelled from the spec: the doubly linked list of dlist.h is not in
    the source tree.  The expiry queue is "an ordered sequence of live
    entries, ordered by insertion": the list of its members, where remove
    takes a member out and insert_tail appends one. *)
Definition fr_dlist_remove (l : list ptr) (p : ptr) : list ptr :=
  filter (λ q, q ≠ p) l.

Definition fr_dlist_insert_tail (l : list ptr) (p : ptr) : list ptr :=
  l ++ [p].

(** ** The state store proper *)

(** What the file takes from the rest of the server and from the build. *)
Class Platform := {
  (** Byte order of the host: how a uint32_t lies in memory. *)
  host_big_endian : bool;
  (** [fr_md5_calc] of md5.c: a 16 octet digest of its input. *)
  fr_md5_calc : list Z → vec Z 16;
  (** [fr_hash_string] of hash.c; the result is a uint32_t. *)
  fr_hash_string : string → Z;
  (** [HEXIFY(RADIUSD_VERSION)], a constant of the build. *)
  RADIUSD_VERSION : Z
}.

Section state.

Context {platform : Platform}.

(** The four octets of a uint32_t, in the order they lie in memory. *)
Definition u32_octets (x : Z) : list Z :=
  let le := [u8 (u32 x); u8 (u32 x ≫ 8); u8 (u32 x ≫ 16); u8 (u32 x ≫ 24)] in
  if host_big_endian then reverse le else le.

(** The uint32_t at [buf + off] is xor'd with [x] in place: exclusive or
    is bitwise, so each of the four octets in memory is xor'd with the
    octet of [x] that lies at the same place. *)
Definition xor_u32_at (buf : list Z) (off : nat) (x : Z) : list Z :=
  take off buf ++ zip_with Z.lxor (take 4 (drop off buf)) (u32_octets x)
           ++ drop (off + 4) buf.

Definition server_hash (request : REQUEST) : Z :=
  u32 (fr_hash_string (request_server_cs request)).

(** *** state_entry_unlink *)

Definition state_entry_unlink (h : talloc) (state : fr_state_tree_t) (entry : ptr)
  : option fr_state_tree_t :=
  e ← entries h !! entry;
  Some (set_tree_index (rbtree_deletebydata (state_tree state) (entry_state e))
                       (fr_dlist_remove (state_to_expire state) entry) state).

(** *** talloc_free of an entry, with its destructor _state_entry_free

    [talloc_free_ctx] is [talloc_free] of a live state context: the
    context leaves the set of the live ones.  On a context that is not
    live it leaves the heap as it is, where talloc aborts;
    [talloc_free_checked], and the functions built on it, abort there.
    They return what the functions of this part return wherever they
    return ([api_step_checked_Some]), and they return wherever every state
    context has one owner ([api_step_checked_eq]). *)

Definition talloc_free_ctx (h : talloc) (c : option ptr) : talloc :=
  match c with
  | Some c => mk_talloc (entries h) (ctxs h ∖ {[c]}) (brk h)
  | None => h
  end.

Definition talloc_free_entry (h : talloc) (entry : ptr) : option talloc :=
  e ← entries h !! entry;
  let h' := talloc_free_ctx h (entry_ctx e) in
  Some (mk_talloc (delete entry (entries h')) (ctxs h') (brk h')).

(** The loop that empties [to_free]. *)
Fixpoint free_entries (h : talloc) (to_free : list ptr) : option talloc :=
  match to_free with
  | [] => Some h
  | entry :: rest => h' ← talloc_free_entry h entry; free_entries h' rest
  end.

(** [talloc_init("session-state")]. *)
Definition talloc_init (h : talloc) : talloc * ptr :=
  (mk_talloc (entries h) ({[brk h]} ∪ ctxs h) (brk h + 1)%N, brk h).

(** *** The derivation of the state value from a State attribute

    The same three cases are written out twice in the source: on the
    freshly zeroed entry in [state_entry_create], and on the uninitialised
    [my_entry] in [state_entry_find]. *)

Definition state_from_vp (entry_state : list Z) (vp : VALUE_PAIR) : list Z :=
  let vp_length := length (vp_octets vp) in
  if decide (vp_length = STATE_SIZE) then
    memcpy entry_state (vp_octets vp) STATE_SIZE
  else if decide (STATE_SIZE < vp_length)%nat then
    memcpy entry_state (fr_md5_calc (vp_octets vp)) STATE_SIZE
  else
    memset (memcpy entry_state (vp_octets vp) vp_length)
           vp_length 0 (STATE_SIZE - vp_length).

Definition state_from_vb (my_entry_state : list Z) (vb_octets : list Z) : list Z :=
  let vb_length := length vb_octets in
  if decide (vb_length = STATE_SIZE) then
    memcpy my_entry_state vb_octets STATE_SIZE
  else if decide (STATE_SIZE < vb_length)%nat then
    memcpy my_entry_state (fr_md5_calc vb_octets) STATE_SIZE
  else
    memset (memcpy my_entry_state vb_octets vb_length)
           vb_length 0 (STATE_SIZE - vb_length).

(** *** The expiry sweep at the head of state_entry_create

    [walk] is what is left of the queue to visit: [next] is read before
    the current entry is unlinked, so the loop visits the members of the
    queue as they were on entry. *)
Fixpoint expire_sweep (h : talloc) (old : option ptr) (now : Z) (walk : list ptr)
    (state : fr_state_tree_t) (to_free : list ptr) (timed_out : Z)
  : option (fr_state_tree_t * list ptr * Z) :=
  match walk with
  | [] => Some (state, to_free, timed_out)
  | entry :: next =>
      e ← entries h !! entry;
      if decide (old = Some entry) then
        expire_sweep h old now next state to_free timed_out
      else if decide (entry_cleanup e < now) then
        state' ← state_entry_unlink h state entry;
        expire_sweep h old now next state'
                     (fr_dlist_insert_tail to_free entry) (u64 (timed_out + 1))
      else Some (state, to_free, timed_out)
  end.

(** *** The state value of a new entry when the reply has no State *)

(** Four calls of [fr_rand], each copied to its place in the buffer. *)
Fixpoint fill_random (rnd : nat → Z) (i : nat) (n : nat) (buf : list Z) : list Z :=
  match n with
  | O => buf
  | S n' => fill_random rnd (S i) n' (memcpy_at buf (i * 4) (u32_octets (rnd i)) 4)
  end.

Definition version_octet (shift : Z) : Z :=
  Z.land (u32 RADIUSD_VERSION ≫ shift) 255.

(** The assignments to [state_comp], in the order of the source.
    [tries] is the [int] member of the entry; [tries + 1] is an [int]
    that is cut down to an octet, which is the same octet whether or not
    the addition has wrapped around (see [u8_s32_add]). *)
Definition set_state_comp (state : fr_state_tree_t) (tries : Z) (buf : list Z) : list Z :=
  let buf := <[OFF_tries := u8 (tries + 1)]> buf in
  let buf := <[OFF_tx := u8 (Z.lxor (buf !!! OFF_tries) tries)]> buf in
  let buf := <[OFF_vx_0 := u8 (Z.lxor (buf !!! OFF_r_0) (version_octet 16))]> buf in
  let buf := <[OFF_vx_1 := u8 (Z.lxor (buf !!! OFF_r_0) (version_octet 8))]> buf in
  let buf := <[OFF_vx_2 := u8 (Z.lxor (buf !!! OFF_r_0) (version_octet 0))]> buf in
  <[OFF_server_id := u8 (state_server_id state)]> buf.

(** The value of [state] and of [tries] for the new entry, and the pair
    list of the packet: from the State attribute of the packet when it
    has one, else from the old entry or from [fr_rand], in which case the
    value is added to the packet. *)
Definition new_state_value (state : fr_state_tree_t) (packet : list VALUE_PAIR)
    (old : option ptr) (old_tries : Z) (old_state : list Z) (rnd : nat → Z)
  : list Z * Z * list VALUE_PAIR :=
  let zeroed := replicate STATE_SIZE 0 in
  match fr_pair_find_by_da packet (state_da state) with
  | Some vp => (state_from_vp zeroed vp, 0, packet)
  | None =>
      let '(buf, tries) :=
        match old with
        | Some _ => (memcpy zeroed old_state STATE_SIZE, s32 (old_tries + 1))
        | None => (fill_random rnd 0 4 zeroed, 0)
        end in
      let buf := set_state_comp state tries buf in
      (buf, tries, fr_pair_add packet (mk_vp (state_da state) (take STATE_SIZE buf)))
  end.

(** The block that records the old entry and unlinks it when it holds no
    request data: the tree, [to_free], [old_tries] and [old_state]. *)
Definition snapshot_old (h : talloc) (state : fr_state_tree_t) (old : option ptr)
    (to_free : list ptr)
  : option (fr_state_tree_t * list ptr * Z * list Z) :=
  match old with
  | Some o =>
      eo ← entries h !! o;
      if decide (entry_data eo = []) then
        state' ← state_entry_unlink h state o;
        Some (state', fr_dlist_insert_tail to_free o, entry_tries eo, entry_state eo)
      else Some (state, to_free, entry_tries eo, entry_state eo)
  | None => Some (state, to_free, 0, replicate STATE_SIZE 0)
  end.

(** *** state_entry_create

    [now] is [time(NULL)], [rnd i] the result of the [i]-th call of
    [fr_rand].  [talloc_zero] is taken to succeed.  The result carries the
    heap, the tree, the pair list of [packet] and what is returned. *)

(** From the allocation of the new entry to the end of the function. *)
Definition insert_new_entry (h : talloc) (state : fr_state_tree_t) (request : REQUEST)
    (packet : list VALUE_PAIR) (old : option ptr) (old_tries : Z) (old_state : list Z)
    (now : Z) (rnd : nat → Z)
  : talloc * fr_state_tree_t * list VALUE_PAIR * create_result :=
  (* talloc_zero, then the id and the lifetime *)
  let entry := brk h in
  let h := mk_talloc (entries h) (ctxs h) (brk h + 1)%N in
  let id := state_id state in
  let state := set_id (u64 (state_id state + 1)) state in
  let cleanup := now + u32 (state_timeout state) in
  let '(entry_state, tries, packet) :=
    new_state_value state packet old old_tries old_state rnd in
  (* XOR the server hash with four bytes of random data. *)
  let entry_state := xor_u32_at entry_state OFF_server_hash (server_hash request) in
  let e := mk_entry id entry_state 0 cleanup tries None [] [] None in
  match rbtree_insert (state_tree state) entry_state entry with
  | None =>
      (* the entry is freed again; it owns no context yet *)
      (h, state, fr_pair_delete_by_da packet (state_da state), InsertFailed)
  | Some t =>
      (mk_talloc (<[entry := e]> (entries h)) (ctxs h) (brk h),
       set_tree_index t (fr_dlist_insert_tail (state_to_expire state) entry) state,
       packet, Created entry)
  end.

Definition state_entry_create (h : talloc) (state : fr_state_tree_t) (request : REQUEST)
    (packet : list VALUE_PAIR) (old : option ptr) (now : Z) (rnd : nat → Z)
  : option (talloc * fr_state_tree_t * list VALUE_PAIR * create_result) :=
  (* Clean up old entries. *)
  '(state, to_free, timed_out) ←
     expire_sweep h old now (state_to_expire state) state [] 0;
  let state := set_timed_out (u64 (state_timed_out state + timed_out)) state in
  let too_many :=
    bool_decide (old = None ∧
                 u32 (state_max_sessions state) ≤ rbtree_num_elements (state_tree state)) in
  (* Record the information from the old state. *)
  '(state, to_free, old_tries, old_state) ← snapshot_old h state old to_free;
  (* Now free the unlinked entries. *)
  h ← free_entries h to_free;
  if too_many then Some (h, state, packet, TooMany)
  else Some (insert_new_entry h state request packet old old_tries old_state now rnd).

(** *** state_entry_find

    [my_entry] is not initialised in the source; each of the three cases
    writes all of its 16 octets, so what it held before does not matter
    (see [state_from_vb_uninit]) and the buffer starts as zeroes here. *)
Definition state_entry_find (state : fr_state_tree_t) (request : REQUEST)
    (vb_octets : list Z) : option ptr :=
  let my_entry_state := state_from_vb (replicate STATE_SIZE 0) vb_octets in
  let my_entry_state := xor_u32_at my_entry_state OFF_server_hash (server_hash request) in
  rbtree_finddata (state_tree state) my_entry_state.

(** *** fr_state_discard *)

Definition fr_state_discard (h : talloc) (state : fr_state_tree_t) (request : REQUEST)
  : option (talloc * fr_state_tree_t * REQUEST) :=
  match fr_pair_find_by_da (request_packet request) (state_da state) with
  | None => Some (h, state, request)
  | Some vp =>
      match state_entry_find state request (vp_octets vp) with
      | None => Some (h, state, request)
      | Some entry =>
          state ← state_entry_unlink h state entry;
          h ← talloc_free_entry h entry;
          (* destroy what the request holds, and give it a new context *)
          let h := talloc_free_ctx h (request_state_ctx request) in
          let '(h, c) := talloc_init h in
          Some (h, state, set_request_session (Some c) [] request)
      end
  end.

(** *** fr_state_to_request *)

Definition thaw_entry (request : REQUEST) (e : fr_state_entry_t) : fr_state_entry_t :=
  mk_entry (entry_id e) (entry_state e) (entry_seq_start e) (entry_cleanup e)
           (entry_tries e) None [] [] (Some (request_addr request)).

Definition fr_state_to_request (h : talloc) (state : fr_state_tree_t) (request : REQUEST)
  : option (talloc * REQUEST) :=
  if decide (request_state request = []) then
    match fr_pair_find_by_da (request_packet request) (state_da state) with
    | None =>
        Some (h, if decide (request_seq_start request = 0)
                 then set_request_seq_start (request_number request) request
                 else request)
    | Some vp =>
        match state_entry_find state request (vp_octets vp) with
        | None => Some (h, request)
        | Some entry =>
            e ← entries h !! entry;
            match entry_thawed e with
            | Some _ => Some (h, request)
            | None =>
                let old_ctx := request_state_ctx request in
                match entry_ctx e with
                | None => None
                | Some c =>
                    let request := set_request_seq_start (entry_seq_start e) request in
                    let request := set_request_session (Some c) (entry_vps e) request in
                    let request := request_data_restore request (entry_data e) in
                    let h := mk_talloc (<[entry := thaw_entry request e]> (entries h))
                                       (ctxs h) (brk h) in
                    (* free the context the request came with *)
                    Some (talloc_free_ctx h old_ctx, request)
                end
            end
        end
    end
  else None.

(** *** fr_request_to_state

    [request_to_state] is the body of the function; next to the [int] it
    returns, it reports what [state_entry_create] returned when it was
    called (the error message in the log tells the two failures apart). *)

Definition freeze_entry (request : REQUEST) (data : list request_data_t)
    (e : fr_state_entry_t) : fr_state_entry_t :=
  mk_entry (entry_id e) (entry_state e) (request_seq_start request) (entry_cleanup e)
           (entry_tries e) (request_state_ctx request) (request_state request)
           (entry_data e ++ data) (entry_thawed e).

Definition find_old (state : fr_state_tree_t) (request : REQUEST) : option ptr :=
  match fr_pair_find_by_da (request_packet request) (state_da state) with
  | Some vp => state_entry_find state request (vp_octets vp)
  | None => None
  end.

Definition request_to_state (h : talloc) (state : fr_state_tree_t) (request : REQUEST)
    (now : Z) (rnd : nat → Z)
  : option (talloc * fr_state_tree_t * REQUEST * Z * option create_result) :=
  let '(data, request) := request_data_by_persistance request true in
  if decide (request_state request = [] ∧ data = []) then Some (h, state, request, 0, None)
  else
    let old := find_old state request in
    '(h, state, reply, res) ←
       state_entry_create h state request (request_reply request) old now rnd;
    let request := set_request_reply reply request in
    match res with
    | Created entry =>
        e ← entries h !! entry;
        if decide (entry_ctx e = None ∧ request_state_ctx request ≠ None) then
          Some (mk_talloc (<[entry := freeze_entry request data e]> (entries h))
                          (ctxs h) (brk h),
                state, set_request_session None [] request, 0, Some res)
        else None
    | _ =>
        (* Put it back again *)
        Some (h, state, request_data_restore request data, -1, Some res)
    end.

Definition fr_request_to_state (h : talloc) (state : fr_state_tree_t) (request : REQUEST)
    (now : Z) (rnd : nat → Z)
  : option (talloc * fr_state_tree_t * REQUEST * Z) :=
  '(h, state, request, ret, _) ← request_to_state h state request now rnd;
  Some (h, state, request, ret).

(** *** fr_state_tree_init and the counters *)

Definition fr_state_tree_init (da : Z) (max_sessions timeout server_id : Z)
  : fr_state_tree_t :=
  mk_tree 0 0 (u32 max_sessions) ∅ [] (u32 timeout) (u8 server_id) da.

Definition fr_state_entries_created (state : fr_state_tree_t) : Z := state_id state.

Definition fr_state_entries_timeout (state : fr_state_tree_t) : Z := state_timed_out state.

Definition fr_state_entries_tracked (state : fr_state_tree_t) : Z :=
  u32 (rbtree_num_elements (state_tree state)).

End state.

(** ** The rule for the key, in the words of the specification

    "if [len(token_bytes) == KEY_WIDTH], copy verbatim; if longer, key =
    [hash128(token_bytes)]; if shorter, copy and zero-pad the
    remainder." *)
Definition derive_key {platform : Platform} (token : list Z) : list Z :=
  if decide (length token = STATE_SIZE) then token
  else if decide (STATE_SIZE < length token)%nat then vec_to_list (fr_md5_calc token)
  else token ++ replicate (STATE_SIZE - length token) 0.

(** ** Well-formed stores

    What holds of the heap and the tree between two calls: every entry of
    the tree is live and filed under its own state value of 16 octets, the
    expiry queue lists the entries of the tree once each, and the
    allocator has not yet handed out an address it will hand out later. *)
Record state_wf (h : talloc) (state : fr_state_tree_t) : Prop := mk_state_wf {
  wf_tree : ∀ k p, state_tree state !! k = Some p →
            ∃ e, entries h !! p = Some e ∧ entry_state e = k ∧ length k = STATE_SIZE;
  wf_queue : ∀ p, p ∈ state_to_expire state ↔ ∃ k, state_tree state !! k = Some p;
  wf_nodup : NoDup (state_to_expire state);
  wf_brk : ∀ p, is_Some (entries h !! p) → (p < brk h)%N;
  wf_ctxs : ∀ c, c ∈ ctxs h → (c < brk h)%N
}.

(** ** A platform to evaluate the functions on

    The hash is the FNV-1 hash of 32 bits; the digest is a stand-in of the
    right width. *)
Definition fnv1_32 (s : string) : Z :=
  fold_left (λ hash c, Z.lxor (u32 (hash * 16777619)) (Z.of_N (Ascii.N_of_ascii c)))
            (String.list_ascii_of_string s) 2166136261.

Definition example_digest (l : list Z) : vec Z 16 :=
  vreplicate 16 (u8 (foldr Z.add (Z.of_nat (length l)) l)).

Definition example_platform : Platform :=
  {| host_big_endian := false;
     fr_md5_calc := example_digest;
     fr_hash_string := fnv1_32;
     RADIUSD_VERSION := 0x040000 |}.

(** * Buffers *)

Lemma memcpy_length dst src n :
  (n ≤ length src)%nat → (n ≤ length dst)%nat → length (memcpy dst src n) = length dst.
Proof.
  intros Hs Hd. unfold memcpy. rewrite length_app, length_take, length_drop. lia.
Qed.

Lemma memcpy_all dst src :
  length dst = length src → memcpy dst src (length src) = src.
Proof.
  intros Hl. unfold memcpy.
  rewrite firstn_all, drop_ge by lia. apply app_nil_r.
Qed.

Lemma memset_tail dst off c n :
  (off + n = length dst)%nat → memset dst off c n = take off dst ++ replicate n c.
Proof.
  intros Hl. unfold memset. rewrite drop_ge by lia. by rewrite app_nil_r.
Qed.

(** * The key codec *)

Section key_codec.

Context {platform : Platform}.

Lemma derive_key_length token : length (derive_key token) = STATE_SIZE.
Proof.
  unfold derive_key. repeat case_decide.
  - done.
  - apply length_vec_to_list.
  - rewrite length_app, length_replicate. lia.
Qed.

(** On a buffer of 16 octets, whatever it holds, the code of
    [state_entry_find] computes the key of the rule. *)
Lemma state_from_vb_derive buf octets :
  length buf = STATE_SIZE → state_from_vb buf octets = derive_key octets.
Proof.
  intros Hb. unfold state_from_vb, derive_key. repeat case_decide.
  - replace STATE_SIZE with (length octets) by done.
    apply memcpy_all. congruence.
  - replace STATE_SIZE with (length (vec_to_list (fr_md5_calc octets)))
      by apply length_vec_to_list.
    apply memcpy_all. rewrite length_vec_to_list. done.
  - rewrite memset_tail.
    + unfold memcpy. rewrite take_app_length'; [|by rewrite length_take; lia].
      by rewrite firstn_all.
    + rewrite memcpy_length; lia.
Qed.

Lemma state_from_vb_uninit buf buf' octets :
  length buf = STATE_SIZE → length buf' = STATE_SIZE →
  state_from_vb buf octets = state_from_vb buf' octets.
Proof. intros H1 H2. by rewrite !state_from_vb_derive. Qed.

(** So does the code of [state_entry_create]. *)
Lemma state_from_vp_derive buf vp :
  length buf = STATE_SIZE → state_from_vp buf vp = derive_key (vp_octets vp).
Proof.
  intros Hb. unfold state_from_vp, derive_key. repeat case_decide.
  - replace STATE_SIZE with (length (vp_octets vp)) by done.
    apply memcpy_all. congruence.
  - replace STATE_SIZE with (length (vec_to_list (fr_md5_calc (vp_octets vp))))
      by apply length_vec_to_list.
    apply memcpy_all. rewrite length_vec_to_list. done.
  - rewrite memset_tail.
    + unfold memcpy. rewrite take_app_length'; [|by rewrite length_take; lia].
      by rewrite firstn_all.
    + rewrite memcpy_length; lia.
Qed.

End key_codec.

(** * Unlinking and freeing *)

Section store.

Context {platform : Platform}.

(** [s'] is [s] with the entries of [R] taken out of the tree and of the
    expiry queue, and nothing else changed. *)
Definition unlinked (R : list ptr) (s s' : fr_state_tree_t) : Prop :=
  state_to_expire s' = filter (λ p, p ∉ R) (state_to_expire s) ∧
  (∀ k p, state_tree s' !! k = Some p ↔ state_tree s !! k = Some p ∧ p ∉ R) ∧
  (size (state_tree s') + length R = size (state_tree s))%nat ∧
  s' = set_tree_index (state_tree s') (state_to_expire s') s.

Lemma unlinked_nil s : unlinked [] s s.
Proof.
  split; [|split; [|split]].
  - induction (state_to_expire s) as [|x l IH]; [done|].
    rewrite filter_cons_True by set_solver. by rewrite <- IH.
  - intros k p. set_solver.
  - simpl. lia.
  - by destruct s.
Qed.

Lemma unlinked_trans R1 R2 s s1 s2 :
  unlinked R1 s s1 → unlinked R2 s1 s2 → unlinked (R1 ++ R2) s s2.
Proof.
  intros (Hq1 & Ht1 & Hs1 & Hf1) (Hq2 & Ht2 & Hs2 & Hf2).
  split; [|split; [|split]].
  - rewrite Hq2, Hq1, list_filter_filter. apply list_filter_iff.
    intros p. rewrite elem_of_app. tauto.
  - intros k p. rewrite Ht2, Ht1, elem_of_app. tauto.
  - rewrite length_app. lia.
  - rewrite Hf2. rewrite Hf1 at 1. by destruct s.
Qed.

Lemma unlinked_wf h R s s' : state_wf h s → unlinked R s s' → state_wf h s'.
Proof.
  intros [Ht Hq Hn Hb Hcx] (Hq' & Ht' & _ & _). split.
  - intros k p Hk. apply Ht' in Hk as [Hk _]. by apply Ht.
  - intros p. rewrite Hq', list_elem_of_filter, Hq. split.
    + intros [Hp [k Hk]]. exists k. apply Ht'. done.
    + intros [k Hk]. apply Ht' in Hk as [Hk Hp]. eauto.
  - rewrite Hq'. by apply NoDup_filter.
  - done.
  - done.
Qed.

Lemma unlinked_fields R s s' :
  unlinked R s s' →
  state_id s' = state_id s ∧ state_timed_out s' = state_timed_out s ∧
  state_max_sessions s' = state_max_sessions s ∧ state_timeout s' = state_timeout s ∧
  state_server_id s' = state_server_id s ∧ state_da s' = state_da s.
Proof. intros (_ & _ & _ & ->). done. Qed.

(** Unlinking a member of the queue takes out that entry and no other. *)
Lemma state_entry_unlink_spec h s p :
  state_wf h s → p ∈ state_to_expire s →
  ∃ s', state_entry_unlink h s p = Some s' ∧ unlinked [p] s s'.
Proof.
  intros Hwf Hp. pose proof Hwf as [Ht Hq Hn Hb Hcx].
  apply Hq in Hp as [k Hk]. destruct (Ht _ _ Hk) as (e & He & Hek & _).
  unfold state_entry_unlink. rewrite He. simpl. eexists. split; [done|].
  unfold unlinked, rbtree_deletebydata, fr_dlist_remove. simpl.
  rewrite Hek. split; [|split; [|split]].
  - apply list_filter_iff. intros q. set_solver.
  - intros k' q. destruct (decide (k' = k)) as [->|Hne].
    + rewrite lookup_delete_eq, Hk. set_solver.
    + rewrite lookup_delete_ne by done. split; [|tauto].
      intros Hk'. split; [done|]. intros Hin.
      apply list_elem_of_singleton in Hin as ->.
      destruct (Ht _ _ Hk') as (e' & He' & Hek' & _). congruence.
  - simpl. rewrite map_size_delete, Hk.
    destruct (size (state_tree s)) eqn:Hs; [|simpl; lia].
    apply map_size_empty_inv in Hs. rewrite Hs, lookup_empty in Hk. done.
  - done.
Qed.

(** What [free_entries] leaves of the heap. *)
Definition freed (R : list ptr) (h h' : talloc) : Prop :=
  (∀ q, entries h' !! q = if decide (q ∈ R) then None else entries h !! q) ∧
  (∀ c, c ∈ ctxs h' ↔
        c ∈ ctxs h ∧ ¬ ∃ p e, p ∈ R ∧ entries h !! p = Some e ∧ entry_ctx e = Some c) ∧
  brk h' = brk h.

Lemma talloc_free_entry_entries h p e :
  entries h !! p = Some e →
  ∃ h', talloc_free_entry h p = Some h' ∧ entries h' = delete p (entries h) ∧
        brk h' = brk h ∧
        ctxs h' = match entry_ctx e with Some c => ctxs h ∖ {[c]} | None => ctxs h end.
Proof.
  intros He. unfold talloc_free_entry. rewrite He. simpl.
  eexists. split; [done|]. by destruct (entry_ctx e).
Qed.

Lemma free_entries_spec R : ∀ h,
  NoDup R → (∀ p, p ∈ R → is_Some (entries h !! p)) →
  ∃ h', free_entries h R = Some h' ∧ freed R h h'.
Proof.
  induction R as [|p R IH]; intros h Hnd Hlive.
  - exists h. split; [done|]. split; [|split]; [| |done].
    + intros q. rewrite decide_False by set_solver. done.
    + intros c. split; [|tauto]. intros Hc. split; [done|].
      intros (p & e & Hp & _). set_solver.
  - apply NoDup_cons in Hnd as [Hp Hnd].
    destruct (Hlive p) as [e He]; [set_solver|].
    destruct (talloc_free_entry_entries _ _ _ He) as (h1 & Hfree1 & He1 & Hb1 & Hc1).
    destruct (IH h1 Hnd) as (h' & Hfree & Hq & Hc & Hb).
    { intros q Hq. rewrite He1, lookup_delete_ne by set_solver. apply Hlive. set_solver. }
    exists h'. simpl. rewrite Hfree1. simpl. split; [done|].
    split; [|split]; [| |congruence].
    + intros q. rewrite Hq, He1.
      destruct (decide (q = p)) as [->|Hne].
      * rewrite (decide_True (P := p ∈ p :: R)) by set_solver.
        case_decide; [done|]. apply lookup_delete_eq.
      * rewrite lookup_delete_ne by done.
        destruct (decide (q ∈ R)).
        -- rewrite decide_True by set_solver. done.
        -- rewrite decide_False by set_solver. done.
    + intros c. rewrite Hc. split.
      * intros [Hin Hno]. split.
        -- rewrite Hc1 in Hin. destruct (entry_ctx e); set_solver.
        -- intros (q & e' & Hq' & He' & Hctx).
           apply elem_of_cons in Hq' as [->|Hq'].
           ++ rewrite He in He'. injection He' as <-. rewrite Hc1, Hctx in Hin.
              set_solver.
           ++ apply Hno. exists q, e'. split; [done|]. split; [|done].
              rewrite He1, lookup_delete_ne; [done|]. set_solver.
      * intros [Hin Hno]. split.
        -- rewrite Hc1. destruct (entry_ctx e) as [c'|] eqn:Hctx; [|done].
           apply elem_of_difference. split; [done|].
           intros Heq. apply elem_of_singleton in Heq as ->.
           apply Hno. exists p, e. set_solver.
        -- intros (q & e' & Hq' & He' & Hctx). apply Hno. exists q, e'.
           split; [set_solver|]. split; [|done].
           rewrite He1 in He'. rewrite lookup_delete_ne in He'; [done|]. set_solver.
Qed.

Lemma freed_wf R h h' s :
  state_wf h s → freed R h h' → (∀ p, p ∈ R → p ∉ state_to_expire s) → state_wf h' s.
Proof.
  intros [Ht Hq Hn Hb Hcx] (Hq' & Hc' & Hb') Hout. split; try done.
  - intros k p Hk. destruct (Ht _ _ Hk) as (e & He & Hek).
    exists e. split; [|done]. rewrite Hq'. rewrite decide_False; [done|].
    intros Hin. apply (Hout _ Hin). apply Hq. eauto.
  - intros p [e He]. rewrite Hq' in He. case_decide; [done|].
    rewrite Hb'. apply Hb. eauto.
  - intros c Hc. apply Hc' in Hc as [Hc _]. rewrite Hb'. by apply Hcx.
Qed.

End store.

(** * The expiry sweep *)

Section sweep.

Context {platform : Platform}.

(** The entry at [p] is live and its cleanup time is in the past. *)
Definition expired (h : talloc) (now : Z) (p : ptr) : Prop :=
  ∃ e, entries h !! p = Some e ∧ entry_cleanup e < now.

(** The entry at [p] is live and its cleanup time is not in the past. *)
Definition unexpired (h : talloc) (now : Z) (p : ptr) : Prop :=
  ∃ e, entries h !! p = Some e ∧ now ≤ entry_cleanup e.

(** [walk] splits into the run [lead] the sweep passes over, whose
    members are the old entry or expired, and [rest], which is empty or
    starts with an entry that stops the sweep. *)
Definition sweep_split (h : talloc) (old : option ptr) (now : Z)
    (walk lead rest : list ptr) : Prop :=
  walk = lead ++ rest ∧
  Forall (λ p, old = Some p ∨ expired h now p) lead ∧
  match rest with
  | [] => True
  | q :: _ => old ≠ Some q ∧ unexpired h now q
  end.

(** The members of [lead] the sweep unlinks: all but the old entry. *)
Definition swept (old : option ptr) (lead : list ptr) : list ptr :=
  filter (λ p, old ≠ Some p) lead.

Lemma u64_idemp x : u64 (u64 x) = u64 x.
Proof. unfold u64. apply Z.mod_mod. lia. Qed.

Lemma u64_add_l x y : u64 (u64 x + y) = u64 (x + y).
Proof. unfold u64. apply Zplus_mod_idemp_l. Qed.

Lemma u64_add_r x y : u64 (x + u64 y) = u64 (x + y).
Proof. unfold u64. apply Zplus_mod_idemp_r. Qed.

Lemma u64_small x : 0 ≤ x < 2 ^ 64 → u64 x = x.
Proof. intros. unfold u64. by apply Z.mod_small. Qed.

Lemma expire_sweep_spec h old now : ∀ walk s to_free n,
  state_wf h s → NoDup walk → (∀ p, p ∈ walk → p ∈ state_to_expire s) → u64 n = n →
  ∃ lead rest s',
    sweep_split h old now walk lead rest ∧
    expire_sweep h old now walk s to_free n
      = Some (s', to_free ++ swept old lead, u64 (n + Z.of_nat (length (swept old lead)))) ∧
    unlinked (swept old lead) s s'.
Proof.
  induction walk as [|p next IH]; intros s to_free n Hwf Hnd Hin Hn.
  - exists [], [], s. split; [by split|]. split.
    + simpl. rewrite app_nil_r, Z.add_0_r, Hn. done.
    + apply unlinked_nil.
  - apply NoDup_cons in Hnd as [Hp Hnd].
    assert (Hpq : p ∈ state_to_expire s) by (apply Hin; set_solver).
    pose proof Hwf as [Ht Hq _ _ _].
    destruct (proj1 (Hq p) Hpq) as [k Hk].
    destruct (Ht _ _ Hk) as (e & He & _).
    simpl. rewrite He. simpl.
    destruct (decide (old = Some p)) as [Hold|Hold].
    + destruct (IH s to_free n Hwf Hnd) as (lead & rest & s' & (Hw & Hl & Hr) & Hs & Hu);
        [set_solver|done|].
      exists (p :: lead), rest, s'. unfold swept in *.
      rewrite filter_cons_False by (intros Hc; by apply Hc).
      split; [|done]. split; [by rewrite Hw|]. split; [|done].
      constructor; [by left|done].
    + destruct (decide (entry_cleanup e < now)) as [Hexp|Hexp].
      * destruct (state_entry_unlink_spec h s p Hwf Hpq) as (s1 & Hs1 & Hu1).
        rewrite Hs1. simpl.
        destruct (IH s1 (fr_dlist_insert_tail to_free p) (u64 (n + 1)))
          as (lead & rest & s' & (Hw & Hl & Hr) & Hs & Hu).
        { by eapply unlinked_wf. }
        { done. }
        { intros q Hq'. destruct Hu1 as (-> & _). apply list_elem_of_filter.
          split; [set_solver|]. apply Hin. set_solver. }
        { apply u64_idemp. }
        exists (p :: lead), rest, s'. unfold swept in *.
        rewrite filter_cons_True by done.
        split; [|split].
        -- split; [by rewrite Hw|]. split; [|done].
           constructor; [|done]. right. by exists e.
        -- rewrite Hs. unfold fr_dlist_insert_tail. rewrite <- app_assoc. simpl.
           do 2 f_equal. rewrite u64_add_l. f_equal. lia.
        -- by apply (unlinked_trans [p] _ s s1 s').
      * exists [], (p :: next), s. split; [|split].
        -- split; [done|]. split; [constructor|]. split; [done|].
           exists e. split; [done|lia].
        -- unfold swept. rewrite filter_nil, app_nil_r. simpl.
           rewrite Z.add_0_r, Hn. done.
        -- apply unlinked_nil.
Qed.

(** The split is determined by the queue. *)
Lemma sweep_split_unique h old now walk lead rest lead' rest' :
  sweep_split h old now walk lead rest → sweep_split h old now walk lead' rest' →
  lead = lead' ∧ rest = rest'.
Proof.
  revert lead lead' rest rest'.
  induction walk as [|p walk IH]; intros lead lead' rest rest'
    (Hw & Hl & Hr) (Hw' & Hl' & Hr').
  - symmetry in Hw, Hw'. apply app_eq_nil in Hw as [-> ->].
    apply app_eq_nil in Hw' as [-> ->]. done.
  - destruct lead as [|x lead], lead' as [|x' lead'].
    + simpl in *. subst. done.
    + simpl in Hw. subst rest. injection Hw' as <- _.
      apply Forall_cons in Hl' as [Hx _]. destruct Hr as [Hno (e & He & Hle)].
      destruct Hx as [?|(e' & He' & Hlt)]; [done|].
      rewrite He in He'. injection He' as <-. lia.
    + simpl in Hw'. subst rest'. injection Hw as <- _.
      apply Forall_cons in Hl as [Hx _]. destruct Hr' as [Hno (e & He & Hle)].
      destruct Hx as [?|(e' & He' & Hlt)]; [done|].
      rewrite He in He'. injection He' as <-. lia.
    + injection Hw as <- Hw. injection Hw' as <- Hw'.
      apply Forall_cons in Hl as [_ Hl]. apply Forall_cons in Hl' as [_ Hl'].
      destruct (IH lead lead' rest rest') as [-> ->]; done.
Qed.

End sweep.

(** * state_entry_create on a well-formed store *)

Section create.

Context {platform : Platform}.

(** What the function reads off the old entry. *)
Definition old_tries_of (h : talloc) (old : option ptr) : Z :=
  match old ≫= (λ o, entries h !! o) with
  | Some eo => entry_tries eo
  | None => 0
  end.

Definition old_state_of (h : talloc) (old : option ptr) : list Z :=
  match old ≫= (λ o, entries h !! o) with
  | Some eo => entry_state eo
  | None => replicate STATE_SIZE 0
  end.

(** The old entry is unlinked when it holds no request data. *)
Definition old_unlinked (h : talloc) (old : option ptr) : list ptr :=
  match old with
  | Some o =>
      match entries h !! o with
      | Some eo => if decide (entry_data eo = []) then [o] else []
      | None => []
      end
  | None => []
  end.

(** The test behind [too_many]: no old entry, and the tree, once the
    sweep has taken [n_swept] entries out, holds [max_sessions] or more. *)
Definition too_many (state : fr_state_tree_t) (old : option ptr) (n_swept : nat) : Prop :=
  old = None ∧
  u32 (state_max_sessions state) ≤ rbtree_num_elements (state_tree state) - Z.of_nat n_swept.

Global Instance too_many_dec state old n : Decision (too_many state old n).
Proof. unfold too_many. apply _. Defined.

Lemma state_wf_set_timed_out h s x : state_wf h s → state_wf h (set_timed_out x s).
Proof. intros [? ? ? ? ?]. by split. Qed.

Lemma unlinked_set_timed_out R s s' x :
  unlinked R s s' → unlinked R (set_timed_out x s) (set_timed_out x s').
Proof.
  intros (Hq & Ht & Hs & Hf). split; [|split; [|split]]; try done.
  simpl. rewrite Hf. done.
Qed.

Lemma swept_NoDup old lead : NoDup lead → NoDup (swept old lead).
Proof. apply NoDup_filter. Qed.

Lemma swept_not_old old lead o : old = Some o → o ∉ swept old lead.
Proof. intros -> Hin. apply list_elem_of_filter in Hin as [Hne _]. done. Qed.

Lemma state_entry_create_spec h s request packet old now rnd :
  state_wf h s →
  (∀ o, old = Some o → o ∈ state_to_expire s) →
  ∃ lead rest s1 h1,
    sweep_split h old now (state_to_expire s) lead rest ∧
    unlinked (swept old lead ++ old_unlinked h old)
             (set_timed_out (u64 (state_timed_out s + Z.of_nat (length (swept old lead)))) s)
             s1 ∧
    freed (swept old lead ++ old_unlinked h old) h h1 ∧
    state_wf h1 s1 ∧
    state_entry_create h s request packet old now rnd =
      Some (if decide (too_many s old (length (swept old lead)))
            then (h1, s1, packet, TooMany)
            else insert_new_entry h1 s1 request packet old
                                  (old_tries_of h old) (old_state_of h old) now rnd).
Proof.
  intros Hwf Hold.
  destruct (expire_sweep_spec h old now (state_to_expire s) s [] 0 Hwf)
    as (lead & rest & s_sw & Hsplit & Hsweep & Hu); [apply Hwf|done|done|].
  pose proof (unlinked_fields _ _ _ Hu) as (Hid & Hto & Hmax & _).
  set (n := length (swept old lead)) in *.
  set (s_t := set_timed_out (u64 (state_timed_out s + Z.of_nat n)) s).
  assert (Hu_t : unlinked (swept old lead) s_t
                   (set_timed_out (u64 (state_timed_out s_sw + u64 (0 + Z.of_nat n))) s_sw)).
  { rewrite u64_add_r, Z.add_0_l, Hto. by apply unlinked_set_timed_out. }
  assert (Hwf_t : state_wf h s_t) by by apply state_wf_set_timed_out.
  assert (Hlead_nd : NoDup (swept old lead)).
  { apply swept_NoDup. destruct Hsplit as (Hw & _). destruct Hwf as [_ _ Hnd _ _].
    rewrite Hw in Hnd. by apply NoDup_app in Hnd as (? & _). }
  assert (Hlead_in : ∀ p, p ∈ swept old lead → p ∈ state_to_expire s).
  { intros p Hp. apply list_elem_of_filter in Hp as [_ Hp].
    destruct Hsplit as (-> & _). set_solver. }
  assert (Hlive : ∀ p, p ∈ state_to_expire s → is_Some (entries h !! p)).
  { intros p Hp. destruct Hwf as [Ht Hq _ _ _]. apply Hq in Hp as [k Hk].
    destruct (Ht _ _ Hk) as (e & He & _). eauto. }
  assert (Htm : bool_decide (old = None ∧
             u32 (state_max_sessions s_sw) ≤ rbtree_num_elements (state_tree s_sw))
           = bool_decide (too_many s old n)).
  { apply bool_decide_ext. unfold too_many, rbtree_num_elements. rewrite Hmax.
    destruct Hu as (_ & _ & Hsz & _). fold n in Hsz. split; intros [? ?]; split; try done; lia. }
  unfold state_entry_create. rewrite Hsweep. simpl. rewrite Htm. clear Htm.
  set (s_t' := set_timed_out _ s_sw) in *.
  assert (Hsnap : ∃ s1, snapshot_old h s_t' old (swept old lead)
                        = Some (s1, swept old lead ++ old_unlinked h old,
                                old_tries_of h old, old_state_of h old) ∧
                      unlinked (swept old lead ++ old_unlinked h old) s_t s1 ∧
                      NoDup (swept old lead ++ old_unlinked h old) ∧
                      (∀ p, p ∈ old_unlinked h old → p ∈ state_to_expire s)).
  { unfold snapshot_old, old_tries_of, old_state_of, old_unlinked.
    destruct old as [o|]; simpl.
    - specialize (Hold o eq_refl). destruct (Hlive o Hold) as [eo Heo]. rewrite Heo. simpl.
      destruct (decide (entry_data eo = [])).
      + assert (Ho : o ∈ state_to_expire s_t').
        { destruct Hu_t as (-> & _). apply list_elem_of_filter. split; [|done].
          by apply swept_not_old. }
        destruct (state_entry_unlink_spec h s_t' o) as (s1 & Hs1 & Hu1); [|done|].
        { by eapply unlinked_wf. }
        rewrite Hs1. simpl. exists s1. split; [done|]. split; [|split].
        * by eapply unlinked_trans.
        * apply NoDup_app. split; [done|]. split; [|apply NoDup_singleton].
          intros p Hp Hpo. apply list_elem_of_singleton in Hpo as ->.
          by eapply swept_not_old.
        * intros p Hp. apply list_elem_of_singleton in Hp as ->. done.
      + exists s_t'. rewrite app_nil_r. split; [done|]. split; [done|]. split; [done|].
        intros p Hp. set_solver.
    - exists s_t'. rewrite app_nil_r. split; [done|]. split; [done|]. split; [done|].
      intros p Hp. set_solver. }
  destruct Hsnap as (s1 & Hsnap & Hu1 & Hnd & Hold_in).
  rewrite Hsnap. simpl.
  destruct (free_entries_spec (swept old lead ++ old_unlinked h old) h Hnd)
    as (h1 & Hfree & Hfreed).
  { intros p Hp. apply Hlive. apply elem_of_app in Hp as [Hp|Hp]; auto. }
  rewrite Hfree. simpl.
  exists lead, rest, s1, h1. split; [done|]. split; [done|]. split; [done|]. split.
  - eapply freed_wf; [by eapply unlinked_wf|done|].
    intros p Hp. destruct Hu1 as (-> & _). intros Hin.
    apply list_elem_of_filter in Hin as [Hn _]. done.
  - fold n. destruct (decide (too_many s old n)).
    + rewrite bool_decide_eq_true_2 by done. done.
    + rewrite bool_decide_eq_false_2 by done. done.
Qed.

End create.

(** * The state value of a new entry *)

Section new_state.

Context {platform : Platform}.

Lemma u32_octets_length x : length (u32_octets x) = 4%nat.
Proof. unfold u32_octets. by destruct host_big_endian. Qed.

Lemma xor_u32_at_length buf off x :
  (off + 4 ≤ length buf)%nat → length (xor_u32_at buf off x) = length buf.
Proof.
  intros Hl. unfold xor_u32_at.
  rewrite !length_app, length_zip_with, !length_take, !length_drop, u32_octets_length.
  lia.
Qed.

Lemma memcpy_at_length buf off src n :
  (off + n ≤ length buf)%nat → (n ≤ length src)%nat →
  length (memcpy_at buf off src n) = length buf.
Proof.
  intros Hb Hs. unfold memcpy_at.
  rewrite !length_app, !length_take, length_drop. lia.
Qed.

Lemma fill_random_length rnd : ∀ n i buf,
  (i * 4 + n * 4 ≤ length buf)%nat → length (fill_random rnd i n buf) = length buf.
Proof.
  induction n as [|n IH]; intros i buf Hl; [done|].
  simpl. rewrite IH.
  - apply memcpy_at_length; [lia|]. rewrite u32_octets_length. lia.
  - rewrite memcpy_at_length; [lia|lia|]. rewrite u32_octets_length. lia.
Qed.

Lemma set_state_comp_length s tries buf :
  length (set_state_comp s tries buf) = length buf.
Proof. unfold set_state_comp. by rewrite !length_insert. Qed.

(** Only the attribute and the server id of the tree matter. *)
Lemma new_state_value_ext s s' packet old ot os rnd :
  state_da s' = state_da s → state_server_id s' = state_server_id s →
  new_state_value s' packet old ot os rnd = new_state_value s packet old ot os rnd.
Proof.
  intros Hda Hid. unfold new_state_value, set_state_comp. by rewrite Hda, Hid.
Qed.

Lemma new_state_value_key_length s packet old ot os rnd :
  (STATE_SIZE ≤ length os)%nat →
  length (new_state_value s packet old ot os rnd).1.1 = STATE_SIZE.
Proof.
  intros Hos. unfold new_state_value.
  destruct (fr_pair_find_by_da packet (state_da s)) as [vp|]; cbn [fst snd].
  - rewrite state_from_vp_derive by done. apply derive_key_length.
  - destruct old as [o|]; cbn [fst snd]; rewrite set_state_comp_length.
    + unfold memcpy. rewrite length_app, length_take, length_drop, length_replicate. lia.
    + by rewrite fill_random_length.
Qed.

Lemma new_state_value_length s packet old ot os rnd key tries packet' :
  (STATE_SIZE ≤ length os)%nat →
  new_state_value s packet old ot os rnd = (key, tries, packet') →
  length key = STATE_SIZE.
Proof.
  intros Hos Hnew. pose proof (new_state_value_key_length s packet old ot os rnd Hos) as Hl.
  by rewrite Hnew in Hl.
Qed.

(** Without a State attribute in the packet, the value is added to it. *)
Lemma new_state_value_minted s packet old ot os rnd key tries packet' :
  (STATE_SIZE ≤ length os)%nat →
  fr_pair_find_by_da packet (state_da s) = None →
  new_state_value s packet old ot os rnd = (key, tries, packet') →
  packet' = packet ++ [mk_vp (state_da s) key].
Proof.
  intros Hos Hnone Hnew.
  pose proof (new_state_value_length _ _ _ _ _ _ _ _ _ Hos Hnew) as Hlen.
  assert (Hp : (new_state_value s packet old ot os rnd).2
               = packet ++ [mk_vp (state_da s)
                              (take STATE_SIZE (new_state_value s packet old ot os rnd).1.1)]).
  { unfold new_state_value. rewrite Hnone. by destruct old. }
  rewrite Hnew in Hp. cbn [fst snd] in Hp. rewrite Hp.
  by rewrite firstn_all2 by (rewrite Hlen; done).
Qed.

(** With a State attribute in the packet, the value is derived from it
    and the packet is left as it is. *)
Lemma new_state_value_preset s packet old ot os rnd vp :
  fr_pair_find_by_da packet (state_da s) = Some vp →
  new_state_value s packet old ot os rnd = (derive_key (vp_octets vp), 0, packet).
Proof.
  intros Hvp. unfold new_state_value. rewrite Hvp.
  by rewrite state_from_vp_derive.
Qed.

End new_state.

(** * The new entry *)

Section insert.

Context {platform : Platform}.

(** The entry [state_entry_create] files: its id, state value, lifetime
    and tries; it owns nothing yet and nobody thawed it. *)
Definition new_entry (s : fr_state_tree_t) (k : list Z) (now tries : Z) : fr_state_entry_t :=
  mk_entry (state_id s) k 0 (now + u32 (state_timeout s)) tries None [] [] None.

(** The two ways [insert_new_entry] ends. *)
Lemma insert_new_entry_cases h s request packet old ot os now rnd :
  ∃ key tries pk,
    new_state_value s packet old ot os rnd = (key, tries, pk) ∧
    let k := xor_u32_at key OFF_server_hash (server_hash request) in
    insert_new_entry h s request packet old ot os now rnd =
      match state_tree s !! k with
      | Some _ =>
          (mk_talloc (entries h) (ctxs h) (brk h + 1)%N,
           set_id (u64 (state_id s + 1)) s,
           fr_pair_delete_by_da pk (state_da s), InsertFailed)
      | None =>
          (mk_talloc (<[brk h := new_entry s k now tries]> (entries h)) (ctxs h) (brk h + 1)%N,
           set_tree_index (<[k := brk h]> (state_tree s)) (state_to_expire s ++ [brk h])
                          (set_id (u64 (state_id s + 1)) s),
           pk, Created (brk h))
      end.
Proof.
  unfold insert_new_entry.
  rewrite (new_state_value_ext s (set_id _ s)) by done.
  destruct (new_state_value s packet old ot os rnd) as [[key tries] pk].
  exists key, tries, pk. split; [done|]. cbn zeta.
  unfold rbtree_insert. cbn [state_tree set_id].
  by destruct (state_tree s !! _).
Qed.

Lemma state_wf_set_id h s x : state_wf h s → state_wf h (set_id x s).
Proof. intros [? ? ? ? ?]. by split. Qed.

(** Filing a fresh entry under a state value that is not in the tree. *)
Lemma state_wf_insert h s k e x :
  state_wf h s → state_tree s !! k = None → entry_state e = k → length k = STATE_SIZE →
  state_wf (mk_talloc (<[brk h := e]> (entries h)) (ctxs h) (brk h + 1)%N)
           (set_tree_index (<[k := brk h]> (state_tree s)) (state_to_expire s ++ [brk h])
                           (set_id x s)).
Proof.
  intros [Ht Hq Hn Hb Hcx] Hk He Hl.
  assert (Hfresh : entries h !! brk h = None).
  { destruct (entries h !! brk h) eqn:Hlk; [|done].
    specialize (Hb (brk h) (ltac:(eauto))). lia. }
  assert (Hnq : brk h ∉ state_to_expire s).
  { intros Hin. apply Hq in Hin as [k' Hk']. destruct (Ht _ _ Hk') as (e' & He' & _).
    congruence. }
  split; simpl.
  - intros k' p Hk'. destruct (decide (k = k')) as [<-|Hne].
    + rewrite lookup_insert_eq in Hk'. injection Hk' as <-.
      exists e. by rewrite lookup_insert_eq.
    + rewrite lookup_insert_ne in Hk' by done.
      destruct (Ht _ _ Hk') as (e' & He' & Hek' & Hl').
      exists e'. rewrite lookup_insert_ne by congruence. done.
  - intros p. rewrite elem_of_app, list_elem_of_singleton, Hq. split.
    + intros [[k' Hk']| ->].
      * exists k'. rewrite lookup_insert_ne; [done|]. congruence.
      * exists k. apply lookup_insert_eq.
    + intros [k' Hk']. destruct (decide (k = k')) as [<-|Hne].
      * rewrite lookup_insert_eq in Hk'. right. congruence.
      * rewrite lookup_insert_ne in Hk' by done. eauto.
  - apply NoDup_app. split; [done|]. split; [|apply NoDup_singleton].
    intros p Hp Hpb. apply list_elem_of_singleton in Hpb as ->. done.
  - intros p [e' He']. destruct (decide (brk h = p)) as [<-|Hne]; [lia|].
    rewrite lookup_insert_ne in He' by done.
    specialize (Hb p (ltac:(eauto))). lia.
  - intros c Hc. specialize (Hcx c Hc). lia.
Qed.

Lemma state_wf_bump h s :
  state_wf h s → state_wf (mk_talloc (entries h) (ctxs h) (brk h + 1)%N) s.
Proof.
  intros [Ht Hq Hn Hb Hcx]. split; try done.
  - intros p Hp. specialize (Hb p Hp). simpl. lia.
  - intros c Hc. specialize (Hcx c Hc). simpl. lia.
Qed.

Lemma insert_new_entry_wf h s request packet old ot os now rnd h' s' packet' res :
  state_wf h s → (STATE_SIZE ≤ length os)%nat →
  insert_new_entry h s request packet old ot os now rnd = (h', s', packet', res) →
  state_wf h' s'.
Proof.
  intros Hwf Hos.
  destruct (insert_new_entry_cases h s request packet old ot os now rnd)
    as (key & tries & pk & Hnew & Hins).
  cbn zeta in Hins. rewrite Hins.
  pose proof (new_state_value_length _ _ _ _ _ _ _ _ _ Hos Hnew) as Hlen.
  destruct (state_tree s !! _) eqn:Hk; intros [= <- <- <- <-].
  - apply state_wf_bump. by apply state_wf_set_id.
  - apply state_wf_insert; try done.
    rewrite xor_u32_at_length; rewrite Hlen; unfold OFF_server_hash, STATE_SIZE; lia.
Qed.

End insert.

(** * Octets of the server hash *)

Section octets.

Context {platform : Platform}.

Lemma u32_range x : 0 ≤ u32 x < 2 ^ 32.
Proof. unfold u32. apply Z.mod_pos_bound. lia. Qed.

Lemma u32_recompose a :
  0 ≤ a < 2 ^ 32 →
  a = u8 a + 256 * u8 (a ≫ 8) + 65536 * u8 (a ≫ 16) + 16777216 * u8 (a ≫ 24).
Proof.
  intros Ha. unfold u8. rewrite !Z.shiftr_div_pow2 by lia.
  change (2 ^ 8) with 256. change (2 ^ 16) with 65536. change (2 ^ 24) with 16777216.
  change (2 ^ 32) with 4294967296 in Ha.
  Z.to_euclidean_division_equations. lia.
Qed.

(** The octets in memory determine the uint32_t. *)
Lemma u32_octets_inj x y : u32_octets x = u32_octets y → u32 x = u32 y.
Proof.
  unfold u32_octets. intros Heq.
  assert (Hle : [u8 (u32 x); u8 (u32 x ≫ 8); u8 (u32 x ≫ 16); u8 (u32 x ≫ 24)]
              = [u8 (u32 y); u8 (u32 y ≫ 8); u8 (u32 y ≫ 16); u8 (u32 y ≫ 24)]).
  { destruct host_big_endian; [|done]. by apply (inj reverse). }
  injection Hle as H0 H1 H2 H3.
  rewrite (u32_recompose (u32 x)), (u32_recompose (u32 y)) by apply u32_range.
  congruence.
Qed.

Lemma lxor_cancel_l a x y : Z.lxor a x = Z.lxor a y → x = y.
Proof.
  intros Hxy. rewrite <- (Z.lxor_0_l x), <- (Z.lxor_0_l y), <- (Z.lxor_nilpotent a).
  rewrite !Z.lxor_assoc. by rewrite Hxy.
Qed.

Lemma zip_with_lxor_inj : ∀ (bs xs ys : list Z),
  length xs = length bs → length ys = length bs →
  zip_with Z.lxor bs xs = zip_with Z.lxor bs ys → xs = ys.
Proof.
  induction bs as [|b bs IH]; intros [|x xs] [|y ys] Hx Hy Heq; try done.
  simpl in *. injection Heq as Hxy Heq.
  f_equal; [by eapply lxor_cancel_l|]. apply IH; [lia|lia|done].
Qed.

(** Two hashes that differ give state values that differ. *)
Lemma xor_u32_at_inj buf off x y :
  (off + 4 ≤ length buf)%nat →
  xor_u32_at buf off x = xor_u32_at buf off y → u32 x = u32 y.
Proof.
  intros Hl Heq. unfold xor_u32_at in Heq.
  apply app_inv_head in Heq. apply app_inv_tail in Heq.
  apply u32_octets_inj. eapply zip_with_lxor_inj; [| |exact Heq];
    rewrite u32_octets_length, length_take, length_drop; lia.
Qed.

Lemma u32_idemp x : u32 (u32 x) = u32 x.
Proof. unfold u32. apply Z.mod_mod. lia. Qed.

Lemma server_hash_u32 request : u32 (server_hash request) = server_hash request.
Proof. apply u32_idemp. Qed.

End octets.

(** * What a successful state_entry_create leaves behind *)

Section created.

Context {platform : Platform}.

(** The old entry handed to [state_entry_create] is in the expiry queue. *)
Definition old_linked (s : fr_state_tree_t) (old : option ptr) : Prop :=
  ∀ o, old = Some o → o ∈ state_to_expire s.

Lemma old_state_of_length h s old :
  state_wf h s → old_linked s old → length (old_state_of h old) = STATE_SIZE.
Proof.
  intros [Ht Hq _ _ _] Hold. unfold old_state_of.
  destruct old as [o|]; simpl; [|done].
  destruct (proj1 (Hq o) (Hold o eq_refl)) as [k Hk].
  destruct (Ht _ _ Hk) as (e & -> & <- & Hl). done.
Qed.

Lemma find_old_linked h s request :
  state_wf h s → old_linked s (find_old s request).
Proof.
  intros [_ Hq _ _ _] o Ho. unfold find_old, state_entry_find, rbtree_finddata in Ho.
  destruct (fr_pair_find_by_da _ _); [|done]. apply Hq. eauto.
Qed.

(** On a well-formed store the function returns, and the store it leaves
    is well formed. *)
Lemma state_entry_create_wf h s request packet old now rnd :
  state_wf h s → old_linked s old →
  ∃ h' s' packet' res,
    state_entry_create h s request packet old now rnd = Some (h', s', packet', res) ∧
    state_wf h' s'.
Proof.
  intros Hwf Hold.
  destruct (state_entry_create_spec h s request packet old now rnd Hwf Hold)
    as (lead & rest & s1 & h1 & _ & _ & _ & Hwf1 & Hcreate).
  rewrite Hcreate. case_decide.
  - by exists h1, s1, packet, TooMany.
  - destruct (insert_new_entry _ _ _ _ _ _ _ _ _) as [[[h' s'] packet'] res] eqn:Hins.
    exists h', s', packet', res. split; [done|].
    eapply insert_new_entry_wf; [exact Hwf1| |exact Hins].
    by erewrite old_state_of_length.
Qed.

Lemma state_entry_create_Created h s request packet old now rnd h' s' packet' p :
  state_wf h s → old_linked s old →
  state_entry_create h s request packet old now rnd = Some (h', s', packet', Created p) →
  ∃ lead rest s1 h1 key tries,
    sweep_split h old now (state_to_expire s) lead rest ∧
    unlinked (swept old lead ++ old_unlinked h old)
             (set_timed_out (u64 (state_timed_out s + Z.of_nat (length (swept old lead)))) s)
             s1 ∧
    freed (swept old lead ++ old_unlinked h old) h h1 ∧
    state_wf h1 s1 ∧
    ¬ too_many s old (length (swept old lead)) ∧
    new_state_value s packet old (old_tries_of h old) (old_state_of h old) rnd
      = (key, tries, packet') ∧
    length key = STATE_SIZE ∧
    state_tree s1 !! xor_u32_at key OFF_server_hash (server_hash request) = None ∧
    p = brk h ∧
    h' = mk_talloc
           (<[p := new_entry s1 (xor_u32_at key OFF_server_hash (server_hash request))
                             now tries]> (entries h1))
           (ctxs h1) (brk h + 1)%N ∧
    s' = set_tree_index
           (<[xor_u32_at key OFF_server_hash (server_hash request) := p]> (state_tree s1))
           (state_to_expire s1 ++ [p]) (set_id (u64 (state_id s + 1)) s1).
Proof.
  intros Hwf Hold Hcreate.
  destruct (state_entry_create_spec h s request packet old now rnd Hwf Hold)
    as (lead & rest & s1 & h1 & Hsplit & Hu & Hfr & Hwf1 & Hspec).
  rewrite Hspec in Hcreate. clear Hspec.
  destruct (decide (too_many _ _ _)) as [|Hntm]; [done|].
  destruct (insert_new_entry_cases h1 s1 request packet old
              (old_tries_of h old) (old_state_of h old) now rnd)
    as (key & tries & pk & Hnew & Hins).
  cbn zeta in Hins. rewrite Hins in Hcreate. clear Hins.
  pose proof (unlinked_fields _ _ _ Hu) as (Hid & _ & _ & _ & Hsid & Hda).
  rewrite (new_state_value_ext s) in Hnew by done.
  pose proof Hfr as (_ & _ & Hbrk).
  destruct (state_tree s1 !! _) eqn:Hk; [done|].
  injection Hcreate as <- <- <- <-.
  exists lead, rest, s1, h1, key, tries.
  repeat (split; [done|]).
  split; [eapply new_state_value_length; [|exact Hnew]; by erewrite old_state_of_length|].
  rewrite Hbrk. simpl in Hid. rewrite Hid. done.
Qed.

End created.

(** * Requests and stores to evaluate the functions on *)

Definition ex_da : Z := 24.

(** The heap before any entry: the state contexts of two requests are
    live, at the addresses 1 and 2. *)
Definition ex_heap : talloc := mk_talloc ∅ {[1%N; 2%N]} 3%N.

Lemma ex_heap_ctxs c : c ∈ ({[1%N; 2%N]} : gset N) → (c < 3)%N.
Proof. intros Hc. apply elem_of_union in Hc as [Hc|Hc]; apply elem_of_singleton in Hc; lia. Qed.

Definition ex_request (addr : ptr) (server : string) (packet : list VALUE_PAIR)
    (state_ctx : option ptr) (state : list VALUE_PAIR) (data : list request_data_t)
  : REQUEST :=
  mk_request addr 7 0 server packet [] state_ctx state data.

Definition ex_rnd (i : nat) : Z := 0x01020304 + Z.of_nat i * 0x11111111.

Lemma state_wf_init cs b da max_sessions timeout server_id :
  (∀ c, c ∈ cs → (c < b)%N) →
  state_wf (mk_talloc ∅ cs b) (fr_state_tree_init da max_sessions timeout server_id).
Proof.
  intros Hcs. split; simpl.
  - intros k p Hk. by rewrite lookup_empty in Hk.
  - intros p. split; [by intros ?%elem_of_nil|]. intros [k Hk].
    by rewrite lookup_empty in Hk.
  - constructor.
  - intros p [e He]. by rewrite lookup_empty in He.
  - done.
Qed.

(** * Key derivation symmetry *)

Section claim_key_symmetry.

Context {platform : Platform}.

(** C2.  For every octet string [B], the key [state_entry_create] derives
    from a State attribute of value [B] already in the outbound packet (on
    its zeroed entry) is the key [state_entry_find] derives from [B] (on
    its uninitialised [my_entry], whatever that holds), and it is the key
    of the three-case rule: [B] itself when it has the width of the key,
    the MD5 digest of all of [B] when it is longer, [B] padded with zeroes
    when it is shorter.  So the state value [state_entry_create] gives the
    new entry for such a packet, and the value [state_entry_find] looks up
    once the server hash is xor'd in, are made from the same key.  The
    lengths 15, 16, 17 and 0 are instances. *)
Theorem key_derivation_symmetry (B my_entry : list Z) (da : Z) :
  length my_entry = STATE_SIZE →
  state_from_vp (replicate STATE_SIZE 0) (mk_vp da B) = state_from_vb my_entry B ∧
  state_from_vb my_entry B = derive_key B ∧
  (∀ s packet old old_tries old_state rnd vp,
     fr_pair_find_by_da packet (state_da s) = Some vp → vp_octets vp = B →
     (new_state_value s packet old old_tries old_state rnd).1.1 = derive_key B) ∧
  (∀ s request,
     state_entry_find s request B
     = rbtree_finddata (state_tree s)
         (xor_u32_at (derive_key B) OFF_server_hash (server_hash request))) ∧
  (length B = STATE_SIZE → derive_key B = B) ∧
  ((STATE_SIZE < length B)%nat → derive_key B = vec_to_list (fr_md5_calc B)) ∧
  ((length B < STATE_SIZE)%nat →
   derive_key B = B ++ replicate (STATE_SIZE - length B) 0).
Proof.
  intros Hlen. split; [|split; [|split; [|split; [|split; [|split]]]]].
  - rewrite state_from_vp_derive by done. by rewrite state_from_vb_derive.
  - by apply state_from_vb_derive.
  - intros s packet old ot os rnd vp Hvp <-.
    by rewrite (new_state_value_preset _ _ _ _ _ _ _ Hvp).
  - intros s request. unfold state_entry_find. by rewrite state_from_vb_derive.
  - intros HB. unfold derive_key. by rewrite decide_True.
  - intros HB. unfold derive_key.
    rewrite decide_False by lia. by rewrite decide_True.
  - intros HB. unfold derive_key.
    rewrite decide_False by lia. by rewrite decide_False by lia.
Qed.

End claim_key_symmetry.

Lemma key_derivation_symmetry_witness :
  length (replicate 16 255) = STATE_SIZE ∧
  state_from_vp (platform := example_platform) (replicate STATE_SIZE 0) (mk_vp ex_da [1; 2; 3])
  = state_from_vb (platform := example_platform) (replicate 16 255) [1; 2; 3].
Proof.
  split; [reflexivity|].
  exact (proj1 (key_derivation_symmetry (platform := example_platform)
                  [1; 2; 3] (replicate 16 255) ex_da eq_refl)).
Defined.

(** The four lengths the specification singles out, on the example
    platform: both paths give the same 16 octets. *)
Example key_symmetry_lengths :
  Forall (λ B, state_from_vp (platform := example_platform)
                 (replicate STATE_SIZE 0) (mk_vp ex_da B)
               = state_from_vb (platform := example_platform) (replicate 16 255) B
             ∧ length (state_from_vb (platform := example_platform) (replicate 16 255) B)
               = STATE_SIZE)
         [seqZ 1 15; seqZ 1 16; seqZ 1 17; []].
Proof. repeat constructor. Qed.

(** * Virtual-server isolation *)

Section claim_isolation.

Context {platform : Platform}.

Lemma state_entry_find_lookup s request octets :
  state_entry_find s request octets
  = state_tree s !! xor_u32_at (derive_key octets) OFF_server_hash (server_hash request).
Proof.
  unfold state_entry_find, rbtree_finddata. by rewrite state_from_vb_derive.
Qed.

Lemma fr_pair_find_by_da_app vps vp da :
  fr_pair_find_by_da vps da = None → vp_da vp = da →
  fr_pair_find_by_da (vps ++ [vp]) da = Some vp.
Proof.
  unfold fr_pair_find_by_da. intros Hnone Hda.
  induction vps as [|v vps IH]; simpl in *.
  - by rewrite bool_decide_eq_true_2.
  - destruct (bool_decide (vp_da v = da)); [done|]. by apply IH.
Qed.

(** The State attribute of the packet after a successful call carries
    the value the key of the new entry was made from. *)
Lemma created_token_key s packet old ot os rnd key tries packet' token :
  (STATE_SIZE ≤ length os)%nat →
  new_state_value s packet old ot os rnd = (key, tries, packet') →
  fr_pair_find_by_da packet' (state_da s) = Some token →
  derive_key (vp_octets token) = key ∧
  (fr_pair_find_by_da packet (state_da s) = None →
   packet' = packet ++ [token] ∧ vp_octets token = key).
Proof.
  intros Hos Hnew Htok.
  destruct (fr_pair_find_by_da packet (state_da s)) as [vp|] eqn:Hvp.
  - rewrite (new_state_value_preset _ _ _ _ _ _ _ Hvp) in Hnew.
    injection Hnew as <- _ <-. rewrite Hvp in Htok. injection Htok as <-. done.
  - pose proof (new_state_value_length _ _ _ _ _ _ _ _ _ Hos Hnew) as Hlen.
    rewrite (new_state_value_minted _ _ _ _ _ _ _ _ _ Hos Hvp Hnew) in Htok |- *.
    rewrite fr_pair_find_by_da_app in Htok by done. injection Htok as <-.
    simpl. split; [|done]. unfold derive_key. by rewrite decide_True.
Qed.

(** What the code keeps of the isolation of virtual servers, on every
    store.  An entry created under virtual server A is filed under the
    value of the State attribute of the outbound packet (the value sent to
    the client; for a minted value, it is the new pair at the end of the
    packet) with the hash of A xor'd into its [server_hash] octets.  A
    find with that value under a virtual server with the hash of A returns
    the entry; under a virtual server whose hash differs it does not
    return this entry, and it returns nothing when it returned nothing
    before the entry was filed.  That it returns no entry at all does not
    follow: see [isolation_broken]. *)
Lemma virtual_server_isolation h s reqA packet old now rnd h' s' packet' p token :
  state_wf h s → old_linked s old →
  state_entry_create h s reqA packet old now rnd = Some (h', s', packet', Created p) →
  fr_pair_find_by_da packet' (state_da s) = Some token →
  (∃ e, entries h' !! p = Some e ∧
        entry_state e = xor_u32_at (derive_key (vp_octets token)) OFF_server_hash
                                   (server_hash reqA) ∧
        state_tree s' !! entry_state e = Some p) ∧
  (fr_pair_find_by_da packet (state_da s) = None →
   packet' = packet ++ [token] ∧ derive_key (vp_octets token) = vp_octets token) ∧
  (∀ req, server_hash req = server_hash reqA →
          state_entry_find s' req (vp_octets token) = Some p) ∧
  (∀ reqB, server_hash reqB ≠ server_hash reqA →
           state_entry_find s' reqB (vp_octets token) ≠ Some p ∧
           (state_entry_find s reqB (vp_octets token) = None →
            state_entry_find s' reqB (vp_octets token) = None)).
Proof.
  intros Hwf Hold Hcreate Htok.
  destruct (state_entry_create_Created _ _ _ _ _ _ _ _ _ _ _ Hwf Hold Hcreate)
    as (lead & rest & s1 & h1 & key & tries & _ & Hu & Hfr & Hwf1 & _ & Hnew & Hlen
        & Hfresh & Hp & -> & ->).
  assert (Hos : (STATE_SIZE ≤ length (old_state_of h old))%nat)
    by by erewrite old_state_of_length.
  destruct (created_token_key _ _ _ _ _ _ _ _ _ _ Hos Hnew Htok) as [Hkey Hmint].
  rewrite Hkey.
  set (kA := xor_u32_at key OFF_server_hash (server_hash reqA)) in *.
  split; [|split; [|split]].
  - exists (new_entry s1 kA now tries). simpl. by rewrite !lookup_insert_eq.
  - intros Hnone. destruct (Hmint Hnone) as [-> ->]. done.
  - intros req Hreq. rewrite state_entry_find_lookup, Hkey, Hreq. simpl.
    apply lookup_insert_eq.
  - intros reqB HB. rewrite !state_entry_find_lookup, Hkey. simpl.
    assert (Hne : kA ≠ xor_u32_at key OFF_server_hash (server_hash reqB)).
    { intros Heq. apply xor_u32_at_inj in Heq.
      - rewrite !server_hash_u32 in Heq. done.
      - rewrite Hlen. unfold OFF_server_hash, STATE_SIZE. lia. }
    rewrite lookup_insert_ne by done. split.
    + intros Hin. destruct Hwf1 as [Ht _ _ Hb _]. destruct (Ht _ _ Hin) as (e & He & _).
      specialize (Hb p (ltac:(eauto))). destruct Hfr as (_ & _ & Hbrk). lia.
    + intros Hs.
      destruct (state_tree s1 !! xor_u32_at key OFF_server_hash (server_hash reqB))
        as [q|] eqn:Hq; [|done].
      destruct Hu as (_ & Ht & _). apply Ht in Hq as [Hq _]. simpl in Hq. congruence.
Qed.

End claim_isolation.

Definition ex_s0 : fr_state_tree_t := fr_state_tree_init ex_da 10 30 0.

Definition ex_reqA : REQUEST :=
  ex_request 500%N "serverA" [] (Some 1%N) [mk_vp 1 [1]]
             [mk_rd 1 2 3 true; mk_rd 4 5 6 false].

Definition ex_reqB : REQUEST :=
  ex_request 501%N "serverB" [] (Some 2%N) [] [].

(** The value minted for [ex_reqA] from [ex_rnd]. *)
Definition ex_token : list Z := [1; 1; 2; 0; 21; 20; 19; 18; 6; 37; 2; 35; 2; 54; 53; 52].

Definition ex_created :=
  state_entry_create (platform := example_platform) ex_heap ex_s0 ex_reqA [] None 1000 ex_rnd.

Definition ex_created_heap : talloc :=
  match ex_created with Some (h, _, _, _) => h | None => ex_heap end.

Definition ex_created_tree : fr_state_tree_t :=
  match ex_created with Some (_, s, _, _) => s | None => ex_s0 end.

Lemma virtual_server_isolation_witness :
  state_entry_find (platform := example_platform) ex_created_tree ex_reqA ex_token
    = Some 3%N ∧
  state_entry_find (platform := example_platform) ex_created_tree ex_reqB ex_token
    ≠ Some 3%N.
Proof.
  destruct (virtual_server_isolation (platform := example_platform)
              ex_heap ex_s0 ex_reqA [] None 1000 ex_rnd
              ex_created_heap ex_created_tree [mk_vp ex_da ex_token] 3%N
              (mk_vp ex_da ex_token)) as (_ & _ & HA & HB).
  - apply state_wf_init, ex_heap_ctxs.
  - intros o Ho. discriminate Ho.
  - vm_compute. reflexivity.
  - vm_compute. reflexivity.
  - split.
    + apply HA. reflexivity.
    + apply HB. vm_compute. discriminate.
Defined.

(** The isolation as the comments of the source (at [server_hash] and at
    the xor in [state_entry_create]) promise it: the find under the other
    virtual server returns no entry. *)
Definition isolation_as_claimed {platform : Platform} : Prop :=
  ∀ h s reqA packet old now rnd h' s' packet' p token reqB,
    state_wf h s → old_linked s old →
    state_entry_create h s reqA packet old now rnd = Some (h', s', packet', Created p) →
    fr_pair_find_by_da packet' (state_da s) = Some token →
    server_hash reqB ≠ server_hash reqA →
    state_entry_find s' reqB (vp_octets token) = None ∧
    state_entry_find s' reqA (vp_octets token) = Some p.

(** A State attribute a module has put in a reply of "serverA": the
    minted value [ex_token] with the hashes of "serverA" and "serverB"
    xor'd into its [server_hash] octets. *)
Definition ex_preset : list Z := [1; 1; 2; 0; 22; 20; 19; 18; 6; 37; 2; 35; 2; 54; 53; 52].

Definition ex_preset_created :=
  state_entry_create (platform := example_platform)
    ex_heap ex_s0 ex_reqA [mk_vp ex_da ex_preset] None 1000 ex_rnd.

Definition ex_preset_heap : talloc :=
  match ex_preset_created with Some (h, _, _, _) => h | None => ex_heap end.

Definition ex_preset_tree : fr_state_tree_t :=
  match ex_preset_created with Some (_, s, _, _) => s | None => ex_s0 end.

Definition ex_preset_minted :=
  state_entry_create (platform := example_platform)
    ex_preset_heap ex_preset_tree ex_reqA [] None 1000 ex_rnd.

Definition ex_preset_minted_heap : talloc :=
  match ex_preset_minted with Some (h, _, _, _) => h | None => ex_heap end.

Definition ex_preset_minted_tree : fr_state_tree_t :=
  match ex_preset_minted with Some (_, s, _, _) => s | None => ex_s0 end.

(** C3.  The code does not isolate the virtual servers.  Both entries of
    the store are created by [state_entry_create] under "serverA": the
    one at address 3 from the State attribute [ex_preset] a module has put
    in the reply, the one at address 4 with the minted value [ex_token],
    which is the value sent to the client.  The hashes of "serverA" and
    "serverB" differ.  A [state_entry_find] with [ex_token] under
    "serverA" returns the entry at address 4; the same find under
    "serverB" returns the entry at address 3, an entry of "serverA",
    where the source promises that a lookup succeeds only in the virtual
    server that created the state value. *)
Theorem isolation_broken :
  ex_preset_created
  = Some (ex_preset_heap, ex_preset_tree, [mk_vp ex_da ex_preset], Created 3%N) ∧
  ex_preset_minted
  = Some (ex_preset_minted_heap, ex_preset_minted_tree, [mk_vp ex_da ex_token],
          Created 4%N) ∧
  server_hash (platform := example_platform) ex_reqB
  ≠ server_hash (platform := example_platform) ex_reqA ∧
  state_entry_find (platform := example_platform) ex_preset_minted_tree ex_reqA ex_token
  = Some 4%N ∧
  state_entry_find (platform := example_platform) ex_preset_minted_tree ex_reqB ex_token
  = Some 3%N ∧
  entries ex_preset_minted_heap !! 3%N
  = Some (mk_entry 0 (xor_u32_at (platform := example_platform) ex_preset
                                 OFF_server_hash
                                 (server_hash (platform := example_platform) ex_reqA))
                   0 1030 0 None [] [] None).
Proof. vm_compute. repeat split; discriminate. Qed.

(** So the promise fails on the code: the tree holds the entry made from
    [ex_preset] (at address 3) when a second entry is created for
    "serverA" with a minted value (address 4), and the find with the
    minted value under "serverB" returns the first entry. *)
Lemma isolation_counterexample : ¬ isolation_as_claimed (platform := example_platform).
Proof.
  intros Hclaim.
  assert (Hwf : state_wf ex_preset_heap ex_preset_tree).
  { destruct (state_entry_create_wf (platform := example_platform)
                ex_heap ex_s0 ex_reqA [mk_vp ex_da ex_preset] None 1000 ex_rnd)
      as (h1 & s1 & pk1 & res1 & Hc & Hwf1).
    - apply state_wf_init, ex_heap_ctxs.
    - intros o Ho. discriminate Ho.
    - unfold ex_preset_heap, ex_preset_tree, ex_preset_created. by rewrite Hc. }
  destruct (state_entry_create (platform := example_platform)
              ex_preset_heap ex_preset_tree ex_reqA [] None 1000 ex_rnd)
    as [[[[h2 s2] pk2] res2]|] eqn:Hc2; [|vm_compute in Hc2; discriminate Hc2].
  assert (Hres : res2 = Created 4%N ∧ pk2 = [mk_vp ex_da ex_token] ∧
                 state_entry_find (platform := example_platform) s2 ex_reqB ex_token
                 = Some 3%N).
  { vm_compute in Hc2. injection Hc2 as <- <- <- <-. vm_compute. done. }
  destruct Hres as (-> & -> & Hfind).
  assert (Hold : old_linked ex_preset_tree None) by (intros o Ho; discriminate Ho).
  assert (Htok : fr_pair_find_by_da [mk_vp ex_da ex_token] (state_da ex_preset_tree)
                 = Some (mk_vp ex_da ex_token)) by (vm_compute; reflexivity).
  assert (Hne : server_hash (platform := example_platform) ex_reqB
                ≠ server_hash (platform := example_platform) ex_reqA)
    by (vm_compute; discriminate).
  destruct (Hclaim ex_preset_heap ex_preset_tree ex_reqA [] None 1000 ex_rnd
              h2 s2 [mk_vp ex_da ex_token] 4%N (mk_vp ex_da ex_token) ex_reqB
              Hwf Hold Hc2 Htok Hne) as [Hnone _].
  change (vp_octets (mk_vp ex_da ex_token)) with ex_token in Hnone.
  rewrite Hfind in Hnone. discriminate Hnone.
Qed.

(** * What state_entry_create leaves of the entries that were there *)

Section frame.

Context {platform : Platform}.

(** The entry the call has filed, if any. *)
Definition created_entry (res : create_result) : list ptr :=
  match res with
  | Created p => [p]
  | _ => []
  end.

(** The allocation and the insertion touch no address handed out
    before. *)
Lemma insert_new_entry_frame h s request packet old ot os now rnd h' s' packet' res :
  insert_new_entry h s request packet old ot os now rnd = (h', s', packet', res) →
  state_timed_out s' = state_timed_out s ∧
  state_max_sessions s' = state_max_sessions s ∧
  state_id s' = u64 (state_id s + 1) ∧
  ctxs h' = ctxs h ∧
  brk h' = (brk h + 1)%N ∧
  state_to_expire s' = state_to_expire s ++ created_entry res ∧
  (∀ p, p ≠ brk h → entries h' !! p = entries h !! p) ∧
  (∀ k p, p ≠ brk h → state_tree s' !! k = Some p ↔ state_tree s !! k = Some p) ∧
  (∀ p, res = Created p →
        p = brk h ∧
        (∃ e, entries h' !! p = Some e ∧ state_tree s' !! entry_state e = Some p) ∧
        size (state_tree s') = S (size (state_tree s))) ∧
  res ≠ TooMany ∧
  (res = InsertFailed → state_tree s' = state_tree s ∧ entries h' = entries h).
Proof.
  destruct (insert_new_entry_cases h s request packet old ot os now rnd)
    as (key & tries & pk & Hnew & Hins).
  cbn zeta in Hins. rewrite Hins. clear Hins.
  destruct (state_tree s !! _) eqn:Hk; intros [= <- <- <- <-]; simpl.
  - rewrite app_nil_r. split_and!; try done.
  - split_and!; try done.
    + intros p Hp. by rewrite lookup_insert_ne.
    + intros k p Hp. destruct (decide (k = xor_u32_at key OFF_server_hash
                                              (server_hash request))) as [->|Hne].
      * rewrite lookup_insert_eq, Hk. split; [congruence|done].
      * by rewrite lookup_insert_ne.
    + intros p [= <-]. split; [done|]. split.
      * eexists. rewrite lookup_insert_eq. split; [done|]. simpl.
        by rewrite lookup_insert_eq.
      * by apply map_size_insert_None.
Qed.

Lemma queue_below_brk h s p :
  state_wf h s → p ∈ state_to_expire s → (p < brk h)%N.
Proof.
  intros [Ht Hq _ Hb _] Hp. apply Hq in Hp as [k Hk].
  destruct (Ht _ _ Hk) as (e & He & _). apply Hb. eauto.
Qed.

End frame.

(** * The expiry sweep of state_entry_create *)

Section claim_sweep.

Context {platform : Platform}.

(** C5.  On a well-formed store, for every call of [state_entry_create]
    (it returns): the expiry queue is a run [lead] followed by [rest],
    where every entry of [lead] is the old entry or has a cleanup time
    strictly before [now], and [rest] is empty or starts with an entry
    that is not the old one and whose cleanup time is not before [now].
    The entries of [lead] other than the old one are, when the call
    returns, out of the queue, out of the tree and freed, and [timed_out]
    has grown by their number (as a uint64_t).  The old entry is not among
    them: when it still holds request data it stays linked and live,
    whatever its cleanup time.  Every other entry of the queue is still in
    the queue and in the tree, with its contents as they were. *)
Theorem expiry_sweep h s request packet old now rnd :
  state_wf h s → old_linked s old →
  ∃ lead rest h' s' packet' res,
    state_entry_create h s request packet old now rnd = Some (h', s', packet', res) ∧
    state_to_expire s = lead ++ rest ∧
    Forall (λ p, old = Some p ∨ expired h now p) lead ∧
    match rest with
    | [] => True
    | q :: _ => old ≠ Some q ∧ unexpired h now q
    end ∧
    (∀ p, p ∈ lead → old ≠ Some p →
          (p ∉ state_to_expire s') ∧ (∀ k, state_tree s' !! k ≠ Some p) ∧
          entries h' !! p = None) ∧
    fr_state_entries_timeout s'
      = u64 (fr_state_entries_timeout s + Z.of_nat (length (swept old lead))) ∧
    (∀ o, old = Some o →
          (o ∉ swept old lead) ∧
          (old_unlinked h old = [] →
           o ∈ state_to_expire s' ∧ entries h' !! o = entries h !! o)) ∧
    (∀ p, p ∈ rest → old ≠ Some p →
          p ∈ state_to_expire s' ∧ entries h' !! p = entries h !! p ∧
          (∀ k, state_tree s' !! k = Some p ↔ state_tree s !! k = Some p)).
Proof.
  intros Hwf Hold.
  destruct (state_entry_create_spec h s request packet old now rnd Hwf Hold)
    as (lead & rest & s1 & h1 & Hsplit & Hu & Hfr & Hwf1 & Hcreate).
  pose proof Hsplit as (Hq & Hlead & Hrest).
  set (R := swept old lead ++ old_unlinked h old) in *.
  (* the store after the allocation and the insertion *)
  assert (Hend : ∃ h' s' packet' res,
    state_entry_create h s request packet old now rnd = Some (h', s', packet', res) ∧
    state_timed_out s' = state_timed_out s1 ∧
    (∀ p, (p < brk h)%N →
          (p ∈ state_to_expire s' ↔ p ∈ state_to_expire s1) ∧
          entries h' !! p = entries h1 !! p ∧
          (∀ k, state_tree s' !! k = Some p ↔ state_tree s1 !! k = Some p))).
  { rewrite Hcreate. destruct Hfr as (_ & _ & Hbrk). case_decide.
    - exists h1, s1, packet, TooMany. done.
    - destruct (insert_new_entry _ _ _ _ _ _ _ _ _) as [[[h' s'] packet'] res] eqn:Hins.
      exists h', s', packet', res. split; [done|].
      destruct (insert_new_entry_frame _ _ _ _ _ _ _ _ _ _ _ _ _ Hins)
        as (Hto & _ & _ & _ & _ & Hqueue & Hent & Htree & Hres & _).
      split; [done|]. intros p Hp. rewrite <- Hbrk in Hp.
      split; [|split].
      + rewrite Hqueue, elem_of_app. split; [|tauto]. intros [?|Hin]; [done|].
        destruct res as [q| |]; simpl in Hin; try by apply elem_of_nil in Hin.
        apply list_elem_of_singleton in Hin as ->.
        destruct (Hres q eq_refl) as [-> _]. lia.
      + apply Hent. lia.
      + intros k. apply Htree. lia. }
  destruct Hend as (h' & s' & packet' & res & Hc & Hto & Hsame).
  exists lead, rest, h', s', packet', res.
  destruct Hu as (Hq1 & Ht1 & _ & Hf1). destruct Hfr as (He1 & _ & _).
  simpl in Hq1, Ht1.
  assert (Hbelow : ∀ p, p ∈ state_to_expire s → (p < brk h)%N)
    by (intros p Hp; by eapply queue_below_brk).
  assert (Hnd : NoDup (lead ++ rest)) by (rewrite <- Hq; apply Hwf).
  assert (Hkept : ∀ p, p ∈ state_to_expire s → p ∉ R →
            p ∈ state_to_expire s' ∧ entries h' !! p = entries h !! p ∧
            (∀ k, state_tree s' !! k = Some p ↔ state_tree s !! k = Some p)).
  { intros p Hp HpR. destruct (Hsame p (Hbelow p Hp)) as (Hqs & Hes & Hts).
    split; [|split].
    - apply Hqs. rewrite Hq1. by apply list_elem_of_filter.
    - rewrite Hes, He1. by rewrite decide_False.
    - intros k. rewrite Hts, Ht1. tauto. }
  repeat (split; [done|]). split; [|split; [|split]].
  - intros p Hp Hpo.
    assert (HpR : p ∈ R).
    { apply elem_of_app. left. by apply list_elem_of_filter. }
    assert (Hpq : p ∈ state_to_expire s) by (rewrite Hq; set_solver).
    destruct (Hsame p (Hbelow p Hpq)) as (Hqs & Hes & Hts).
    split; [|split].
    + rewrite Hqs, Hq1. intros Hin. by apply list_elem_of_filter in Hin as [Hin _].
    + intros k. rewrite Hts, Ht1. tauto.
    + rewrite Hes, He1. by rewrite decide_True.
  - unfold fr_state_entries_timeout. rewrite Hto, Hf1. done.
  - intros o Ho. split; [by apply swept_not_old|].
    intros Hnil. destruct (Hkept o) as (? & ? & _); [by apply Hold| |done].
    unfold R. rewrite Hnil, app_nil_r. by apply swept_not_old.
  - intros p Hp Hpo. apply Hkept; [rewrite Hq; set_solver|].
    unfold R. intros Hin. apply elem_of_app in Hin as [Hin|Hin].
    + apply list_elem_of_filter in Hin as [_ Hin].
      apply NoDup_app in Hnd as (_ & Hdisj & _). by apply (Hdisj p).
    + unfold old_unlinked in Hin. destruct old as [o|]; [|by apply elem_of_nil in Hin].
      destruct (entries h !! o); [|by apply elem_of_nil in Hin].
      case_decide; [|by apply elem_of_nil in Hin].
      apply list_elem_of_singleton in Hin as ->. done.
Qed.

End claim_sweep.

(** Stores with several entries: one call of [state_entry_create] without
    an old entry per pair of a time and a seed for [fr_rand]. *)
Definition ex_rnd_from (seed : Z) (i : nat) : Z := seed + Z.of_nat i * 0x11111111.

Definition ex_fill_step (hs : talloc * fr_state_tree_t) (call : Z * Z)
  : talloc * fr_state_tree_t :=
  match state_entry_create (platform := example_platform)
          hs.1 hs.2 ex_reqA [] None call.1 (ex_rnd_from call.2) with
  | Some (h', s', _, _) => (h', s')
  | None => hs
  end.

Definition ex_fill (hs : talloc * fr_state_tree_t) (calls : list (Z * Z))
  : talloc * fr_state_tree_t :=
  foldl ex_fill_step hs calls.

Lemma ex_fill_wf calls : ∀ hs, state_wf hs.1 hs.2 → state_wf (ex_fill hs calls).1 (ex_fill hs calls).2.
Proof.
  induction calls as [|call calls IH]; intros hs Hwf; [done|].
  simpl. apply IH. unfold ex_fill_step.
  destruct (state_entry_create_wf (platform := example_platform)
              hs.1 hs.2 ex_reqA [] None call.1 (ex_rnd_from call.2) Hwf)
    as (h' & s' & pk & res & -> & Hwf'); [|done].
  intros o Ho. discriminate Ho.
Qed.

(** Three entries, to be cleaned up at 1030, 1040 and 1050. *)
Definition ex_three : talloc * fr_state_tree_t :=
  ex_fill (ex_heap, ex_s0) [(1000, 1); (1010, 2); (1020, 3)].

Lemma expiry_sweep_witness :
  ∃ lead rest h' s' packet' res,
    state_entry_create (platform := example_platform)
      ex_three.1 ex_three.2 ex_reqA [] None 1045 (ex_rnd_from 4)
    = Some (h', s', packet', res) ∧
    state_to_expire ex_three.2 = lead ++ rest ∧
    Forall (λ p, None = Some p ∨ expired ex_three.1 1045 p) lead ∧
    fr_state_entries_timeout s'
    = u64 (fr_state_entries_timeout ex_three.2 + Z.of_nat (length (swept None lead))).
Proof.
  destruct (expiry_sweep (platform := example_platform)
              ex_three.1 ex_three.2 ex_reqA [] None 1045 (ex_rnd_from 4))
    as (lead & rest & h' & s' & packet' & res & Hc & Hq & Hlead & _ & _ & Hto & _).
  - apply (ex_fill_wf _ (ex_heap, ex_s0)). apply state_wf_init, ex_heap_ctxs.
  - intros o Ho. discriminate Ho.
  - exists lead, rest, h', s', packet', res.
    split; [exact Hc|]. split; [exact Hq|]. split; [exact Hlead|exact Hto].
Defined.

(** The same call, evaluated: the entries at 3 and 4 are gone, the entry
    at 5 and the new one at 6 are in the queue, and two entries timed
    out. *)
Example expiry_sweep_evaluated :
  match state_entry_create (platform := example_platform)
          ex_three.1 ex_three.2 ex_reqA [] None 1045 (ex_rnd_from 4) with
  | Some (h', s', _, res) =>
      state_to_expire ex_three.2 = [3; 4; 5]%N ∧
      state_to_expire s' = [5; 6]%N ∧ res = Created 6%N ∧
      fr_state_entries_timeout s' = 2 ∧
      entries h' !! 3%N = None ∧ entries h' !! 4%N = None ∧
      entries h' !! 5%N = entries ex_three.1 !! 5%N
  | None => False
  end.
Proof. vm_compute. repeat split. Qed.

(** * The session limit *)

Section capacity.

Context {platform : Platform}.

Lemma rbtree_num_elements_nonneg (t : gmap (list Z) N) : 0 ≤ rbtree_num_elements t.
Proof. unfold rbtree_num_elements. lia. Qed.

(** The count is a uint32_t: below the limit it is the size of the tree. *)
Lemma tracked_below_limit s :
  rbtree_num_elements (state_tree s) ≤ u32 (state_max_sessions s) →
  fr_state_entries_tracked s = rbtree_num_elements (state_tree s).
Proof.
  intros Hle. unfold fr_state_entries_tracked, u32 in *.
  pose proof (rbtree_num_elements_nonneg (state_tree s)).
  pose proof (Z.mod_pos_bound (state_max_sessions s) (2 ^ 32)).
  apply Z.mod_small. lia.
Qed.

(** One call of [state_entry_create] and the limit. *)
Lemma capacity_per_call h s request packet old now rnd :
  state_wf h s → old_linked s old →
  ∃ lead rest h' s' packet' res,
    state_entry_create h s request packet old now rnd = Some (h', s', packet', res) ∧
    state_wf h' s' ∧
    sweep_split h old now (state_to_expire s) lead rest ∧
    state_max_sessions s' = state_max_sessions s ∧
    (res = TooMany ↔ too_many s old (length (swept old lead))) ∧
    (res = TooMany →
       packet' = packet ∧ state_id s' = state_id s ∧
       (∀ p, p ∈ swept old lead → entries h' !! p = None) ∧
       rbtree_num_elements (state_tree s')
       = rbtree_num_elements (state_tree s) - Z.of_nat (length (swept old lead))) ∧
    (rbtree_num_elements (state_tree s')
     ≤ rbtree_num_elements (state_tree s) - Z.of_nat (length (swept old lead))
       - Z.of_nat (length (old_unlinked h old)) + 1) ∧
    (res = Created (brk h) ∨ res = TooMany ∨ res = InsertFailed) ∧
    (res ≠ TooMany →
       rbtree_num_elements (state_tree s')
       = rbtree_num_elements (state_tree s) - Z.of_nat (length (swept old lead))
         - Z.of_nat (length (old_unlinked h old)) + Z.of_nat (length (created_entry res))).
Proof.
  intros Hwf Hold.
  destruct (state_entry_create_spec h s request packet old now rnd Hwf Hold)
    as (lead & rest & s1 & h1 & Hsplit & Hu & Hfr & Hwf1 & Hcreate).
  pose proof (unlinked_fields _ _ _ Hu) as (Hid & _ & Hmax & _).
  destruct Hu as (_ & _ & Hsz & _). destruct Hfr as (He1 & _ & Hbrk).
  simpl in Hsz, Hid, Hmax. rewrite length_app in Hsz.
  assert (Hos : (STATE_SIZE ≤ length (old_state_of h old))%nat)
    by by erewrite old_state_of_length.
  rewrite Hcreate. unfold rbtree_num_elements. case_decide as Htm.
  - exists lead, rest, h1, s1, packet, TooMany.
    assert (Hnil : old_unlinked h old = []).
    { destruct Htm as [-> _]. done. }
    rewrite Hnil, app_nil_r in *. simpl in Hsz. cbn [length].
    split_and!; try done; try lia.
    + intros _. split_and!; try done; try lia.
      intros p Hp. rewrite He1. by rewrite decide_True.
    + auto.
  - destruct (insert_new_entry _ _ _ _ _ _ _ _ _) as [[[h' s'] packet'] res] eqn:Hins.
    exists lead, rest, h', s', packet', res.
    pose proof (insert_new_entry_wf _ _ _ _ _ _ _ _ _ _ _ _ _ Hwf1 Hos Hins) as Hwf'.
    destruct (insert_new_entry_frame _ _ _ _ _ _ _ _ _ _ _ _ _ Hins)
      as (_ & Hmax' & _ & _ & _ & _ & _ & _ & Hres & Hntm & Hfail).
    assert (Hsz' : size (state_tree s')
                   = (size (state_tree s1) + length (created_entry res))%nat).
    { destruct res as [p| |]; simpl.
      - destruct (Hres p eq_refl) as (_ & _ & ->). lia.
      - done.
      - destruct (Hfail eq_refl) as [-> _]. lia. }
    assert (Hlen : (length (created_entry res) ≤ 1)%nat) by (by destruct res; simpl; lia).
    assert (Hor : res = Created (brk h) ∨ res = TooMany ∨ res = InsertFailed).
    { destruct res as [p| |]; [|done|auto].
      destruct (Hres p eq_refl) as (-> & _). left. by rewrite Hbrk. }
    split_and!; [done|done|done|congruence|done|done|lia|done|lia].
Qed.

End capacity.

(** * The three functions called from outside, on a well-formed store *)

Section transfer.

Context {platform : Platform}.

(** The heap may change under a well-formed tree as long as the entries
    keep their place and their state value. *)
Lemma state_wf_heap_change h h' s :
  state_wf h s →
  (∀ p e, entries h !! p = Some e →
          ∃ e', entries h' !! p = Some e' ∧ entry_state e' = entry_state e) →
  (∀ p, is_Some (entries h' !! p) → (p < brk h')%N) →
  (∀ c, c ∈ ctxs h' → (c < brk h')%N) →
  state_wf h' s.
Proof.
  intros [Ht Hq Hn Hb Hcx] Hkeep Hb' Hcx'. split; try done.
  intros k p Hk. destruct (Ht _ _ Hk) as (e & He & Hek & Hl).
  destruct (Hkeep _ _ He) as (e' & He' & Hek'). exists e'. split; [done|].
  split; [congruence|done].
Qed.

Lemma state_wf_update h s p e e' cs :
  state_wf h s → entries h !! p = Some e → entry_state e' = entry_state e →
  cs ⊆ ctxs h →
  state_wf (mk_talloc (<[p := e']> (entries h)) cs (brk h)) s.
Proof.
  intros Hwf He Hst Hcs. eapply state_wf_heap_change; [done| | |]; simpl.
  - intros q eq Hq. destruct (decide (p = q)) as [<-|Hne].
    + exists e'. rewrite lookup_insert_eq. split; [done|]. congruence.
    + exists eq. by rewrite lookup_insert_ne.
  - intros q [eq Hq]. destruct Hwf as [_ _ _ Hb _]. apply Hb.
    destruct (decide (p = q)) as [<-|Hne]; [eauto|].
    rewrite lookup_insert_ne in Hq by done. eauto.
  - intros c Hc. destruct Hwf as [_ _ _ _ Hcx]. apply Hcx. by apply Hcs.
Qed.

Lemma state_wf_ctxs h s cs b :
  state_wf h s → (brk h ≤ b)%N → (∀ c, c ∈ cs → (c < b)%N) →
  state_wf (mk_talloc (entries h) cs b) s.
Proof.
  intros Hwf Hle Hcs. eapply state_wf_heap_change; [done| | |]; simpl.
  - intros p e He. eauto.
  - intros p Hp. destruct Hwf as [_ _ _ Hb _]. specialize (Hb p Hp). lia.
  - done.
Qed.

(** What is to be saved: the persistable request data, and the request
    without them. *)
Definition persistable (request : REQUEST) : list request_data_t :=
  (request_data_by_persistance request true).1.

Definition detached (request : REQUEST) : REQUEST :=
  (request_data_by_persistance request true).2.

(** There is nothing to save. *)
Definition nothing_to_save (request : REQUEST) : Prop :=
  request_state request = [] ∧ persistable request = [].

(** The call of [state_entry_create] made by [fr_request_to_state]. *)
Definition save_create (h : talloc) (s : fr_state_tree_t) (request : REQUEST)
    (now : Z) (rnd : nat → Z) :=
  state_entry_create h s (detached request) (request_reply request)
                     (find_old s request) now rnd.

Lemma request_to_state_unfold h s request now rnd :
  request_to_state h s request now rnd =
  if decide (nothing_to_save request) then Some (h, s, detached request, 0, None)
  else
    '(h', s', reply, res) ← save_create h s request now rnd;
    let r := set_request_reply reply (detached request) in
    match res with
    | Created entry =>
        e ← entries h' !! entry;
        if decide (entry_ctx e = None ∧ request_state_ctx r ≠ None) then
          Some (mk_talloc (<[entry := freeze_entry r (persistable request) e]> (entries h'))
                          (ctxs h') (brk h'),
                s', set_request_session None [] r, 0, Some res)
        else None
    | _ => Some (h', s', request_data_restore r (persistable request), -1, Some res)
    end.
Proof. reflexivity. Qed.

Lemma request_to_state_nothing h s request now rnd :
  nothing_to_save request →
  request_to_state h s request now rnd = Some (h, s, detached request, 0, None).
Proof. intros Hn. rewrite request_to_state_unfold. by rewrite decide_True. Qed.

Lemma request_to_state_failed h s request now rnd h' s' reply res :
  ¬ nothing_to_save request →
  save_create h s request now rnd = Some (h', s', reply, res) →
  (∀ p, res ≠ Created p) →
  request_to_state h s request now rnd
  = Some (h', s',
          request_data_restore (set_request_reply reply (detached request))
                               (persistable request), -1, Some res).
Proof.
  intros Hn Hc Hres. rewrite request_to_state_unfold.
  rewrite decide_False by done. rewrite Hc. cbn [mbind option_bind].
  destruct res as [p| |]; [by destruct (Hres p)|done|done].
Qed.

Lemma request_to_state_created h s request now rnd h' s' reply p e :
  ¬ nothing_to_save request →
  save_create h s request now rnd = Some (h', s', reply, Created p) →
  entries h' !! p = Some e → entry_ctx e = None →
  request_state_ctx request ≠ None →
  request_to_state h s request now rnd
  = Some (mk_talloc
            (<[p := freeze_entry (set_request_reply reply (detached request))
                                 (persistable request) e]> (entries h'))
            (ctxs h') (brk h'),
          s', set_request_session None [] (set_request_reply reply (detached request)),
          0, Some (Created p)).
Proof.
  intros Hn Hc He Hctx Hrctx. rewrite request_to_state_unfold.
  rewrite decide_False by done. rewrite Hc. cbn [mbind option_bind].
  rewrite He. cbn [mbind option_bind]. by rewrite decide_True.
Qed.

(** With something to save and a state context, the function returns 0
    only when an entry was created, and then as above. *)
Lemma request_to_state_aborts h s request now rnd h' s' reply p :
  ¬ nothing_to_save request →
  save_create h s request now rnd = Some (h', s', reply, Created p) →
  request_state_ctx request = None →
  (∃ e, entries h' !! p = Some e ∧ entry_ctx e = None) →
  request_to_state h s request now rnd = None.
Proof.
  intros Hn Hc Hrctx (e & He & Hctx). rewrite request_to_state_unfold.
  rewrite decide_False by done. rewrite Hc. cbn [mbind option_bind].
  rewrite He. cbn [mbind option_bind]. rewrite decide_False; [done|].
  intros [_ Hne]. by apply Hne.
Qed.

Lemma find_old_detached s request : find_old s (detached request) = find_old s request.
Proof. done. Qed.

(** [fr_request_to_state] keeps the store well formed. *)
Lemma request_to_state_wf h s request now rnd h' s' request' ret res :
  state_wf h s →
  request_to_state h s request now rnd = Some (h', s', request', ret, res) →
  state_wf h' s'.
Proof.
  intros Hwf Hsave.
  destruct (decide (nothing_to_save request)) as [Hn|Hn].
  - rewrite request_to_state_nothing in Hsave by done. by injection Hsave as <- <- _ _ _.
  - destruct (state_entry_create_wf h s (detached request) (request_reply request)
                (find_old s request) now rnd Hwf)
      as (h1 & s1 & reply & res1 & Hc & Hwf1); [by eapply find_old_linked|].
    destruct res1 as [p| |].
    + destruct (state_entry_create_Created _ _ _ _ _ _ _ _ _ _ _ Hwf
                  (find_old_linked _ _ _ Hwf) Hc)
        as (? & ? & s2 & h2 & key & tries & _ & _ & _ & _ & _ & _ & _ & _ & _ & Hh1 & _).
      assert (He : entries h1 !! p
                   = Some (new_entry s2 (xor_u32_at key OFF_server_hash
                                           (server_hash (detached request))) now tries)).
      { rewrite Hh1. simpl. apply lookup_insert_eq. }
      destruct (decide (request_state_ctx request = None)) as [Hctx|Hctx].
      * rewrite (request_to_state_aborts _ _ _ _ _ _ _ _ _ Hn Hc Hctx) in Hsave; [done|].
        eexists. split; [exact He|done].
      * erewrite request_to_state_created in Hsave; [|done|exact Hc|exact He|done|done].
        injection Hsave as <- <- _ _ _.
        eapply state_wf_update; [done|exact He|done|done].
    + erewrite request_to_state_failed in Hsave; [|done|exact Hc|done].
      by injection Hsave as <- <- _ _ _.
    + erewrite request_to_state_failed in Hsave; [|done|exact Hc|done].
      by injection Hsave as <- <- _ _ _.
Qed.

(** [fr_state_to_request] keeps the store well formed. *)
Lemma fr_state_to_request_wf h s request h' request' :
  state_wf h s →
  fr_state_to_request h s request = Some (h', request') →
  state_wf h' s.
Proof.
  intros Hwf. unfold fr_state_to_request.
  case_decide; [|done].
  destruct (fr_pair_find_by_da _ _) as [vp|]; [|by intros [= <- _]].
  destruct (state_entry_find _ _ _) as [p|]; [|by intros [= <- _]].
  destruct (entries h !! p) as [e|] eqn:He; [|done]. simpl.
  destruct (entry_thawed e); [by intros [= <- _]|].
  destruct (entry_ctx e) as [c|]; [|done].
  intros [= <- _].
  destruct (request_state_ctx request); simpl;
    (eapply state_wf_update; [done|done|done|set_solver]).
Qed.

End transfer.

(** * fr_state_discard and fr_state_to_request on a well-formed store *)

Section discard_restore.

Context {platform : Platform}.

Lemma talloc_free_ctx_wf h s c : state_wf h s → state_wf (talloc_free_ctx h c) s.
Proof.
  intros Hwf. destruct c as [c|]; [|done]. simpl.
  apply state_wf_ctxs; [done|lia|].
  intros c' Hc'. destruct Hwf as [_ _ _ _ Hcx]. apply Hcx. set_solver.
Qed.

Lemma talloc_init_wf h s : state_wf h s → state_wf (talloc_init h).1 s.
Proof.
  intros Hwf. simpl. apply state_wf_ctxs; [done|lia|].
  intros c Hc. destruct Hwf as [_ _ _ _ Hcx].
  apply elem_of_union in Hc as [Hc|Hc].
  - apply elem_of_singleton in Hc as ->. lia.
  - specialize (Hcx c Hc). lia.
Qed.

Lemma found_linked h s request octets p :
  state_wf h s → state_entry_find s request octets = Some p → p ∈ state_to_expire s.
Proof.
  intros [_ Hq _ _ _] Hfind. apply Hq.
  unfold state_entry_find, rbtree_finddata in Hfind. eauto.
Qed.

(** The entry the token resolves to is unlinked and freed, and the
    request gets a new, empty state context. *)
Lemma fr_state_discard_found h s request vp p :
  state_wf h s →
  fr_pair_find_by_da (request_packet request) (state_da s) = Some vp →
  state_entry_find s request (vp_octets vp) = Some p →
  ∃ s' h1,
    unlinked [p] s s' ∧ freed [p] h h1 ∧ state_wf h1 s' ∧
    fr_state_discard h s request
    = Some ((talloc_init (talloc_free_ctx h1 (request_state_ctx request))).1, s',
            set_request_session (Some (brk h)) [] request).
Proof.
  intros Hwf Hvp Hfind.
  pose proof (found_linked _ _ _ _ _ Hwf Hfind) as Hp.
  destruct (state_entry_unlink_spec h s p Hwf Hp) as (s' & Hunlink & Hu).
  destruct (free_entries_spec [p] h) as (h1 & Hfree & Hfr).
  { apply NoDup_singleton. }
  { intros q Hq. apply list_elem_of_singleton in Hq as ->.
    destruct Hwf as [Ht Hq _ _ _]. apply Hq in Hp as [k Hk].
    destruct (Ht _ _ Hk) as (e & He & _). eauto. }
  assert (Hfree1 : talloc_free_entry h p = Some h1).
  { simpl in Hfree. by destruct (talloc_free_entry h p). }
  exists s', h1. split; [done|]. split; [done|]. split.
  - eapply freed_wf; [by eapply unlinked_wf|done|].
    intros q Hq. destruct Hu as (-> & _). intros Hin.
    by apply list_elem_of_filter in Hin as [Hn _].
  - unfold fr_state_discard. rewrite Hvp, Hfind, Hunlink. cbn [mbind option_bind].
    rewrite Hfree1. cbn [mbind option_bind].
    destruct Hfr as (_ & _ & Hbrk).
    assert (Hb : brk (talloc_free_ctx h1 (request_state_ctx request)) = brk h).
    { by destruct (request_state_ctx request). }
    unfold talloc_init. rewrite Hb. done.
Qed.

(** Without a State attribute, or without an entry for it, nothing
    happens. *)
Lemma fr_state_discard_not_found h s request :
  (∀ vp, fr_pair_find_by_da (request_packet request) (state_da s) = Some vp →
         state_entry_find s request (vp_octets vp) = None) →
  fr_state_discard h s request = Some (h, s, request).
Proof.
  intros Hnone. unfold fr_state_discard.
  destruct (fr_pair_find_by_da _ _) as [vp|]; [|done].
  by rewrite (Hnone vp eq_refl).
Qed.

Lemma fr_state_discard_wf h s request :
  state_wf h s →
  ∃ h' s' request', fr_state_discard h s request = Some (h', s', request') ∧
                    state_wf h' s'.
Proof.
  intros Hwf.
  destruct (fr_pair_find_by_da (request_packet request) (state_da s)) as [vp|] eqn:Hvp.
  - destruct (state_entry_find s request (vp_octets vp)) as [p|] eqn:Hfind.
    + destruct (fr_state_discard_found _ _ _ _ _ Hwf Hvp Hfind)
        as (s' & h1 & _ & _ & Hwf1 & ->).
      eexists _, _, _. split; [done|].
      by apply talloc_init_wf, talloc_free_ctx_wf.
    + exists h, s, request. split; [|done]. apply fr_state_discard_not_found.
      intros vp' Hvp'. congruence.
  - exists h, s, request. split; [|done]. apply fr_state_discard_not_found.
    intros vp' Hvp'. congruence.
Qed.

(** The request after a restore from the entry [e]. *)
Definition restored (request : REQUEST) (e : fr_state_entry_t) (c : ptr) : REQUEST :=
  request_data_restore
    (set_request_session (Some c) (entry_vps e)
       (set_request_seq_start (entry_seq_start e) request))
    (entry_data e).

Lemma fr_state_to_request_restored h s request vp p e c :
  request_state request = [] →
  fr_pair_find_by_da (request_packet request) (state_da s) = Some vp →
  state_entry_find s request (vp_octets vp) = Some p →
  entries h !! p = Some e → entry_thawed e = None → entry_ctx e = Some c →
  fr_state_to_request h s request
  = Some (talloc_free_ctx
            (mk_talloc (<[p := thaw_entry request e]> (entries h)) (ctxs h) (brk h))
            (request_state_ctx request),
          restored request e c).
Proof.
  intros Hst Hvp Hfind He Hth Hctx. unfold fr_state_to_request.
  rewrite decide_True by done. rewrite Hvp, Hfind, He. cbn [mbind option_bind].
  rewrite Hth, Hctx. done.
Qed.

Lemma fr_state_to_request_thawed h s request vp p e r :
  request_state request = [] →
  fr_pair_find_by_da (request_packet request) (state_da s) = Some vp →
  state_entry_find s request (vp_octets vp) = Some p →
  entries h !! p = Some e → entry_thawed e = Some r →
  fr_state_to_request h s request = Some (h, request).
Proof.
  intros Hst Hvp Hfind He Hth. unfold fr_state_to_request.
  rewrite decide_True by done. rewrite Hvp, Hfind, He. cbn [mbind option_bind].
  by rewrite Hth.
Qed.

End discard_restore.

(** * Discard *)

Section claim_discard.

Context {platform : Platform}.

(** C8, as amended.  On a well-formed store [fr_state_discard] returns.
    Afterwards a find for the token of the request returns nothing.  When
    the request carries a token and an entry matches it, that entry is out
    of the queue and of the tree and is freed, with the state context it
    owned; the state context the request held is freed, and the request
    has an empty session-state list and a new state context.  When the
    request carries no token, or no entry matches it, the function
    returns early: the heap, the tree and the request, with whatever
    session state it holds, are left as they were. *)
Theorem discard_finality h s request :
  state_wf h s →
  ∃ h' s' request',
    fr_state_discard h s request = Some (h', s', request') ∧
    (∀ vp, fr_pair_find_by_da (request_packet request) (state_da s) = Some vp →
           state_entry_find s' request (vp_octets vp) = None) ∧
    (∀ vp p e,
       fr_pair_find_by_da (request_packet request) (state_da s) = Some vp →
       state_entry_find s request (vp_octets vp) = Some p →
       entries h !! p = Some e →
       (p ∉ state_to_expire s') ∧ (∀ k, state_tree s' !! k ≠ Some p) ∧
       entries h' !! p = None ∧
       (∀ c, entry_ctx e = Some c → c ∈ ctxs h → c ∉ ctxs h') ∧
       (∀ c, request_state_ctx request = Some c → c ∈ ctxs h → c ∉ ctxs h') ∧
       request' = set_request_session (Some (brk h)) [] request ∧
       brk h ∈ ctxs h' ∧ brk h ∉ ctxs h) ∧
    ((∀ vp, fr_pair_find_by_da (request_packet request) (state_da s) = Some vp →
            state_entry_find s request (vp_octets vp) = None) →
     h' = h ∧ s' = s ∧ request' = request).
Proof.
  intros Hwf.
  destruct (fr_pair_find_by_da (request_packet request) (state_da s)) as [vp|] eqn:Hvp;
    [destruct (state_entry_find s request (vp_octets vp)) as [p|] eqn:Hfind|].
  - destruct (fr_state_discard_found _ _ _ _ _ Hwf Hvp Hfind)
      as (s' & h1 & Hu & Hfr & Hwf1 & Hd).
    eexists _, _, _. split; [exact Hd|].
    destruct Hu as (Hq & Ht & _ & _). destruct Hfr as (He1 & Hc1 & Hbrk).
    assert (Hgone : ∀ k, state_tree s' !! k ≠ Some p).
    { intros k Hk. apply Ht in Hk as [_ Hk]. apply Hk. by apply list_elem_of_singleton. }
    assert (Hfresh : brk h ∉ ctxs h).
    { intros Hin. destruct Hwf as [_ _ _ _ Hcx]. specialize (Hcx _ Hin). lia. }
    assert (Hctxs : ∀ c, c ∈ ctxs (talloc_init (talloc_free_ctx h1 (request_state_ctx request))).1
                       ↔ c = brk h ∨ (c ∈ ctxs h1 ∧ request_state_ctx request ≠ Some c)).
    { intros c. destruct (request_state_ctx request) as [rc|]; simpl; rewrite Hbrk.
      - assert (Hne : Some rc ≠ Some c ↔ c ≠ rc) by (split; congruence).
        rewrite Hne. set_solver.
      - assert (Hne : None ≠ Some c ↔ True) by done.
        rewrite Hne. set_solver. }
    split; [|split].
    + intros vp' [= <-]. rewrite state_entry_find_lookup in Hfind |- *.
      destruct (state_tree s' !! _) as [q|] eqn:Hq'; [|done].
      apply Ht in Hq' as [Hq1 Hq2]. rewrite Hfind in Hq1. injection Hq1 as <-.
      destruct Hq2. by apply list_elem_of_singleton.
    + intros vp' p' e [= <-] Hp' He. rewrite Hfind in Hp'. injection Hp' as <-.
      split_and!.
      * rewrite Hq. intros Hin. apply list_elem_of_filter in Hin as [Hin _].
        apply Hin. apply list_elem_of_singleton. reflexivity.
      * done.
      * destruct (request_state_ctx request); simpl; rewrite He1;
          (rewrite decide_True; [done|apply list_elem_of_singleton; reflexivity]).
      * intros c Hc Hlive Hin. apply Hctxs in Hin as [->|[Hin _]]; [done|].
        apply Hc1 in Hin as [_ Hin]. apply Hin. exists p, e.
        split; [by apply list_elem_of_singleton|done].
      * intros c Hc Hlive Hin. apply Hctxs in Hin as [->|[_ Hin]]; done.
      * done.
      * apply Hctxs. by left.
      * done.
    + intros Hnone. rewrite (Hnone vp eq_refl) in Hfind. done.
  - exists h, s, request. split; [|split; [|split]].
    + apply fr_state_discard_not_found. intros vp' Hvp'.
      rewrite Hvp in Hvp'. by injection Hvp' as <-.
    + intros vp' [= <-]. done.
    + intros vp' p e [= <-] Hp. congruence.
    + done.
  - exists h, s, request. split; [|split; [|split]].
    + apply fr_state_discard_not_found. intros vp' Hvp'. congruence.
    + done.
    + done.
    + done.
Qed.

End claim_discard.

Lemma fr_request_to_state_wf {platform : Platform} h s request now rnd :
  state_wf h s →
  match fr_request_to_state h s request now rnd with
  | Some (h', s', _, _) => state_wf h' s'
  | None => True
  end.
Proof.
  intros Hwf. unfold fr_request_to_state.
  destruct (request_to_state h s request now rnd) as [[[[[h' s'] r'] ret] res]|] eqn:Hsave;
    [|done].
  simpl. by eapply request_to_state_wf.
Qed.

(** The store after [ex_reqA] has been saved at time 1000, and the
    request of the next round, which carries the token. *)
Definition ex_saved :=
  fr_request_to_state (platform := example_platform) ex_heap ex_s0 ex_reqA 1000 ex_rnd.

Definition ex_saved_heap : talloc :=
  match ex_saved with Some (h, _, _, _) => h | None => ex_heap end.

Definition ex_saved_tree : fr_state_tree_t :=
  match ex_saved with Some (_, s, _, _) => s | None => ex_s0 end.

Definition ex_round2 : REQUEST :=
  ex_request 502%N "serverA" [mk_vp ex_da ex_token] (Some 2%N) [] [].

Lemma ex_saved_wf : state_wf ex_saved_heap ex_saved_tree.
Proof.
  pose proof (fr_request_to_state_wf (platform := example_platform)
                ex_heap ex_s0 ex_reqA 1000 ex_rnd
                (state_wf_init _ _ _ _ _ _ ex_heap_ctxs)) as Hwf.
  unfold ex_saved_heap, ex_saved_tree, ex_saved.
  destruct (fr_request_to_state _ _ _ _ _) as [[[[h' s'] r'] ret]|]; [done|].
  apply state_wf_init, ex_heap_ctxs.
Qed.

Example ex_saved_evaluated :
  ex_saved_tree.(state_to_expire) = [3%N] ∧
  entries ex_saved_heap !! 3%N
  = Some (mk_entry 0 [1; 1; 2; 0; 128; 132; 22; 14; 6; 37; 2; 35; 2; 54; 53; 52]
                   0 1030 0 (Some 1%N) [mk_vp 1 [1]] [mk_rd 1 2 3 true] None).
Proof. vm_compute. split; reflexivity. Qed.

Lemma discard_finality_witness :
  ∃ h' s' request',
    fr_state_discard (platform := example_platform) ex_saved_heap ex_saved_tree ex_round2
    = Some (h', s', request') ∧
    state_entry_find (platform := example_platform) s' ex_round2 ex_token = None.
Proof.
  destruct (discard_finality (platform := example_platform)
              ex_saved_heap ex_saved_tree ex_round2 ex_saved_wf)
    as (h' & s' & request' & Hd & Hfind & _).
  exists h', s', request'. split; [exact Hd|].
  apply (Hfind (mk_vp ex_da ex_token)). vm_compute. reflexivity.
Defined.

(** The same discard, evaluated: the entry at 3 and its context 1 are
    gone, the context 2 of the request is gone, and the request has the
    new context 4 and no session state. *)
Example discard_evaluated :
  match fr_state_discard (platform := example_platform)
          ex_saved_heap ex_saved_tree ex_round2 with
  | Some (h', s', request') =>
      entries h' !! 3%N = None ∧ state_to_expire s' = [] ∧
      elements (ctxs h') = [4%N] ∧
      request_state request' = [] ∧ request_state_ctx request' = Some 4%N
  | None => False
  end.
Proof. vm_compute. repeat split. Qed.

(** C8 as the claim words it: whenever the request carries a token, the
    request ends with an empty session-state list. *)
Definition discard_as_claimed {platform : Platform} : Prop :=
  ∀ h s request vp h' s' request',
    state_wf h s →
    fr_pair_find_by_da (request_packet request) (state_da s) = Some vp →
    fr_state_discard h s request = Some (h', s', request') →
    state_entry_find s' request (vp_octets vp) = None ∧
    request_state request' = [].

(** A request that carries a token no entry matches, and to which a
    session-state pair has been added. *)
Definition ex_unmatched : REQUEST :=
  ex_request 503%N "serverA" [mk_vp ex_da ex_token] (Some 2%N) [mk_vp 1 [1]] [].

Lemma discard_counterexample : ¬ discard_as_claimed (platform := example_platform).
Proof.
  intros Hclaim.
  destruct (Hclaim ex_heap ex_s0 ex_unmatched (mk_vp ex_da ex_token)
              ex_heap ex_s0 ex_unmatched) as [_ Hstate].
  - apply state_wf_init, ex_heap_ctxs.
  - reflexivity.
  - reflexivity.
  - discriminate Hstate.
Qed.

(** * Restoring twice *)

Section claim_double_restore.

Context {platform : Platform}.

Lemma state_entry_find_same_server s r1 r2 octets :
  request_server_cs r2 = request_server_cs r1 →
  state_entry_find s r2 octets = state_entry_find s r1 octets.
Proof.
  intros Hcs. unfold state_entry_find, server_hash. by rewrite Hcs.
Qed.

(** C6.  Let the token of the request [r1] resolve to an entry that is
    not thawed and owns a state context.  Then [fr_state_to_request] for
    [r1] restores: the request gets the seq_start, the state context and
    the pairs of the entry and, after its own request data, the request
    data of the entry, and the entry records the request in [thawed].  A
    second [fr_state_to_request], for a request [r2] with the same token
    in the same virtual server, then returns with the heap (so the entry,
    and the state context now held by [r1]) and the request [r2] exactly
    as they were. *)
Theorem double_restore_rejected h s r1 r2 vp1 vp2 p e c :
  request_state r1 = [] → request_state r2 = [] →
  fr_pair_find_by_da (request_packet r1) (state_da s) = Some vp1 →
  fr_pair_find_by_da (request_packet r2) (state_da s) = Some vp2 →
  vp_octets vp2 = vp_octets vp1 →
  request_server_cs r2 = request_server_cs r1 →
  state_entry_find s r1 (vp_octets vp1) = Some p →
  entries h !! p = Some e → entry_thawed e = None → entry_ctx e = Some c →
  ∃ h1 r1',
    fr_state_to_request h s r1 = Some (h1, r1') ∧
    request_seq_start r1' = entry_seq_start e ∧
    request_state_ctx r1' = Some c ∧
    request_state r1' = entry_vps e ∧
    request_data r1' = request_data r1 ++ entry_data e ∧
    entries h1 !! p = Some (thaw_entry r1 e) ∧
    entry_thawed (thaw_entry r1 e) = Some (request_addr r1) ∧
    (c ∈ ctxs h → request_state_ctx r1 ≠ Some c → c ∈ ctxs h1) ∧
    fr_state_to_request h1 s r2 = Some (h1, r2).
Proof.
  intros Hs1 Hs2 Hvp1 Hvp2 Hoct Hcs Hfind He Hth Hctx.
  rewrite (fr_state_to_request_restored _ _ _ _ _ _ _ Hs1 Hvp1 Hfind He Hth Hctx).
  eexists _, _. split; [done|].
  assert (Hent : entries (talloc_free_ctx
                   (mk_talloc (<[p := thaw_entry r1 e]> (entries h)) (ctxs h) (brk h))
                   (request_state_ctx r1)) !! p = Some (thaw_entry r1 e)).
  { destruct (request_state_ctx r1); simpl; apply lookup_insert_eq. }
  split_and!; try done.
  - intros Hin Hne. destruct (request_state_ctx r1) as [rc|]; simpl; [|done].
    apply elem_of_difference. split; [done|].
    intros Heq. apply elem_of_singleton in Heq. congruence.
  - eapply fr_state_to_request_thawed; [done|exact Hvp2| |exact Hent|done].
    rewrite Hoct. by rewrite (state_entry_find_same_server _ r1).
Qed.

End claim_double_restore.

(** A second request of the next round with the same token. *)
Definition ex_round2_again : REQUEST :=
  ex_request 504%N "serverA" [mk_vp ex_da ex_token] None [] [].

Lemma double_restore_rejected_witness :
  ∃ h1 r1',
    fr_state_to_request (platform := example_platform) ex_saved_heap ex_saved_tree ex_round2
    = Some (h1, r1') ∧
    request_state r1' = [mk_vp 1 [1]] ∧
    fr_state_to_request (platform := example_platform) h1 ex_saved_tree ex_round2_again
    = Some (h1, ex_round2_again).
Proof.
  destruct (double_restore_rejected (platform := example_platform)
              ex_saved_heap ex_saved_tree ex_round2 ex_round2_again
              (mk_vp ex_da ex_token) (mk_vp ex_da ex_token) 3%N
              (mk_entry 0 [1; 1; 2; 0; 128; 132; 22; 14; 6; 37; 2; 35; 2; 54; 53; 52]
                        0 1030 0 (Some 1%N) [mk_vp 1 [1]] [mk_rd 1 2 3 true] None)
              1%N)
    as (h1 & r1' & Hr1 & _ & _ & Hst & _ & _ & _ & _ & Hr2);
    try reflexivity.
  exists h1, r1'. split; [exact Hr1|]. split; [exact Hst|exact Hr2].
Defined.

(** * Saving *)

Section save.

Context {platform : Platform}.

Lemma fr_request_to_state_inv h s request now rnd h' s' request' ret :
  fr_request_to_state h s request now rnd = Some (h', s', request', ret) →
  ∃ res, request_to_state h s request now rnd = Some (h', s', request', ret, res).
Proof.
  unfold fr_request_to_state.
  destruct (request_to_state h s request now rnd) as [[[[[h1 s1] r1] ret1] res]|]; [|done].
  simpl. intros [= <- <- <- <-]. by exists res.
Qed.

(** A save that had something to save and returned 0 has created an
    entry and put the payload of the request into it. *)
Lemma request_to_state_saved_inv h s request now rnd h' s' request' res :
  ¬ nothing_to_save request →
  request_to_state h s request now rnd = Some (h', s', request', 0, res) →
  ∃ h1 reply p e c,
    save_create h s request now rnd = Some (h1, s', reply, Created p) ∧
    entries h1 !! p = Some e ∧ entry_ctx e = None ∧
    request_state_ctx request = Some c ∧
    h' = mk_talloc
           (<[p := freeze_entry (set_request_reply reply (detached request))
                                (persistable request) e]> (entries h1))
           (ctxs h1) (brk h1) ∧
    request' = set_request_session None [] (set_request_reply reply (detached request)) ∧
    res = Some (Created p).
Proof.
  intros Hn. rewrite request_to_state_unfold. rewrite decide_False by done.
  destruct (save_create h s request now rnd) as [[[[h1 s1] reply] res1]|]; [|done].
  cbn [mbind option_bind].
  destruct res1 as [p| |]; [|done|done].
  destruct (entries h1 !! p) as [e|] eqn:He; [|done]. cbn [mbind option_bind].
  case_decide as Hd; [|done]. destruct Hd as [Hctx Hrctx].
  intros [= <- <- <- <-].
  destruct (request_state_ctx request) as [c|] eqn:Hc; [|by destruct Hrctx].
  exists h1, reply, p, e, c. done.
Qed.

Lemma filter_idemp {A} (P : A → Prop) `{∀ x, Decision (P x)} (l : list A) :
  filter P (filter P l) = filter P l.
Proof.
  induction l as [|x l IH]; [done|].
  rewrite (filter_cons P x l). destruct (decide (P x)); [|done].
  rewrite filter_cons_True by done. by f_equal.
Qed.

Lemma filter_disjoint_nil {A} (P Q : A → Prop)
    `{∀ x, Decision (P x)} `{∀ x, Decision (Q x)} (l : list A) :
  (∀ x, P x → ¬ Q x) → filter Q (filter P l) = [].
Proof.
  intros Hd. induction l as [|x l IH]; [done|].
  rewrite (filter_cons P x l). destruct (decide (P x)); [|done].
  rewrite filter_cons_False; [done|]. by apply Hd.
Qed.

Lemma filter_persist_detached (l : list request_data_t) :
  filter (λ rd, rd_persist rd = true)
         (filter (λ rd, rd_persist rd ≠ true) l ++ filter (λ rd, rd_persist rd = true) l)
  = filter (λ rd, rd_persist rd = true) l.
Proof.
  rewrite filter_app, filter_idemp.
  rewrite (filter_disjoint_nil (λ rd, rd_persist rd ≠ true)); [done|].
  intros rd. tauto.
Qed.

End save.

(** * A save that fails *)

Section claim_save_failure.

Context {platform : Platform}.

(** C9.  When there is something to save and the call of
    [state_entry_create] made by [fr_request_to_state] returns no entry
    (at the session limit, or because the insertion into the tree
    failed), [fr_request_to_state] returns -1 with the heap and the tree
    as [state_entry_create] left them.  The request data that were
    detached are back in the request, after the ones that were never
    detached: the persistable request data of the request are what they
    were, and so are the others.  The session-state list, the state
    context and seq_start of the request are what they were. *)
Theorem save_failure_preserves h s request now rnd h' s' reply res :
  ¬ nothing_to_save request →
  save_create h s request now rnd = Some (h', s', reply, res) →
  res = TooMany ∨ res = InsertFailed →
  ∃ request',
    fr_request_to_state h s request now rnd = Some (h', s', request', -1) ∧
    request_data request'
    = filter (λ rd, rd_persist rd ≠ true) (request_data request)
      ++ filter (λ rd, rd_persist rd = true) (request_data request) ∧
    persistable request' = persistable request ∧
    filter (λ rd, rd_persist rd ≠ true) (request_data request')
    = filter (λ rd, rd_persist rd ≠ true) (request_data request) ∧
    request_state request' = request_state request ∧
    request_state_ctx request' = request_state_ctx request ∧
    request_seq_start request' = request_seq_start request.
Proof.
  intros Hn Hc Hres.
  exists (request_data_restore (set_request_reply reply (detached request))
                               (persistable request)).
  split.
  - unfold fr_request_to_state.
    rewrite (request_to_state_failed _ _ _ _ _ _ _ _ _ Hn Hc); [done|].
    intros p ->. by destruct Hres.
  - unfold persistable, detached, request_data_by_persistance. simpl.
    split_and!; try done.
    + apply filter_persist_detached.
    + rewrite filter_app, filter_idemp.
      rewrite (filter_disjoint_nil (λ rd, rd_persist rd = true)); [apply app_nil_r|].
      intros rd. tauto.
Qed.

End claim_save_failure.

(** A tree that tracks no session at all: every save fails. *)
Definition ex_full : fr_state_tree_t := fr_state_tree_init ex_da 0 30 0.

Lemma save_failure_preserves_witness :
  ∃ request',
    fr_request_to_state (platform := example_platform) ex_heap ex_full ex_reqA 1000 ex_rnd
    = Some (ex_heap, ex_full, request', -1) ∧
    persistable request' = [mk_rd 1 2 3 true] ∧
    request_state request' = [mk_vp 1 [1]] ∧
    request_state_ctx request' = Some 1%N.
Proof.
  destruct (save_failure_preserves (platform := example_platform)
              ex_heap ex_full ex_reqA 1000 ex_rnd ex_heap ex_full [] TooMany)
    as (request' & Hsave & _ & Hp & _ & Hst & Hctx & _).
  - intros [Hs _]. discriminate Hs.
  - vm_compute. reflexivity.
  - by left.
  - exists request'. split; [exact Hsave|]. split; [exact Hp|]. split; [exact Hst|exact Hctx].
Defined.

(** * Round trip *)

Section claim_round_trip.

Context {platform : Platform}.

(** C1.  Let [fr_request_to_state] return 0 for a request that has
    something to save (session-state pairs or persistable request data)
    and whose reply carries no State attribute, on a well-formed store.
    Then the reply has got a State attribute with a minted value at its
    end, and for every request [r2] of the same virtual server that
    carries that value and holds no session-state pairs yet,
    [fr_state_to_request] returns and leaves [r2] with the session-state
    pairs, the state context and the seq_start of the saved request, and
    with its persistable request data after the request data [r2] had
    (so with exactly them when it had none). *)
Theorem round_trip h s request now rnd h' s' request' :
  state_wf h s →
  ¬ nothing_to_save request →
  fr_pair_find_by_da (request_reply request) (state_da s) = None →
  fr_request_to_state h s request now rnd = Some (h', s', request', 0) →
  ∃ token,
    request_reply request' = request_reply request ++ [mk_vp (state_da s) token] ∧
    length token = STATE_SIZE ∧
    state_da s' = state_da s ∧
    ∀ r2 vp,
      request_state r2 = [] →
      fr_pair_find_by_da (request_packet r2) (state_da s') = Some vp →
      vp_octets vp = token →
      request_server_cs r2 = request_server_cs request →
      ∃ h'' r2',
        fr_state_to_request h' s' r2 = Some (h'', r2') ∧
        request_state r2' = request_state request ∧
        request_state_ctx r2' = request_state_ctx request ∧
        request_seq_start r2' = request_seq_start request ∧
        request_data r2' = request_data r2 ++ persistable request ∧
        (request_data r2 = [] → request_data r2' = persistable request).
Proof.
  intros Hwf Hn Hreply Hsave.
  apply fr_request_to_state_inv in Hsave as [res Hsave].
  destruct (request_to_state_saved_inv _ _ _ _ _ _ _ _ _ Hn Hsave)
    as (h1 & reply & p & e & c & Hc & He & Hectx & Hrctx & -> & -> & _).
  unfold save_create in Hc.
  destruct (state_entry_create_Created _ _ _ _ _ _ _ _ _ _ _ Hwf
              (find_old_linked _ _ _ Hwf) Hc)
    as (lead & rest & s1 & h0 & key & tries & _ & Hu & _ & _ & _ & Hnew & Hlen & _ & _
        & Hh1 & Hs').
  pose proof (unlinked_fields _ _ _ Hu) as (_ & _ & _ & _ & _ & Hda).
  assert (Hos : (STATE_SIZE ≤ length (old_state_of h (find_old s request)))%nat).
  { rewrite (old_state_of_length h s); [done|done|by eapply find_old_linked]. }
  pose proof (new_state_value_minted _ _ _ _ _ _ _ _ _ Hos Hreply Hnew) as Hpk.
  assert (Hda' : state_da s' = state_da s) by (rewrite Hs'; exact Hda).
  exists key. split; [exact Hpk|]. split; [exact Hlen|]. split; [exact Hda'|].
  intros r2 vp Hst2 Hvp Hoct Hcs.
  set (k := xor_u32_at key OFF_server_hash (server_hash (detached request))) in *.
  assert (Hek : e = new_entry s1 k now tries).
  { rewrite Hh1 in He. simpl in He. rewrite lookup_insert_eq in He. by injection He as <-. }
  assert (Hfind : state_entry_find s' r2 (vp_octets vp) = Some p).
  { rewrite state_entry_find_lookup, Hoct. unfold derive_key.
    rewrite decide_True by done.
    replace (server_hash r2) with (server_hash (detached request))
      by (unfold server_hash; by rewrite Hcs).
    rewrite Hs'. simpl. apply lookup_insert_eq. }
  eexists _, _. split.
  - eapply fr_state_to_request_restored; [done|exact Hvp|exact Hfind| | |].
    + simpl. apply lookup_insert_eq.
    + rewrite Hek. done.
    + simpl. exact Hrctx.
  - rewrite Hek. unfold restored. simpl. rewrite Hrctx. split_and!; try done.
    intros ->. done.
Qed.

End claim_round_trip.

(** The request of the next round, as it arrives: no request data. *)
Lemma round_trip_witness :
  ∃ h'' r2',
    fr_state_to_request (platform := example_platform) ex_saved_heap ex_saved_tree ex_round2
    = Some (h'', r2') ∧
    request_state r2' = request_state ex_reqA ∧
    request_state_ctx r2' = request_state_ctx ex_reqA ∧
    request_seq_start r2' = request_seq_start ex_reqA ∧
    request_data r2' = persistable ex_reqA.
Proof.
  destruct (round_trip (platform := example_platform)
              ex_heap ex_s0 ex_reqA 1000 ex_rnd ex_saved_heap ex_saved_tree
              (set_request_session None []
                 (set_request_reply [mk_vp ex_da ex_token] (detached ex_reqA))))
    as (token & Hreply & _ & _ & Hback).
  - apply state_wf_init, ex_heap_ctxs.
  - intros [Hs _]. discriminate Hs.
  - reflexivity.
  - vm_compute. reflexivity.
  - injection Hreply as <-.
    destruct (Hback ex_round2 (mk_vp ex_da ex_token))
      as (h'' & r2' & Hr & Hst & Hctx & Hseq & _ & Hdata); try reflexivity.
    exists h'', r2'. split; [exact Hr|]. split; [exact Hst|]. split; [exact Hctx|].
    split; [exact Hseq|]. apply Hdata. reflexivity.
Defined.

(** * Rotation *)

Section claim_rotation.

Context {platform : Platform}.

Lemma length_16_inv (l : list Z) :
  length l = STATE_SIZE →
  ∃ b0 b1 b2 b3 b4 b5 b6 b7 b8 b9 b10 b11 b12 b13 b14 b15,
    l = [b0; b1; b2; b3; b4; b5; b6; b7; b8; b9; b10; b11; b12; b13; b14; b15].
Proof.
  intros Hl.
  do 16 (destruct l as [|? l]; [discriminate Hl|]).
  destruct l; [|discriminate Hl]. by repeat eexists.
Qed.

Lemma u8_succ x : u8 (u8 x + 1) = u8 (x + 1).
Proof. unfold u8. apply Zplus_mod_idemp_l. Qed.

(** The octets of the state value [fr_rand] filled in once. *)
Definition random_offsets : list nat :=
  [OFF_r_0; OFF_r_5; OFF_r_6; OFF_r_7; OFF_r_8; OFF_r_9].

(** The octets a rotation copies from the old state value: the random
    ones and the four of [server_hash]. *)
Definition copied_offsets : list nat :=
  [OFF_r_0; 4; 5; 6; 7; OFF_r_5; OFF_r_6; OFF_r_7; OFF_r_8; OFF_r_9]%nat.

Lemma s32_eq x : s32 x = x - 2 ^ 32 * ((x + 2 ^ 31) / 2 ^ 32).
Proof. unfold s32. rewrite Z.mod_eq by lia. lia. Qed.

Lemma s32_small x : INT_MIN ≤ x ≤ INT_MAX → s32 x = x.
Proof.
  unfold INT_MIN, INT_MAX, s32. intros Hx. rewrite Z.mod_small by lia. lia.
Qed.

Lemma s32_range x : INT_MIN ≤ s32 x ≤ INT_MAX.
Proof.
  unfold INT_MIN, INT_MAX, s32.
  pose proof (Z.mod_pos_bound (x + 2 ^ 31) (2 ^ 32)). lia.
Qed.

Lemma s32_overflow : s32 (INT_MAX + 1) = INT_MIN.
Proof. reflexivity. Qed.

(** Cutting an [int] down to an octet does not see a wrap-around. *)
Lemma u8_s32_add x y : u8 (s32 x + y) = u8 (x + y).
Proof.
  rewrite s32_eq. unfold u8.
  replace (x - 2 ^ 32 * ((x + 2 ^ 31) / 2 ^ 32) + y)
    with (x + y + (- (2 ^ 24 * ((x + 2 ^ 31) / 2 ^ 32))) * 256) by lia.
  apply Z_mod_plus_full.
Qed.

(** C7, as amended.  Let [state_entry_create] rotate the old entry [eo]
    (the packet carries no State attribute) and return a new entry [e].
    The value [token] added to the packet is the state value of [eo] with
    the octets tries, tx, vx_0, vx_1, vx_2 and server_id set anew, and
    [e] is filed under [token] with the server hash xor'd in.  The [tries]
    member of [e] is that of [eo] plus one as an [int]: one more than that
    of [eo] unless that is [INT_MAX], where the addition overflows (and
    wraps around to [INT_MIN]).  The tries octet of the key is that member
    plus one, as a uint8_t; so, when the tries octet of the key of [eo]
    was made the same way, it is one more than that octet modulo 256.  The
    tx octet is the exclusive or of the tries octet of the key and the
    [tries] member of [e].  The three vx octets are r_0 xor'd with the
    octets of the version, server_id is the one configured, and the random
    octets r_0, r_5 .. r_9 are those of [eo], in [token] and in the key of
    [e]. *)
Theorem rotation_chains_tries h s request packet o now rnd h' s' packet' p eo :
  state_wf h s → o ∈ state_to_expire s → entries h !! o = Some eo →
  fr_pair_find_by_da packet (state_da s) = None →
  state_entry_create h s request packet (Some o) now rnd
  = Some (h', s', packet', Created p) →
  ∃ token e,
    packet' = packet ++ [mk_vp (state_da s) token] ∧
    entries h' !! p = Some e ∧
    entry_state e = xor_u32_at token OFF_server_hash (server_hash request) ∧
    entry_tries e = s32 (entry_tries eo + 1) ∧
    (INT_MIN ≤ entry_tries eo < INT_MAX → entry_tries e = entry_tries eo + 1) ∧
    (entry_tries eo = INT_MAX → entry_tries e = INT_MIN) ∧
    token !! OFF_tries = Some (u8 (entry_tries e + 1)) ∧
    (entry_state eo !! OFF_tries = Some (u8 (entry_tries eo + 1)) →
     token !! OFF_tries = Some (u8 (entry_state eo !!! OFF_tries + 1))) ∧
    token !! OFF_tx = Some (u8 (Z.lxor (u8 (entry_tries e + 1)) (entry_tries e))) ∧
    token !! OFF_vx_0 = Some (u8 (Z.lxor (entry_state eo !!! OFF_r_0) (version_octet 16))) ∧
    token !! OFF_vx_1 = Some (u8 (Z.lxor (entry_state eo !!! OFF_r_0) (version_octet 8))) ∧
    token !! OFF_vx_2 = Some (u8 (Z.lxor (entry_state eo !!! OFF_r_0) (version_octet 0))) ∧
    token !! OFF_server_id = Some (u8 (state_server_id s)) ∧
    (∀ i, i ∈ copied_offsets → token !! i = entry_state eo !! i) ∧
    (∀ i, i ∈ random_offsets → entry_state e !! i = entry_state eo !! i).
Proof.
  intros Hwf Ho Heo Hnone Hcreate.
  assert (Hold : old_linked s (Some o)) by (intros ? [= <-]; done).
  destruct (state_entry_create_Created _ _ _ _ _ _ _ _ _ _ _ Hwf Hold Hcreate)
    as (lead & rest & s1 & h1 & key & tries & _ & _ & _ & _ & _ & Hnew & Hlen & _ & _
        & Hh' & _).
  assert (Hos : length (entry_state eo) = STATE_SIZE).
  { pose proof (old_state_of_length h s (Some o) Hwf Hold) as Hl.
    unfold old_state_of in Hl. simpl in Hl. by rewrite Heo in Hl. }
  pose proof (new_state_value_minted _ _ _ _ _ _ _ _ _
                (ltac:(by rewrite (old_state_of_length h s))) Hnone Hnew) as Hpk.
  assert (Hot : old_tries_of h (Some o) = entry_tries eo)
    by (unfold old_tries_of; simpl; by rewrite Heo).
  assert (Host : old_state_of h (Some o) = entry_state eo)
    by (unfold old_state_of; simpl; by rewrite Heo).
  rewrite Hot, Host in Hnew.
  unfold new_state_value in Hnew. rewrite Hnone in Hnew.
  assert (Hkey : key = set_state_comp s (s32 (entry_tries eo + 1)) (entry_state eo)
                 ∧ tries = s32 (entry_tries eo + 1)).
  { assert (Hcp : memcpy (replicate STATE_SIZE 0) (entry_state eo) STATE_SIZE
                  = entry_state eo).
    { rewrite <- Hos at 2. apply memcpy_all. by rewrite length_replicate. }
    rewrite Hcp in Hnew. by injection Hnew as <- <- _. }
  destruct Hkey as [-> ->].
  set (t := s32 (entry_tries eo + 1)) in *.
  exists (set_state_comp s t (entry_state eo)),
         (new_entry s1 (xor_u32_at (set_state_comp s t (entry_state eo))
                                   OFF_server_hash (server_hash request))
                    now t).
  split; [exact Hpk|]. split; [rewrite Hh'; simpl; apply lookup_insert_eq|].
  split; [done|]. split; [done|].
  split; [intros Hr; simpl; unfold t; apply s32_small; lia|].
  split; [intros Hr; simpl; unfold t; rewrite Hr; apply s32_overflow|].
  destruct (length_16_inv _ Hos)
    as (b0 & b1 & b2 & b3 & b4 & b5 & b6 & b7 & b8 & b9 & b10 & b11 & b12 & b13 & b14
        & b15 & ->).
  split_and!; try reflexivity.
  - intros [= ->]. simpl. unfold t. by rewrite u8_s32_add, u8_succ.
  - intros i Hi. unfold copied_offsets in Hi.
    repeat (apply elem_of_cons in Hi as [->|Hi]; [reflexivity|]).
    by apply elem_of_nil in Hi.
  - intros i Hi. unfold random_offsets in Hi. unfold xor_u32_at, u32_octets.
    destruct host_big_endian;
      repeat (apply elem_of_cons in Hi as [->|Hi]; [reflexivity|]);
      by apply elem_of_nil in Hi.
Qed.

End claim_rotation.

Lemma state_entry_create_wf_match {platform : Platform} h s request packet old now rnd :
  state_wf h s → old_linked s old →
  match state_entry_create h s request packet old now rnd with
  | Some (h', s', _, _) => state_wf h' s'
  | None => False
  end.
Proof.
  intros Hwf Hold.
  by destruct (state_entry_create_wf h s request packet old now rnd Hwf Hold)
    as (h' & s' & pk & res & -> & Hwf').
Qed.

(** The rotation of the entry saved for [ex_reqA], at time 1010. *)
Definition ex_saved_entry : fr_state_entry_t :=
  mk_entry 0 [1; 1; 2; 0; 128; 132; 22; 14; 6; 37; 2; 35; 2; 54; 53; 52]
           0 1030 0 (Some 1%N) [mk_vp 1 [1]] [mk_rd 1 2 3 true] None.

Definition ex_rotated :=
  state_entry_create (platform := example_platform)
    ex_saved_heap ex_saved_tree ex_round2 [] (Some 3%N) 1010 ex_rnd.

Definition ex_rotated_heap : talloc :=
  match ex_rotated with Some (h, _, _, _) => h | None => ex_heap end.

Definition ex_rotated_tree : fr_state_tree_t :=
  match ex_rotated with Some (_, s, _, _) => s | None => ex_s0 end.

Definition ex_rotated_token : list Z :=
  [2; 3; 2; 0; 128; 132; 22; 14; 6; 37; 2; 35; 2; 54; 53; 52].

Definition ex_rotated_entry : fr_state_entry_t :=
  mk_entry 1 [2; 3; 2; 0; 21; 20; 19; 18; 6; 37; 2; 35; 2; 54; 53; 52]
           0 1040 1 None [] [] None.

Lemma ex_rotated_evaluated :
  state_to_expire ex_saved_tree = [3%N] ∧
  entries ex_saved_heap !! 3%N = Some ex_saved_entry ∧
  ex_rotated
  = Some (ex_rotated_heap, ex_rotated_tree, [mk_vp ex_da ex_rotated_token], Created 4%N) ∧
  entries ex_rotated_heap !! 4%N = Some ex_rotated_entry.
Proof. vm_compute. repeat split. Qed.

Lemma rotation_chains_tries_witness :
  ∃ (token : list Z) (e : fr_state_entry_t),
    entries ex_rotated_heap !! 4%N = Some e ∧
    entry_tries e = entry_tries ex_saved_entry + 1 ∧
    token !! OFF_tries = Some (u8 (entry_tries e + 1)) ∧
    token !! OFF_tx = Some (u8 (Z.lxor (u8 (entry_tries e + 1)) (entry_tries e))).
Proof.
  destruct ex_rotated_evaluated as (Hq & He & Hrot & _).
  destruct (rotation_chains_tries (platform := example_platform)
              ex_saved_heap ex_saved_tree ex_round2 [] 3%N 1010 ex_rnd
              ex_rotated_heap ex_rotated_tree [mk_vp ex_da ex_rotated_token] 4%N
              ex_saved_entry)
    as (token & e & _ & He' & _ & _ & Htries & _ & Hkt & _ & Htx & _).
  - exact ex_saved_wf.
  - rewrite Hq. constructor.
  - exact He.
  - reflexivity.
  - exact Hrot.
  - exists token, e. split; [exact He'|].
    split; [apply Htries; vm_compute; split; [discriminate|reflexivity]|].
    split; [exact Hkt|exact Htx].
Defined.

(** C7 as the claim words it, in two parts: the tx octet of the key is
    the exclusive or of the [tries] members of the new and of the old
    entry; the tries octet of the key is one more than that of the key of
    the old entry. *)
Definition rotation_tx_as_claimed {platform : Platform} : Prop :=
  ∀ h s request packet o now rnd h' s' packet' p eo e,
    state_wf h s → o ∈ state_to_expire s → entries h !! o = Some eo →
    fr_pair_find_by_da packet (state_da s) = None →
    state_entry_create h s request packet (Some o) now rnd
    = Some (h', s', packet', Created p) →
    entries h' !! p = Some e →
    entry_state e !! OFF_tx = Some (u8 (Z.lxor (entry_tries e) (entry_tries eo))).

Definition rotation_tries_as_claimed {platform : Platform} : Prop :=
  ∀ h s request packet o now rnd h' s' packet' p eo e,
    state_wf h s → o ∈ state_to_expire s → entries h !! o = Some eo →
    fr_pair_find_by_da packet (state_da s) = None →
    state_entry_create h s request packet (Some o) now rnd
    = Some (h', s', packet', Created p) →
    entries h' !! p = Some e →
    entry_state e !!! OFF_tries = entry_state eo !!! OFF_tries + 1.

(** An entry made from a State attribute that a module has put in the
    reply, and its rotation. *)
Definition ex_module_state : list Z := replicate 16 9.

Definition ex_module :=
  state_entry_create (platform := example_platform)
    ex_heap ex_s0 ex_reqA [mk_vp ex_da ex_module_state] None 1000 ex_rnd.

Definition ex_module_heap : talloc :=
  match ex_module with Some (h, _, _, _) => h | None => ex_heap end.

Definition ex_module_tree : fr_state_tree_t :=
  match ex_module with Some (_, s, _, _) => s | None => ex_s0 end.

Definition ex_module_entry : fr_state_entry_t :=
  mk_entry 0 [9; 9; 9; 9; 156; 153; 12; 21; 9; 9; 9; 9; 9; 9; 9; 9]
           0 1030 0 None [] [] None.

Definition ex_module_rotated :=
  state_entry_create (platform := example_platform)
    ex_module_heap ex_module_tree ex_round2 [] (Some 3%N) 1010 ex_rnd.

Definition ex_module_rotated_heap : talloc :=
  match ex_module_rotated with Some (h, _, _, _) => h | None => ex_heap end.

Definition ex_module_rotated_tree : fr_state_tree_t :=
  match ex_module_rotated with Some (_, s, _, _) => s | None => ex_s0 end.

Definition ex_module_rotated_entry : fr_state_entry_t :=
  mk_entry 1 [2; 3; 9; 0; 9; 9; 9; 9; 13; 9; 9; 9; 9; 9; 9; 9]
           0 1040 1 None [] [] None.

Lemma ex_module_evaluated :
  state_to_expire ex_module_tree = [3%N] ∧
  entries ex_module_heap !! 3%N = Some ex_module_entry ∧
  ex_module_rotated
  = Some (ex_module_rotated_heap, ex_module_rotated_tree,
          [mk_vp ex_da [2; 3; 9; 0; 156; 153; 12; 21; 13; 9; 9; 9; 9; 9; 9; 9]],
          Created 4%N) ∧
  entries ex_module_rotated_heap !! 4%N = Some ex_module_rotated_entry.
Proof. vm_compute. repeat split. Qed.

Lemma ex_module_wf : state_wf ex_module_heap ex_module_tree.
Proof.
  pose proof (state_entry_create_wf_match (platform := example_platform)
                ex_heap ex_s0 ex_reqA [mk_vp ex_da ex_module_state] None 1000 ex_rnd
                (state_wf_init _ _ _ _ _ _ ex_heap_ctxs)) as Hwf.
  unfold ex_module_heap, ex_module_tree, ex_module.
  destruct (state_entry_create _ _ _ _ _ _ _) as [[[[h' s'] pk] res]|].
  - apply Hwf. intros o Ho. discriminate Ho.
  - apply state_wf_init, ex_heap_ctxs.
Qed.

(** In the rotation of [ex_saved_entry] the [tries] members are 0 and 1
    and the tx octet is 3, the exclusive or of 2 and 1.  In the rotation
    of [ex_module_entry] the tries octet of the old key is 9, that of
    the new key is 2. *)
Lemma rotation_counterexample :
  ¬ rotation_tx_as_claimed (platform := example_platform) ∧
  ¬ rotation_tries_as_claimed (platform := example_platform).
Proof.
  split.
  - intros Hclaim.
    destruct ex_rotated_evaluated as (Hq & He & Hrot & He').
    assert (Hin : 3%N ∈ state_to_expire ex_saved_tree) by (rewrite Hq; constructor).
    specialize (Hclaim ex_saved_heap ex_saved_tree ex_round2 [] 3%N 1010 ex_rnd
                  ex_rotated_heap ex_rotated_tree [mk_vp ex_da ex_rotated_token] 4%N
                  ex_saved_entry ex_rotated_entry ex_saved_wf Hin He eq_refl Hrot He').
    vm_compute in Hclaim. discriminate Hclaim.
  - intros Hclaim.
    destruct ex_module_evaluated as (Hq & He & Hrot & He').
    assert (Hin : 3%N ∈ state_to_expire ex_module_tree) by (rewrite Hq; constructor).
    specialize (Hclaim ex_module_heap ex_module_tree ex_round2 [] 3%N 1010 ex_rnd
                  ex_module_rotated_heap ex_module_rotated_tree _ 4%N
                  ex_module_entry ex_module_rotated_entry ex_module_wf Hin He eq_refl
                  Hrot He').
    vm_compute in Hclaim. discriminate Hclaim.
Qed.

(** * Sequences of calls *)

(** A call of one of the three functions the server calls as a
    conversation goes on. *)
Inductive api_call :=
  | CallRestore (request : REQUEST)                        (* fr_state_to_request *)
  | CallSave (request : REQUEST) (now : Z) (rnd : nat → Z) (* fr_request_to_state *)
  | CallDiscard (request : REQUEST).                       (* fr_state_discard *)

Global Instance is_created_dec res : Decision (∃ p, res = Created p).
Proof.
  destruct res as [p| |]; [left; by exists p|right; by intros [? ?]|right; by intros [? ?]].
Defined.

(** The calls of [state_entry_create] that allocated an entry, and those
    that inserted it into the tree. *)
Definition allocated (trace : list create_result) : nat :=
  length (filter (λ res, res ≠ TooMany) trace).

Definition inserted (trace : list create_result) : nat :=
  length (filter (λ res, ∃ p, res = Created p) trace).

Section calls.

Context {platform : Platform}.

(** One call: the heap and the tree after it, and what
    [state_entry_create] returned if the call got that far. *)
Definition api_step (h : talloc) (s : fr_state_tree_t) (c : api_call)
  : option (talloc * fr_state_tree_t * option create_result) :=
  match c with
  | CallRestore request =>
      '(h', _) ← fr_state_to_request h s request; Some (h', s, None)
  | CallSave request now rnd =>
      '(h', s', _, _, res) ← request_to_state h s request now rnd; Some (h', s', res)
  | CallDiscard request =>
      '(h', s', _) ← fr_state_discard h s request; Some (h', s', None)
  end.

(** A sequence of calls, with the results of [state_entry_create] in the
    order of the calls. *)
Fixpoint api_run (h : talloc) (s : fr_state_tree_t) (calls : list api_call)
  : option (talloc * fr_state_tree_t * list create_result) :=
  match calls with
  | [] => Some (h, s, [])
  | c :: calls =>
      '(h1, s1, res) ← api_step h s c;
      '(h2, s2, trace) ← api_run h1 s1 calls;
      Some (h2, s2, option_list res ++ trace)
  end.

End calls.

(** * The counter of created entries *)

Lemma allocated_cons res trace :
  allocated (res :: trace)
  = ((if decide (res = TooMany) then 0 else 1) + allocated trace)%nat.
Proof.
  unfold allocated. rewrite filter_cons.
  destruct (decide (res ≠ TooMany)), (decide (res = TooMany)); simpl; done.
Qed.

Lemma inserted_cons res trace :
  inserted (res :: trace)
  = ((if decide (∃ p, res = Created p) then 1 else 0) + inserted trace)%nat.
Proof.
  unfold inserted. rewrite filter_cons.
  destruct (decide (∃ p, res = Created p)); simpl; done.
Qed.

Lemma allocated_app t1 t2 : allocated (t1 ++ t2) = (allocated t1 + allocated t2)%nat.
Proof. unfold allocated. by rewrite filter_app, length_app. Qed.

Lemma inserted_app t1 t2 : inserted (t1 ++ t2) = (inserted t1 + inserted t2)%nat.
Proof. unfold inserted. by rewrite filter_app, length_app. Qed.

Lemma inserted_le_allocated trace : (inserted trace ≤ allocated trace)%nat.
Proof.
  induction trace as [|res trace IH]; [done|].
  rewrite allocated_cons, inserted_cons.
  destruct (decide (∃ p, res = Created p)) as [[p ->]|]; [|lia].
  rewrite decide_False by done. lia.
Qed.

Lemma inserted_lt_allocated trace :
  InsertFailed ∈ trace → (inserted trace < allocated trace)%nat.
Proof.
  induction trace as [|res trace IH]; intros Hin; [by apply elem_of_nil in Hin|].
  rewrite allocated_cons, inserted_cons.
  apply elem_of_cons in Hin as [<-|Hin].
  - rewrite decide_False by (by intros [? ?]). rewrite decide_False by done.
    pose proof (inserted_le_allocated trace). lia.
  - specialize (IH Hin).
    destruct (decide (∃ p, res = Created p)) as [[p ->]|]; [|lia].
    rewrite decide_False by done. lia.
Qed.

Section counter.

Context {platform : Platform}.

(** What one call of [state_entry_create] does to the counter, and the
    id of the entry it files. *)
Lemma create_counter h s request packet old now rnd h' s' packet' res :
  state_wf h s → old_linked s old →
  state_entry_create h s request packet old now rnd = Some (h', s', packet', res) →
  state_id s' = (if decide (res = TooMany) then state_id s else u64 (state_id s + 1)) ∧
  (∀ p, res = Created p → ∃ e, entries h' !! p = Some e ∧ entry_id e = state_id s) ∧
  (res = InsertFailed →
   rbtree_num_elements (state_tree s') ≤ rbtree_num_elements (state_tree s)).
Proof.
  intros Hwf Hold Hcreate.
  destruct (state_entry_create_spec h s request packet old now rnd Hwf Hold)
    as (lead & rest & s1 & h1 & _ & Hu & _ & _ & Hspec).
  rewrite Hspec in Hcreate. clear Hspec.
  pose proof (unlinked_fields _ _ _ Hu) as (Hid & _).
  destruct Hu as (_ & _ & Hsz & _). simpl in Hid, Hsz.
  case_decide.
  - injection Hcreate as <- <- <- <-. rewrite decide_True by done. done.
  - injection Hcreate as Hins.
    destruct (insert_new_entry_cases h1 s1 request packet old
                (old_tries_of h old) (old_state_of h old) now rnd)
      as (key & tries & pk & _ & Hcases).
    cbn zeta in Hcases. rewrite Hcases in Hins. clear Hcases.
    destruct (state_tree s1 !! _); injection Hins as <- <- <- <-; simpl.
    + rewrite Hid. split; [done|]. split; [done|].
      intros _. unfold rbtree_num_elements. lia.
    + rewrite Hid. split; [done|]. split; [|done].
      intros p [= <-]. eexists. rewrite lookup_insert_eq. split; [done|]. simpl.
      exact Hid.
Qed.

Lemma request_to_state_cases h s request now rnd h' s' request' ret res :
  request_to_state h s request now rnd = Some (h', s', request', ret, res) →
  (nothing_to_save request ∧ h' = h ∧ s' = s ∧ res = None ∧ ret = 0) ∨
  (¬ nothing_to_save request ∧
   ∃ h1 reply cres,
     save_create h s request now rnd = Some (h1, s', reply, cres) ∧
     res = Some cres ∧ brk h' = brk h1 ∧
     (ret = 0 ↔ ∃ p, cres = Created p)).
Proof.
  rewrite request_to_state_unfold. case_decide as Hn.
  - intros [= <- <- <- <- <-]. by left.
  - destruct (save_create h s request now rnd) as [[[[h1 s1] reply] cres]|]; [|done].
    cbn [mbind option_bind]. intros Hres. right. split; [done|].
    exists h1, reply, cres.
    destruct cres as [p| |].
    + destruct (entries h1 !! p) as [e|]; [|done]. cbn [mbind option_bind] in Hres.
      case_decide; [|done]. injection Hres as <- <- <- <- <-.
      split_and!; try done. split; [by exists p|done].
    + injection Hres as <- <- <- <- <-. split_and!; try done.
      split; [done|by intros [? ?]].
    + injection Hres as <- <- <- <- <-. split_and!; try done.
      split; [done|by intros [? ?]].
Qed.

Lemma api_step_wf h s c h' s' res :
  state_wf h s → api_step h s c = Some (h', s', res) → state_wf h' s'.
Proof.
  intros Hwf. destruct c as [request|request now rnd|request]; simpl.
  - destruct (fr_state_to_request h s request) as [[h1 r1]|] eqn:Hr; [|done].
    simpl. intros [= <- <- _]. by eapply fr_state_to_request_wf.
  - destruct (request_to_state h s request now rnd) as [[[[[h1 s1] r1] ret] res1]|] eqn:Hs;
      [|done].
    simpl. intros [= <- <- _]. by eapply request_to_state_wf.
  - destruct (fr_state_discard_wf h s request Hwf) as (h1 & s1 & r1 & -> & Hwf1).
    simpl. by intros [= <- <- _].
Qed.

(** Only [state_entry_create] moves the counter. *)
Lemma api_step_counter h s c h' s' res :
  state_wf h s → api_step h s c = Some (h', s', res) →
  state_id s' = (if decide (allocated (option_list res) = 0%nat)
                 then state_id s else u64 (state_id s + 1)).
Proof.
  intros Hwf. destruct c as [request|request now rnd|request]; simpl.
  - destruct (fr_state_to_request h s request) as [[h1 r1]|]; [|done].
    simpl. by intros [= _ <- <-].
  - destruct (request_to_state h s request now rnd) as [[[[[h1 s1] r1] ret] res1]|] eqn:Hs;
      [|done].
    simpl. intros [= <- <- <-].
    apply request_to_state_cases in Hs
      as [(_ & _ & -> & -> & _)|(_ & h2 & reply & cres & Hc & -> & _)]; [done|].
    unfold save_create in Hc.
    destruct (create_counter _ _ _ _ _ _ _ _ _ _ _ Hwf (find_old_linked _ _ _ Hwf) Hc)
      as [-> _].
    simpl. rewrite allocated_cons. unfold allocated. simpl.
    destruct (decide (cres = TooMany)); done.
  - destruct (fr_pair_find_by_da (request_packet request) (state_da s)) as [vp|] eqn:Hvp;
      [destruct (state_entry_find s request (vp_octets vp)) as [p|] eqn:Hfind|].
    + destruct (fr_state_discard_found _ _ _ _ _ Hwf Hvp Hfind)
        as (s1 & h1 & Hu & _ & _ & ->).
      intros [= _ <- <-]. simpl.
      by destruct (unlinked_fields _ _ _ Hu) as (-> & _).
    + rewrite fr_state_discard_not_found; [by intros [= _ <- <-]|].
      intros vp' Hvp'. congruence.
    + rewrite fr_state_discard_not_found; [by intros [= _ <- <-]|].
      intros vp' Hvp'. congruence.
Qed.

Lemma api_run_counter calls : ∀ h s h' s' trace,
  state_wf h s → u64 (state_id s) = state_id s →
  api_run h s calls = Some (h', s', trace) →
  state_id s' = u64 (state_id s + Z.of_nat (allocated trace)) ∧ state_wf h' s'.
Proof.
  induction calls as [|c calls IH]; intros h s h' s' trace Hwf Hid; simpl.
  - intros [= <- <- <-]. unfold allocated. simpl. by rewrite Z.add_0_r, Hid.
  - destruct (api_step h s c) as [[[h1 s1] res]|] eqn:Hstep; [|done]. simpl.
    destruct (api_run h1 s1 calls) as [[[h2 s2] trace2]|] eqn:Hrun; [|done]. simpl.
    intros [= <- <- <-].
    pose proof (api_step_wf _ _ _ _ _ _ Hwf Hstep) as Hwf1.
    pose proof (api_step_counter _ _ _ _ _ _ Hwf Hstep) as Hid1.
    assert (Hid1' : u64 (state_id s1) = state_id s1).
    { rewrite Hid1. case_decide; [done|apply u64_idemp]. }
    destruct (IH _ _ _ _ _ Hwf1 Hid1' Hrun) as [-> Hwf2]. split; [|done].
    rewrite allocated_app, Hid1.
    assert (Hone : (allocated (option_list res) ≤ 1)%nat).
    { destruct res as [r|]; simpl.
      - rewrite allocated_cons. unfold allocated. rewrite filter_nil.
        destruct (decide (r = TooMany)); simpl; lia.
      - unfold allocated. rewrite filter_nil. simpl. lia. }
    case_decide as Hz.
    + rewrite Hz. done.
    + rewrite u64_add_l. f_equal. lia.
Qed.

End counter.

Section claim_counter.

Context {platform : Platform}.

Lemma api_run_app calls1 : ∀ calls2 h s h' s' trace,
  api_run h s (calls1 ++ calls2) = Some (h', s', trace) →
  ∃ h1 s1 trace1 trace2,
    api_run h s calls1 = Some (h1, s1, trace1) ∧
    api_run h1 s1 calls2 = Some (h', s', trace2) ∧
    trace = trace1 ++ trace2.
Proof.
  induction calls1 as [|c calls1 IH]; intros calls2 h s h' s' trace; simpl.
  - intros Hrun. by exists h, s, [], trace.
  - destruct (api_step h s c) as [[[h0 s0] res]|]; [|done]. simpl.
    destruct (api_run h0 s0 (calls1 ++ calls2)) as [[[h2 s2] trace2]|] eqn:Hrun; [|done].
    simpl. intros [= <- <- <-].
    destruct (IH _ _ _ _ _ _ Hrun) as (h1 & s1 & t1 & t2 & -> & Hrun2 & ->).
    simpl. exists h1, s1, (option_list res ++ t1), t2. by rewrite app_assoc.
Qed.

(** C10.  Start from a new tree and make any sequence of calls of
    [fr_state_to_request], [fr_request_to_state] and [fr_state_discard]
    that returns.  Then [fr_state_entries_created] is the number of calls
    of [state_entry_create] that got as far as allocating an entry (all
    but those that failed at the session limit), as a uint64_t; that
    number is at least the number of entries inserted into the tree, and
    greater when an insertion failed.  So, as long as the counter has not
    wrapped, it is at least the number of entries ever inserted, it is
    greater once an insertion has failed, and it was not greater after any
    earlier part of the sequence.  For one call of [state_entry_create] on
    a well-formed store: the counter is left alone by a failure at the
    session limit and is one more (as a uint64_t) otherwise, also when the
    insertion then fails and the tree gains nothing; a created entry has
    the value of the counter before the call as its id. *)
Theorem entries_created_counts cs b da max_sessions timeout server_id calls h' s' trace :
  (∀ c, c ∈ cs → (c < b)%N) →
  api_run (mk_talloc ∅ cs b) (fr_state_tree_init da max_sessions timeout server_id) calls
  = Some (h', s', trace) →
  fr_state_entries_created s' = u64 (Z.of_nat (allocated trace)) ∧
  (inserted trace ≤ allocated trace)%nat ∧
  (InsertFailed ∈ trace → (inserted trace < allocated trace)%nat) ∧
  (Z.of_nat (allocated trace) < 2 ^ 64 →
   Z.of_nat (inserted trace) ≤ fr_state_entries_created s' ∧
   (InsertFailed ∈ trace → Z.of_nat (inserted trace) < fr_state_entries_created s') ∧
   ∀ calls1 calls2, calls = calls1 ++ calls2 →
     ∃ h1 s1 trace1,
       api_run (mk_talloc ∅ cs b) (fr_state_tree_init da max_sessions timeout server_id)
               calls1 = Some (h1, s1, trace1) ∧
       fr_state_entries_created s1 ≤ fr_state_entries_created s') ∧
  (∀ h s request packet old now rnd h1 s1 packet1 res,
     state_wf h s → old_linked s old →
     state_entry_create h s request packet old now rnd = Some (h1, s1, packet1, res) →
     fr_state_entries_created s1
     = (if decide (res = TooMany) then fr_state_entries_created s
        else u64 (fr_state_entries_created s + 1)) ∧
     (∀ p, res = Created p →
           ∃ e, entries h1 !! p = Some e ∧ entry_id e = fr_state_entries_created s) ∧
     (res = InsertFailed →
      rbtree_num_elements (state_tree s1) ≤ rbtree_num_elements (state_tree s))).
Proof.
  intros Hcs Hrun.
  pose proof (state_wf_init cs b da max_sessions timeout server_id Hcs) as Hwf.
  destruct (api_run_counter _ _ _ _ _ _ Hwf eq_refl Hrun) as [Hid _].
  simpl in Hid. unfold fr_state_entries_created.
  split; [exact Hid|]. split; [apply inserted_le_allocated|].
  split; [apply inserted_lt_allocated|]. split.
  - intros Hsmall. rewrite Hid, u64_small by lia.
    split; [pose proof (inserted_le_allocated trace); lia|].
    split; [intros Hin; apply inserted_lt_allocated in Hin; lia|].
    intros calls1 calls2 ->.
    destruct (api_run_app _ _ _ _ _ _ _ Hrun) as (h1 & s1 & t1 & t2 & Hrun1 & _ & ->).
    exists h1, s1, t1. split; [exact Hrun1|].
    destruct (api_run_counter _ _ _ _ _ _ Hwf eq_refl Hrun1) as [-> _]. simpl.
    rewrite allocated_app in Hsmall |- *. rewrite u64_small by lia. lia.
  - intros h s request packet old now rnd h1 s1 packet1 res Hwf1 Hold Hc.
    by apply (create_counter _ _ _ _ _ _ _ _ _ _ _ Hwf1 Hold Hc).
Qed.

End claim_counter.

(** Two saves of [ex_reqA] with the same results of [fr_rand], then the
    restore of the next round: the second save mints the value of the
    first, and its insertion fails. *)
Definition ex_calls : list api_call :=
  [CallSave ex_reqA 1000 ex_rnd; CallSave ex_reqA 1001 ex_rnd; CallRestore ex_round2].

Definition ex_calls_run :=
  api_run (platform := example_platform) ex_heap ex_s0 ex_calls.

Definition ex_calls_heap : talloc :=
  match ex_calls_run with Some (h, _, _) => h | None => ex_heap end.

Definition ex_calls_tree : fr_state_tree_t :=
  match ex_calls_run with Some (_, s, _) => s | None => ex_s0 end.

Lemma entries_created_counts_witness :
  fr_state_entries_created ex_calls_tree = u64 2 ∧
  (inserted [Created 3%N; InsertFailed] < allocated [Created 3%N; InsertFailed])%nat.
Proof.
  destruct (entries_created_counts (platform := example_platform)
              {[1%N; 2%N]} 3%N ex_da 10 30 0 ex_calls ex_calls_heap ex_calls_tree
              [Created 3%N; InsertFailed] ex_heap_ctxs)
    as (Hid & _ & Hlt & _).
  - vm_compute. reflexivity.
  - split; [exact Hid|]. apply Hlt. apply list_elem_of_further, list_elem_of_here.
Defined.

(** * Creating entries while none expires *)

(** A call of [state_entry_create] without an old entry. *)
Record create_call := mk_create_call {
  cc_request : REQUEST;
  cc_packet : list VALUE_PAIR;
  cc_now : Z;
  cc_rnd : nat → Z
}.

Section independent.

Context {platform : Platform}.

(** Calls of [state_entry_create] without an old entry, one after the
    other, with what each returned. *)
Fixpoint run_creates (h : talloc) (s : fr_state_tree_t) (calls : list create_call)
  : option (talloc * fr_state_tree_t * list create_result) :=
  match calls with
  | [] => Some (h, s, [])
  | c :: calls =>
      '(h1, s1, _, res) ←
         state_entry_create h s (cc_request c) (cc_packet c) None (cc_now c) (cc_rnd c);
      '(h2, s2, trace) ← run_creates h1 s1 calls;
      Some (h2, s2, res :: trace)
  end.

(** No entry of the queue expires before [t]. *)
Definition none_expires (h : talloc) (s : fr_state_tree_t) (t : Z) : Prop :=
  ∀ p e, p ∈ state_to_expire s → entries h !! p = Some e → t ≤ entry_cleanup e.

Lemma filter_not_in_nil (l : list N) : filter (λ p, p ∉ []) l = l.
Proof.
  induction l as [|x l IH]; [done|].
  rewrite filter_cons_True; [by rewrite IH|]. apply not_elem_of_nil.
Qed.

(** One call while nothing expires: it fails exactly at the limit, and
    otherwise files one entry, to be cleaned up [timeout] from now, or
    fails to insert it. *)
Lemma create_no_expiry h s request packet now rnd :
  state_wf h s → none_expires h s now →
  ∃ h' s' packet' res,
    state_entry_create h s request packet None now rnd = Some (h', s', packet', res) ∧
    state_wf h' s' ∧
    state_max_sessions s' = state_max_sessions s ∧
    state_timeout s' = state_timeout s ∧
    (res = TooMany ↔ u32 (state_max_sessions s) ≤ rbtree_num_elements (state_tree s)) ∧
    rbtree_num_elements (state_tree s')
    = rbtree_num_elements (state_tree s) + Z.of_nat (length (created_entry res)) ∧
    (∀ p e, p ∈ state_to_expire s' → entries h' !! p = Some e →
            (p ∈ state_to_expire s ∧ entries h !! p = Some e) ∨
            entry_cleanup e = now + u32 (state_timeout s)).
Proof.
  intros Hwf Hnone.
  assert (Hold : old_linked s None) by (intros o Ho; discriminate Ho).
  destruct (state_entry_create_spec h s request packet None now rnd Hwf Hold)
    as (lead & rest & s1 & h1 & (Hq & Hlead & _) & Hu & Hfr & Hwf1 & Hspec).
  assert (Hnil : lead = []).
  { destruct lead as [|p lead]; [done|].
    apply Forall_cons in Hlead as [[Hp|(e & He & Hlt)] _]; [done|].
    assert (Hin : p ∈ state_to_expire s) by (rewrite Hq; set_solver).
    specialize (Hnone p e Hin He). lia. }
  subst lead. unfold swept in *. rewrite filter_nil in *. simpl in *.
  pose proof (unlinked_fields _ _ _ Hu) as (_ & _ & Hmax & Hto & _).
  destruct Hu as (Hq1 & Ht1 & Hsz & _). destruct Hfr as (He1 & _ & Hbrk).
  simpl in Hq1, Hsz, Hmax, Hto. rewrite filter_not_in_nil in Hq1.
  assert (Hent : ∀ q, entries h1 !! q = entries h !! q).
  { intros q. rewrite He1. rewrite decide_False; [done|]. apply not_elem_of_nil. }
  rewrite Hspec. clear Hspec. unfold too_many, rbtree_num_elements in *.
  case_decide as Htm.
  - exists h1, s1, packet, TooMany.
    split; [done|]. split; [done|]. split; [done|]. split; [done|].
    split; [|split].
    + split; [intros _|done]. destruct Htm as [_ Htm]. lia.
    + simpl. lia.
    + intros p e Hp He. left. rewrite <- Hq1, <- Hent. done.
  - destruct (insert_new_entry_cases h1 s1 request packet None
                (old_tries_of h None) (old_state_of h None) now rnd)
      as (key & tries & pk & Hnew & Hcases).
    cbn zeta in Hcases. rewrite Hcases.
    pose proof (insert_new_entry_wf h1 s1 request packet None
                  (old_tries_of h None) (old_state_of h None) now rnd) as Hwf'.
    rewrite Hcases in Hwf'. clear Hcases.
    assert (Hos : (STATE_SIZE ≤ length (old_state_of h None))%nat).
    { unfold old_state_of, STATE_SIZE. simpl. lia. }
    assert (Hntm : ¬ u32 (state_max_sessions s) ≤ Z.of_nat (size (state_tree s))).
    { intros Hle. apply Htm. split; [done|]. lia. }
    destruct (state_tree s1 !! _) eqn:Hk.
    + eexists _, _, _, _. split; [done|].
      split; [by eapply Hwf'|]. simpl.
      split; [done|]. split; [done|]. split; [|split].
      * split; [done|]. intros Hle. by destruct Hntm.
      * lia.
      * intros p e Hp He. left. rewrite <- Hq1, <- Hent. done.
    + eexists _, _, _, _. split; [done|].
      split; [by eapply Hwf'|]. simpl.
      split; [done|]. split; [done|]. split; [|split].
      * split; [done|]. intros Hle. by destruct Hntm.
      * rewrite map_size_insert_None by done. lia.
      * intros p e Hp He. apply elem_of_app in Hp as [Hp|Hp].
        -- left. rewrite <- Hq1. split; [done|]. rewrite <- Hent.
           rewrite lookup_insert_ne in He; [done|].
           intros <-. pose proof (queue_below_brk _ _ _ Hwf1 Hp). lia.
        -- right. apply list_elem_of_singleton in Hp as ->.
           rewrite lookup_insert_eq in He. injection He as <-. simpl. by rewrite Hto.
Qed.

End independent.

(** The calls that failed at the session limit. *)
Definition refused (trace : list create_result) : nat :=
  length (filter (λ res, res = TooMany) trace).

Lemma refused_cons res trace :
  refused (res :: trace) = ((if decide (res = TooMany) then 1 else 0) + refused trace)%nat.
Proof.
  unfold refused. rewrite filter_cons. by destruct (decide (res = TooMany)).
Qed.

Section limit.

Context {platform : Platform}.

(** Independent creations in a span of time no longer than the timeout:
    they succeed until the tree holds [max_sessions] entries and fail from
    then on, unless an insertion fails. *)
Lemma run_creates_limit calls : ∀ h s,
  state_wf h s →
  (∀ c, c ∈ calls → none_expires h s (cc_now c)) →
  (∀ c c', c ∈ calls → c' ∈ calls → cc_now c' ≤ cc_now c + u32 (state_timeout s)) →
  rbtree_num_elements (state_tree s) ≤ u32 (state_max_sessions s) →
  ∃ h' s' trace,
    run_creates h s calls = Some (h', s', trace) ∧
    state_wf h' s' ∧
    length trace = length calls ∧
    state_max_sessions s' = state_max_sessions s ∧
    rbtree_num_elements (state_tree s') ≤ u32 (state_max_sessions s) ∧
    (InsertFailed ∉ trace →
     Z.of_nat (refused trace)
     = Z.max 0 (rbtree_num_elements (state_tree s) + Z.of_nat (length calls)
                - u32 (state_max_sessions s)) ∧
     rbtree_num_elements (state_tree s')
     = Z.min (u32 (state_max_sessions s))
             (rbtree_num_elements (state_tree s) + Z.of_nat (length calls))).
Proof.
  induction calls as [|c calls IH]; intros h s Hwf Hnone Hwin Hle.
  - exists h, s, []. simpl. split_and!; try done. intros _. unfold refused. simpl. lia.
  - destruct (create_no_expiry h s (cc_request c) (cc_packet c) (cc_now c) (cc_rnd c) Hwf)
      as (h1 & s1 & pk & res & Hc & Hwf1 & Hmax & Hto & Htm & Hsz & Hent).
    { apply Hnone. set_solver. }
    destruct (IH h1 s1 Hwf1) as (h' & s' & trace & Hrun & Hwf' & Hlen & Hmax' & Hle' & Hcount).
    { intros c' Hc' p e Hp He. destruct (Hent p e Hp He) as [[Hp0 He0]| ->].
      - eapply Hnone; [set_solver|done|done].
      - apply Hwin; set_solver. }
    { rewrite Hto. intros c1 c2 H1 H2. apply Hwin; set_solver. }
    { rewrite Hmax, Hsz. destruct res as [p| |]; simpl; [|lia|lia].
      assert (¬ u32 (state_max_sessions s) ≤ rbtree_num_elements (state_tree s)); [|lia].
      intros Hfull. by apply Htm in Hfull. }
    exists h', s', (res :: trace). simpl. rewrite Hc. simpl. rewrite Hrun. simpl.
    split; [done|]. split; [done|]. split; [by rewrite Hlen|].
    split; [congruence|]. split; [by rewrite <- Hmax|].
    intros Hnf. rewrite refused_cons.
    destruct Hcount as [Href Hsize]; [set_solver|].
    rewrite Hmax, Hsz in Href, Hsize. rewrite Hsize.
    destruct res as [p| |]; simpl in *.
    + assert (¬ u32 (state_max_sessions s) ≤ rbtree_num_elements (state_tree s)).
      { intros Hfull. by apply Htm in Hfull. }
      lia.
    + assert (u32 (state_max_sessions s) ≤ rbtree_num_elements (state_tree s))
        by (by apply Htm).
      lia.
    + exfalso. apply Hnf. apply list_elem_of_here.
Qed.

(** A rotation that unlinks the old entry: the entry the token of the
    request resolves to holds no request data (it has been thawed, or
    never held any). *)
Definition consumes_old (h : talloc) (s : fr_state_tree_t) (c : api_call) : Prop :=
  match c with
  | CallSave request _ _ =>
      ∀ o e, find_old s request = Some o → entries h !! o = Some e → entry_data e = []
  | _ => True
  end.

Fixpoint rotations_consume (h : talloc) (s : fr_state_tree_t) (calls : list api_call)
  : Prop :=
  match calls with
  | [] => True
  | c :: calls =>
      consumes_old h s c ∧
      match api_step h s c with
      | Some (h', s', _) => rotations_consume h' s' calls
      | None => True
      end
  end.

Lemma api_step_limit h s c h' s' res :
  state_wf h s → consumes_old h s c →
  api_step h s c = Some (h', s', res) →
  rbtree_num_elements (state_tree s) ≤ u32 (state_max_sessions s) →
  rbtree_num_elements (state_tree s') ≤ u32 (state_max_sessions s') ∧
  state_max_sessions s' = state_max_sessions s.
Proof.
  intros Hwf Hcons Hstep Hle. destruct c as [request|request now rnd|request]; simpl in *.
  - destruct (fr_state_to_request h s request) as [[h1 r1]|]; [|done].
    simpl in Hstep. by injection Hstep as _ <- _.
  - destruct (request_to_state h s request now rnd) as [[[[[h1 s1] r1] ret] res1]|] eqn:Hs;
      [|done].
    simpl in Hstep. injection Hstep as <- <- <-.
    apply request_to_state_cases in Hs
      as [(_ & _ & -> & _)|(_ & h2 & reply & cres & Hc & _)]; [done|].
    unfold save_create in Hc.
    destruct (capacity_per_call h s (detached request) (request_reply request)
                (find_old s request) now rnd Hwf (find_old_linked _ _ _ Hwf))
      as (lead & rest & h3 & s3 & pk3 & res3 & Hc3 & _ & _ & Hmax & Htm & Hfail & Hsz & _).
    rewrite Hc in Hc3. injection Hc3 as <- <- <- <-.
    split; [|done]. rewrite Hmax.
    destruct (find_old s request) as [o|] eqn:Hold.
    + assert (Hun : old_unlinked h (Some o) = [o]).
      { unfold old_unlinked.
        pose proof (find_old_linked h s request Hwf o Hold) as Ho.
        destruct Hwf as [Ht Hq _ _ _]. apply Hq in Ho as [k Hk].
        destruct (Ht _ _ Hk) as (e & He & _). rewrite He.
        by rewrite decide_True by (by eapply Hcons). }
      rewrite Hun in Hsz. simpl in Hsz. lia.
    + simpl in Hsz. destruct (decide (cres = TooMany)) as [->|Hne].
      * destruct (Hfail eq_refl) as (_ & _ & _ & ->). lia.
      * assert (Hntm : ¬ too_many s None (length (swept None lead)))
          by (intros Htoo; by apply Htm in Htoo).
        unfold too_many in Hntm.
        assert (¬ u32 (state_max_sessions s)
                  ≤ rbtree_num_elements (state_tree s)
                    - Z.of_nat (length (swept None lead))) by tauto.
        lia.
  - destruct (fr_pair_find_by_da (request_packet request) (state_da s)) as [vp|] eqn:Hvp;
      [destruct (state_entry_find s request (vp_octets vp)) as [p|] eqn:Hfind|].
    + destruct (fr_state_discard_found _ _ _ _ _ Hwf Hvp Hfind)
        as (s1 & h1 & Hu & _ & _ & Hd).
      rewrite Hd in Hstep. simpl in Hstep. injection Hstep as _ <- _.
      destruct (unlinked_fields _ _ _ Hu) as (_ & _ & -> & _).
      destruct Hu as (_ & _ & Hsz & _). unfold rbtree_num_elements in *.
      simpl in Hsz. split; [lia|done].
    + rewrite fr_state_discard_not_found in Hstep; [|intros vp' Hvp'; congruence].
      simpl in Hstep. by injection Hstep as _ <- _.
    + rewrite fr_state_discard_not_found in Hstep; [|intros vp' Hvp'; congruence].
      simpl in Hstep. by injection Hstep as _ <- _.
Qed.

Lemma api_run_limit calls : ∀ h s h' s' trace,
  state_wf h s → rotations_consume h s calls →
  api_run h s calls = Some (h', s', trace) →
  rbtree_num_elements (state_tree s) ≤ u32 (state_max_sessions s) →
  rbtree_num_elements (state_tree s') ≤ u32 (state_max_sessions s') ∧
  state_max_sessions s' = state_max_sessions s.
Proof.
  induction calls as [|c calls IH]; intros h s h' s' trace Hwf Hcons; simpl.
  - by intros [= <- <- <-].
  - destruct Hcons as [Hc Hrest].
    destruct (api_step h s c) as [[[h1 s1] res]|] eqn:Hstep; [|done]. simpl.
    destruct (api_run h1 s1 calls) as [[[h2 s2] trace2]|] eqn:Hrun; [|done]. simpl.
    intros [= <- <- <-] Hle.
    destruct (api_step_limit _ _ _ _ _ _ Hwf Hc Hstep Hle) as [Hle1 Hmax1].
    destruct (IH _ _ _ _ _ (api_step_wf _ _ _ _ _ _ Hwf Hstep) Hrest Hrun Hle1)
      as [Hle2 Hmax2].
    split; [done|congruence].
Qed.

End limit.

Section claim_capacity.

Context {platform : Platform}.

Lemma init_below_limit da max_sessions timeout server_id :
  rbtree_num_elements (state_tree (fr_state_tree_init da max_sessions timeout server_id))
  ≤ u32 (state_max_sessions (fr_state_tree_init da max_sessions timeout server_id)).
Proof.
  unfold rbtree_num_elements, fr_state_tree_init. cbn [state_tree state_max_sessions].
  rewrite map_size_empty. apply u32_range.
Qed.

(** C4, as amended.
    (1) A call of [state_entry_create] without an old entry on a
    well-formed store returns, and it fails for the session limit exactly
    when the tree, without the entries the sweep of this call takes out,
    holds [max_sessions] entries or more; the failure leaves the packet
    and the counter of created entries alone, and the swept entries are
    freed and out of the tree when it is returned.
    (2) Starting from a new tree, after any sequence of calls of
    [fr_state_to_request], [fr_request_to_state] and [fr_state_discard] in
    which every save that finds an old entry finds it without request data
    (so that the rotation unlinks it), [fr_state_entries_tracked] is at
    most [max_sessions].  A rotation whose old entry still holds request
    data adds an entry without the test of the limit.
    (3) Starting from a new tree, [max_sessions] + 1 calls of
    [state_entry_create] without an old entry, made in a span of time no
    longer than the timeout, all return; unless an insertion fails,
    exactly one of them fails for the session limit, and the tree ends
    with [max_sessions] entries. *)
Theorem capacity_ceiling :
  (∀ h s request packet now rnd,
     state_wf h s →
     ∃ lead rest h' s' packet' res,
       state_entry_create h s request packet None now rnd = Some (h', s', packet', res) ∧
       sweep_split h None now (state_to_expire s) lead rest ∧
       (res = TooMany ↔
        u32 (state_max_sessions s)
        ≤ rbtree_num_elements (state_tree s) - Z.of_nat (length (swept None lead))) ∧
       (res = TooMany →
        packet' = packet ∧
        fr_state_entries_created s' = fr_state_entries_created s ∧
        (∀ p, p ∈ swept None lead → entries h' !! p = None) ∧
        rbtree_num_elements (state_tree s')
        = rbtree_num_elements (state_tree s) - Z.of_nat (length (swept None lead)))) ∧
  (∀ cs b da max_sessions timeout server_id calls h' s' trace,
     (∀ c, c ∈ cs → (c < b)%N) →
     rotations_consume (mk_talloc ∅ cs b)
       (fr_state_tree_init da max_sessions timeout server_id) calls →
     api_run (mk_talloc ∅ cs b) (fr_state_tree_init da max_sessions timeout server_id) calls
     = Some (h', s', trace) →
     fr_state_entries_tracked s' ≤ u32 max_sessions ∧
     fr_state_entries_tracked s' = rbtree_num_elements (state_tree s')) ∧
  (∀ cs b da max_sessions timeout server_id calls,
     (∀ c, c ∈ cs → (c < b)%N) →
     Z.of_nat (length calls) = u32 max_sessions + 1 →
     (∀ c c', c ∈ calls → c' ∈ calls → cc_now c' ≤ cc_now c + u32 timeout) →
     ∃ h' s' trace,
       run_creates (mk_talloc ∅ cs b)
         (fr_state_tree_init da max_sessions timeout server_id) calls
       = Some (h', s', trace) ∧
       length trace = length calls ∧
       fr_state_entries_tracked s' ≤ u32 max_sessions ∧
       (InsertFailed ∉ trace →
        refused trace = 1%nat ∧ fr_state_entries_tracked s' = u32 max_sessions)).
Proof.
  split; [|split].
  - intros h s request packet now rnd Hwf.
    destruct (capacity_per_call h s request packet None now rnd Hwf)
      as (lead & rest & h' & s' & packet' & res & Hc & _ & Hsplit & _ & Htm & Hfail & _);
      [intros o Ho; discriminate Ho|].
    exists lead, rest, h', s', packet', res.
    split; [done|]. split; [done|]. split.
    + rewrite Htm. unfold too_many. tauto.
    + intros Hres. destruct (Hfail Hres) as (? & ? & ? & ?). done.
  - intros cs b da max_sessions timeout server_id calls h' s' trace Hcs Hcons Hrun.
    pose proof (state_wf_init cs b da max_sessions timeout server_id Hcs) as Hwf.
    destruct (api_run_limit _ _ _ _ _ _ Hwf Hcons Hrun) as [Hle Hmax].
    { apply init_below_limit. }
    rewrite tracked_below_limit by done.
    rewrite Hmax in Hle. simpl in Hle. rewrite u32_idemp in Hle. done.
  - intros cs b da max_sessions timeout server_id calls Hcs Hlen Hwin.
    pose proof (state_wf_init cs b da max_sessions timeout server_id Hcs) as Hwf.
    destruct (run_creates_limit calls _ _ Hwf)
      as (h' & s' & trace & Hrun & _ & Hlen' & Hmax & Hle & Hcount).
    { intros c Hc p e Hp. by apply elem_of_nil in Hp. }
    { simpl. by rewrite u32_idemp. }
    { apply init_below_limit. }
    exists h', s', trace.
    cbn [fr_state_tree_init state_tree state_max_sessions] in Hmax, Hle, Hcount.
    rewrite u32_idemp in Hle, Hcount.
    unfold rbtree_num_elements in Hcount. rewrite map_size_empty in Hcount.
    assert (Htr : fr_state_entries_tracked s' = rbtree_num_elements (state_tree s')).
    { apply tracked_below_limit. rewrite Hmax. simpl. by rewrite u32_idemp. }
    split; [done|]. split; [done|]. split; [by rewrite Htr|].
    intros Hnf. destruct (Hcount Hnf) as [Href Hsize].
    pose proof (u32_range max_sessions). split; [lia|].
    rewrite Htr. unfold rbtree_num_elements. lia.
Qed.

End claim_capacity.

(** A tree for two sessions, and three independent creations. *)
Definition ex_two : fr_state_tree_t := fr_state_tree_init ex_da 2 30 0.

Definition ex_three_calls : list create_call :=
  [mk_create_call ex_reqA [] 1000 (ex_rnd_from 1);
   mk_create_call ex_reqA [] 1001 (ex_rnd_from 2);
   mk_create_call ex_reqA [] 1002 (ex_rnd_from 3)].

Lemma capacity_ceiling_witness :
  ∃ h' s' trace,
    run_creates (platform := example_platform) ex_heap ex_two ex_three_calls
    = Some (h', s', trace) ∧
    trace = [Created 3%N; Created 4%N; TooMany] ∧
    refused trace = 1%nat ∧ fr_state_entries_tracked s' = 2.
Proof.
  destruct (proj2 (proj2 (capacity_ceiling (platform := example_platform)))
              {[1%N; 2%N]} 3%N ex_da 2 30 0 ex_three_calls ex_heap_ctxs)
    as (h' & s' & trace & Hrun & _ & _ & Hone).
  - reflexivity.
  - intros c c' Hc Hc'. unfold ex_three_calls in *.
    repeat (apply elem_of_cons in Hc as [->|Hc]);
      repeat (apply elem_of_cons in Hc' as [->|Hc']);
      try (by apply elem_of_nil in Hc); try (by apply elem_of_nil in Hc');
      vm_compute; discriminate.
  - assert (Htrace : trace = [Created 3%N; Created 4%N; TooMany]).
    { pose proof Hrun as Hrun'. vm_compute in Hrun'. by injection Hrun' as _ _ <-. }
    exists h', s', trace. split; [exact Hrun|]. split; [exact Htrace|].
    apply Hone. rewrite Htrace. intros Hin.
    repeat (apply elem_of_cons in Hin as [Hin|Hin]; [discriminate Hin|]).
    by apply elem_of_nil in Hin.
Defined.

(** C4 as the claim words it: after any sequence of calls on a new tree,
    [fr_state_entries_tracked] is at most [max_sessions]. *)
Definition capacity_as_claimed {platform : Platform} : Prop :=
  ∀ cs b da max_sessions timeout server_id calls h' s' trace,
    (∀ c, c ∈ cs → (c < b)%N) →
    api_run (mk_talloc ∅ cs b) (fr_state_tree_init da max_sessions timeout server_id) calls
    = Some (h', s', trace) →
    fr_state_entries_tracked s' ≤ u32 max_sessions.

(** A request of the next round that comes to be saved without having
    been restored: it carries the token, and session state of its own. *)
Definition ex_round2_unrestored : REQUEST :=
  ex_request 505%N "serverA" [mk_vp ex_da ex_token] (Some 2%N) [mk_vp 1 [2]] [].

Definition ex_over_calls : list api_call :=
  [CallSave ex_reqA 1000 ex_rnd; CallSave ex_round2_unrestored 1010 ex_rnd].

(** With a limit of one session: the entry saved for [ex_reqA] holds
    request data, so the rotation leaves it in the tree and adds its
    successor; two entries are tracked. *)
Lemma capacity_counterexample : ¬ capacity_as_claimed (platform := example_platform).
Proof.
  intros Hclaim.
  destruct (api_run (platform := example_platform)
              ex_heap (fr_state_tree_init ex_da 1 30 0) ex_over_calls)
    as [[[h' s'] trace]|] eqn:Hrun; [|vm_compute in Hrun; discriminate Hrun].
  assert (Htracked : fr_state_entries_tracked s' = 2).
  { vm_compute in Hrun. injection Hrun as _ <- _. vm_compute. reflexivity. }
  pose proof (Hclaim {[1%N; 2%N]} 3%N ex_da 1 30 0 ex_over_calls h' s' trace
                ex_heap_ctxs Hrun) as Hle.
  rewrite Htracked in Hle. vm_compute in Hle. by apply Hle.
Qed.

(** * talloc_free of a chunk that is not live

    [talloc_free_ctx] takes a state context out of the set of the live
    ones, and leaves the heap as it is when the context is not live.
    talloc does not: a chunk that was freed carries the mark of a free
    chunk, and [talloc_free] of it aborts ("Bad talloc magic value -
    access after free").  The functions of this part are those of the
    source with this [talloc_free]: [None] is the abort.  Where they
    return, they return what the functions above return
    ([api_step_checked_Some]); and they return where every state context
    has one owner ([api_step_checked_eq]). *)

Section checked.

Context {platform : Platform}.

Lemma talloc_free_ctx_entries h c : entries (talloc_free_ctx h c) = entries h.
Proof. by destruct c. Qed.

Lemma talloc_free_ctx_brk h c : brk (talloc_free_ctx h c) = brk h.
Proof. by destruct c. Qed.

(** [talloc_free] of a state context, and [TALLOC_FREE] of a pointer to
    one: nothing is done for [NULL]. *)
Definition talloc_free_checked (h : talloc) (c : option ptr) : option talloc :=
  match c with
  | Some c' => if decide (c' ∈ ctxs h) then Some (talloc_free_ctx h c) else None
  | None => Some h
  end.

(** [talloc_free] of an entry: the destructor [_state_entry_free] frees
    the context the entry owns. *)
Definition talloc_free_entry_checked (h : talloc) (entry : ptr) : option talloc :=
  e ← entries h !! entry;
  h' ← talloc_free_checked h (entry_ctx e);
  Some (mk_talloc (delete entry (entries h')) (ctxs h') (brk h')).

Fixpoint free_entries_checked (h : talloc) (to_free : list ptr) : option talloc :=
  match to_free with
  | [] => Some h
  | entry :: rest => h' ← talloc_free_entry_checked h entry; free_entries_checked h' rest
  end.

(** The state contexts the entries of [l] own. *)
Definition owned_ctxs (h : talloc) (l : list ptr) : list ptr :=
  omap (λ p, e ← entries h !! p; entry_ctx e) l.

(** Every state context an entry of the expiry queue owns is live, and no
    two entries own the same one. *)
Record ctx_wf (h : talloc) (s : fr_state_tree_t) : Prop := mk_ctx_wf {
  ctx_live : ∀ c, c ∈ owned_ctxs h (state_to_expire s) → c ∈ ctxs h;
  ctx_once : ∀ p q e e' c,
    p ∈ state_to_expire s → q ∈ state_to_expire s →
    entries h !! p = Some e → entries h !! q = Some e' →
    entry_ctx e = Some c → entry_ctx e' = Some c → p = q
}.

Lemma elem_of_owned_ctxs h l c :
  c ∈ owned_ctxs h l ↔ ∃ p e, p ∈ l ∧ entries h !! p = Some e ∧ entry_ctx e = Some c.
Proof.
  unfold owned_ctxs. rewrite list_elem_of_omap. split.
  - intros (p & Hp & Hc). destruct (entries h !! p) as [e|] eqn:He; [|done].
    exists p, e. done.
  - intros (p & e & Hp & He & Hc). exists p. split; [done|]. by rewrite He.
Qed.

Lemma talloc_free_checked_Some h c h' :
  talloc_free_checked h c = Some h' → h' = talloc_free_ctx h c.
Proof.
  unfold talloc_free_checked. destruct c as [c|]; [|by intros [= <-]].
  case_decide; [by intros [= <-]|done].
Qed.

Lemma talloc_free_checked_live h c :
  (∀ c', c = Some c' → c' ∈ ctxs h) →
  talloc_free_checked h c = Some (talloc_free_ctx h c).
Proof.
  intros Hc. unfold talloc_free_checked. destruct c as [c|]; [|done].
  rewrite decide_True; [done|]. by apply Hc.
Qed.

Lemma talloc_free_checked_dead h c :
  c ∉ ctxs h → talloc_free_checked h (Some c) = None.
Proof. intros Hc. unfold talloc_free_checked. by rewrite decide_False. Qed.

Lemma talloc_free_entry_checked_Some h p h' :
  talloc_free_entry_checked h p = Some h' → talloc_free_entry h p = Some h'.
Proof.
  unfold talloc_free_entry_checked, talloc_free_entry.
  destruct (entries h !! p) as [e|]; [|done]. cbn [mbind option_bind].
  destruct (talloc_free_checked h (entry_ctx e)) as [h1|] eqn:Hf; [|done].
  apply talloc_free_checked_Some in Hf as ->. done.
Qed.

Lemma free_entries_checked_Some l : ∀ h h',
  free_entries_checked h l = Some h' → free_entries h l = Some h'.
Proof.
  induction l as [|p l IH]; intros h h' Hf; [done|]. simpl in *.
  destruct (talloc_free_entry_checked h p) as [h1|] eqn:Hp; [|done].
  rewrite (talloc_free_entry_checked_Some _ _ _ Hp). cbn [mbind option_bind] in *.
  by apply IH.
Qed.

(** The contexts of [l] are live and each has one owner in [l]. *)
Definition ctxs_live (h : talloc) (l : list ptr) : Prop :=
  ∀ p e c, p ∈ l → entries h !! p = Some e → entry_ctx e = Some c → c ∈ ctxs h.

Definition ctxs_once (h : talloc) (l : list ptr) : Prop :=
  ∀ p q e e' c, p ∈ l → q ∈ l → entries h !! p = Some e → entries h !! q = Some e' →
                entry_ctx e = Some c → entry_ctx e' = Some c → p = q.

Lemma free_entries_checked_eq l : ∀ h,
  ctxs_live h l → ctxs_once h l → free_entries_checked h l = free_entries h l.
Proof.
  induction l as [|p l IH]; intros h Hlive Honce; [done|].
  simpl. unfold talloc_free_entry_checked, talloc_free_entry.
  destruct (entries h !! p) as [e|] eqn:He; [|done]. cbn [mbind option_bind].
  rewrite talloc_free_checked_live.
  2:{ intros c Hc. eapply Hlive; [|done|done]. set_solver. }
  cbn [mbind option_bind]. apply IH.
  - intros q e' c Hq He' Hc. simpl in He'. rewrite talloc_free_ctx_entries in He'.
    apply lookup_delete_Some in He' as [Hne He']. simpl.
    assert (Hin : c ∈ ctxs h) by (eapply Hlive; [|done|done]; set_solver).
    destruct (entry_ctx e) as [c0|] eqn:Hc0; simpl; [|done].
    apply elem_of_difference. split; [done|]. intros Heq%elem_of_singleton. subst c0.
    apply Hne. eapply (Honce p q); [set_solver|set_solver|done|done|done|done].
  - intros q q' e1 e2 c Hq Hq' He1 He2 Hc1 Hc2. simpl in He1, He2.
    rewrite talloc_free_ctx_entries in He1, He2.
    apply lookup_delete_Some in He1 as [_ He1]. apply lookup_delete_Some in He2 as [_ He2].
    eapply (Honce q q'); [set_solver|set_solver|done|done|done|done].
Qed.

Lemma free_entries_checked_inv l : ∀ h h',
  NoDup l → free_entries_checked h l = Some h' → ctxs_live h l ∧ ctxs_once h l.
Proof.
  induction l as [|p l IH]; intros h h' Hnd Hf.
  - split; [intros ? ? ? Hin|intros ? ? ? ? ? Hin]; by apply elem_of_nil in Hin.
  - apply NoDup_cons in Hnd as [Hp Hnd]. simpl in Hf.
    destruct (talloc_free_entry_checked h p) as [h1|] eqn:Hfp; [|done].
    cbn [mbind option_bind] in Hf.
    destruct (IH h1 h' Hnd Hf) as [Hlive1 Honce1].
    unfold talloc_free_entry_checked in Hfp.
    destruct (entries h !! p) as [e|] eqn:He; [|done]. cbn [mbind option_bind] in Hfp.
    destruct (talloc_free_checked h (entry_ctx e)) as [h0|] eqn:Hf0; [|done].
    cbn [mbind option_bind] in Hfp. injection Hfp as <-.
    assert (Hpc : ∀ c, entry_ctx e = Some c → c ∈ ctxs h).
    { intros c Hc. rewrite Hc in Hf0. unfold talloc_free_checked in Hf0.
      by case_decide. }
    apply talloc_free_checked_Some in Hf0 as ->.
    assert (Hent : ∀ q e', q ∈ l → entries h !! q = Some e' →
              entries (mk_talloc (delete p (entries (talloc_free_ctx h (entry_ctx e))))
                                 (ctxs (talloc_free_ctx h (entry_ctx e)))
                                 (brk (talloc_free_ctx h (entry_ctx e)))) !! q = Some e').
    { intros q e' Hq He'. simpl. rewrite talloc_free_ctx_entries.
      apply lookup_delete_Some. split; [|done]. intros <-. done. }
    assert (Hsub : ∀ q e' c, q ∈ l → entries h !! q = Some e' → entry_ctx e' = Some c →
              c ∈ ctxs h ∧ entry_ctx e ≠ Some c).
    { intros q e' c Hq He' Hc.
      pose proof (Hlive1 q e' c Hq (Hent q e' Hq He') Hc) as Hin. simpl in Hin.
      destruct (entry_ctx e) as [c0|]; simpl in Hin; [|done].
      apply elem_of_difference in Hin as [Hin Hne]. split; [done|].
      intros [= ->]. apply Hne. by apply elem_of_singleton. }
    split.
    + intros q e' c Hq He' Hc. apply elem_of_cons in Hq as [->|Hq].
      * rewrite He in He'. injection He' as <-. by apply Hpc.
      * by destruct (Hsub q e' c Hq He' Hc).
    + intros q q' e1 e2 c Hq Hq' He1 He2 Hc1 Hc2.
      apply elem_of_cons in Hq as [->|Hq]; apply elem_of_cons in Hq' as [->|Hq'].
      * done.
      * rewrite He in He1. injection He1 as <-.
        by destruct (Hsub q' e2 c Hq' He2 Hc2) as [_ Hne].
      * rewrite He in He2. injection He2 as <-.
        by destruct (Hsub q e1 c Hq He1 Hc1) as [_ Hne].
      * eapply (Honce1 q q'); [done|done|by apply Hent|by apply Hent|done|done].
Qed.

Lemma ctx_wf_live h s : ctx_wf h s → ctxs_live h (state_to_expire s).
Proof.
  intros [Hl _] p e c Hp He Hc. apply Hl. apply elem_of_owned_ctxs. eauto.
Qed.

Lemma ctx_wf_once h s : ctx_wf h s → ctxs_once h (state_to_expire s).
Proof. intros [_ Ho]. exact Ho. Qed.

Lemma ctx_wf_intro h s :
  ctxs_live h (state_to_expire s) → ctxs_once h (state_to_expire s) → ctx_wf h s.
Proof.
  intros Hl Ho. split; [|exact Ho].
  intros c Hc. apply elem_of_owned_ctxs in Hc as (p & e & Hp & He & Hc). eauto.
Qed.

End checked.

(** * The destructor of the state tree *)

Section tree_free.

Context {platform : Platform}.

(** The loop of [_state_tree_free]: as long as the expiry queue has a
    head, the head is unlinked and freed.  [fuel] bounds the number of
    rounds; [None] is an abort of [state_entry_unlink] or of
    [talloc_free], or the fuel used up. *)
Fixpoint state_tree_free_loop (fuel : nat) (h : talloc) (state : fr_state_tree_t)
  : option (talloc * fr_state_tree_t) :=
  match state_to_expire state with
  | [] => Some (h, state)
  | entry :: _ =>
      match fuel with
      | O => None
      | S fuel =>
          state' ← state_entry_unlink h state entry;
          h' ← talloc_free_entry_checked h entry;
          state_tree_free_loop fuel h' state'
      end
  end.

(** [_state_tree_free]; the nodes of the rbtree are not part of the heap
    of the model, so freeing the rbtree leaves the heap as the loop left
    it. *)
Definition state_tree_free (fuel : nat) (h : talloc) (state : fr_state_tree_t)
  : option talloc :=
  '(h, _) ← state_tree_free_loop fuel h state; Some h.

Lemma filter_head_NoDup (p : N) (l : list N) :
  NoDup (p :: l) → filter (λ q, q ∉ [p]) (p :: l) = l.
Proof.
  intros Hnd. apply NoDup_cons in Hnd as [Hp _].
  rewrite filter_cons_False by set_solver.
  induction l as [|x l IH]; [done|].
  rewrite filter_cons_True by set_solver. f_equal. apply IH. set_solver.
Qed.

(** The loop frees the members of the queue in their order, and aborts
    where that aborts. *)
Lemma state_tree_free_loop_spec fuel : ∀ h s,
  state_wf h s → (length (state_to_expire s) ≤ fuel)%nat →
  match free_entries_checked h (state_to_expire s) with
  | Some h' =>
      ∃ s', state_tree_free_loop fuel h s = Some (h', s') ∧
            unlinked (state_to_expire s) s s' ∧ state_wf h' s'
  | None => state_tree_free_loop fuel h s = None
  end.
Proof.
  induction fuel as [|fuel IH]; intros h s Hwf Hlen.
  - destruct (state_to_expire s) as [|p l] eqn:Hq; [|simpl in Hlen; lia].
    simpl. exists s. rewrite Hq. split; [done|]. split; [|done].
    rewrite <- Hq at 1. rewrite Hq. apply unlinked_nil.
  - destruct (state_to_expire s) as [|p l] eqn:Hq.
    + simpl. exists s. rewrite Hq. split; [done|]. split; [|done]. apply unlinked_nil.
    + assert (Hp : p ∈ state_to_expire s) by (rewrite Hq; set_solver).
      destruct (state_entry_unlink_spec h s p Hwf Hp) as (s1 & Hunlink & Hu).
      cbn [free_entries_checked state_tree_free_loop]. rewrite Hq, Hunlink.
      cbn [mbind option_bind].
      destruct (talloc_free_entry_checked h p) as [h1|] eqn:Hfc;
        cbn [mbind option_bind]; [|done].
      pose proof (talloc_free_entry_checked_Some _ _ _ Hfc) as Hfree1.
      destruct (free_entries_spec [p] h) as (h1' & Hfree & Hfr).
      { apply NoDup_singleton. }
      { intros q Hin. apply list_elem_of_singleton in Hin as ->.
        destruct Hwf as [Ht Hqu _ _ _]. apply Hqu in Hp as [k Hk].
        destruct (Ht _ _ Hk) as (e & He & _). eauto. }
      simpl in Hfree. rewrite Hfree1 in Hfree. injection Hfree as <-.
      assert (Hq1 : state_to_expire s1 = l).
      { destruct Hu as (-> & _). rewrite Hq. apply filter_head_NoDup.
        rewrite <- Hq. apply Hwf. }
      assert (Hwf1 : state_wf h1 s1).
      { eapply freed_wf; [by eapply unlinked_wf|done|].
        intros q Hin. apply list_elem_of_singleton in Hin as ->.
        rewrite Hq1. pose proof (wf_nodup _ _ Hwf) as Hnd. rewrite Hq in Hnd.
        by apply NoDup_cons in Hnd as [? _]. }
      specialize (IH h1 s1 Hwf1). rewrite Hq1 in IH.
      destruct (free_entries_checked h1 l) as [h'|].
      * destruct IH as (s' & Hloop & Hu' & Hwf'); [simpl in Hlen; lia|].
        exists s'. split; [done|]. split; [|done].
        by apply (unlinked_trans [p] l s s1 s').
      * apply IH. simpl in Hlen. lia.
Qed.

(** X1.  [_state_tree_free] on a well-formed store.  Where every state
    context an entry of the queue owns is live and has one owner, the loop
    ends after as many rounds as the expiry queue has members, it does not
    abort, and it leaves the queue and the tree empty; every entry of the
    tree is freed, and with it the state context it owns; every other
    address of the heap, and every context no entry of the tree owns, is
    as it was.  Where an entry of the queue owns a context that is not
    live, or two entries own the same one, the destructor aborts: the
    second [talloc_free] of the context does. *)
Theorem state_tree_free_frees_all h s fuel :
  state_wf h s → (length (state_to_expire s) ≤ fuel)%nat →
  (ctx_wf h s →
   ∃ h' s',
     state_tree_free_loop fuel h s = Some (h', s') ∧
     state_tree_free fuel h s = Some h' ∧
     state_to_expire s' = [] ∧ state_tree s' = ∅ ∧
     (∀ k p, state_tree s !! k = Some p → entries h' !! p = None) ∧
     (∀ p, p ∉ state_to_expire s → entries h' !! p = entries h !! p) ∧
     (∀ c, c ∈ ctxs h' ↔
           c ∈ ctxs h ∧
           ¬ ∃ p e, p ∈ state_to_expire s ∧ entries h !! p = Some e ∧
                    entry_ctx e = Some c)) ∧
  (¬ ctx_wf h s →
   state_tree_free_loop fuel h s = None ∧ state_tree_free fuel h s = None).
Proof.
  intros Hwf Hlen.
  pose proof (state_tree_free_loop_spec fuel h s Hwf Hlen) as Hspec.
  split.
  - intros Hcx.
    rewrite (free_entries_checked_eq _ _ (ctx_wf_live _ _ Hcx) (ctx_wf_once _ _ Hcx))
      in Hspec.
    destruct (free_entries_spec (state_to_expire s) h) as (h' & Hfree & Hent & Hctx & _).
    { apply Hwf. }
    { intros p Hp. destruct Hwf as [Ht Hqu _ _ _]. apply Hqu in Hp as [k Hk].
      destruct (Ht _ _ Hk) as (e & He & _). eauto. }
    rewrite Hfree in Hspec. destruct Hspec as (s' & Hloop & Hu & Hwf').
    assert (Hempty : state_tree s' = ∅).
    { apply map_empty. intros k. destruct (state_tree s' !! k) as [p|] eqn:Hk; [|done].
      destruct Hu as (_ & Ht & _). apply Ht in Hk as [Hk Hp].
      destruct Hp. apply Hwf. eauto. }
    exists h', s'. split_and!.
    + exact Hloop.
    + unfold state_tree_free. rewrite Hloop. done.
    + destruct (state_to_expire s') as [|p l] eqn:Hq'; [done|].
      assert (Hp : p ∈ state_to_expire s') by (rewrite Hq'; set_solver).
      apply Hwf' in Hp as [k Hk]. rewrite Hempty, lookup_empty in Hk. done.
    + exact Hempty.
    + intros k p Hk. rewrite Hent. rewrite decide_True; [done|]. apply Hwf. eauto.
    + intros p Hp. rewrite Hent. by rewrite decide_False.
    + exact Hctx.
  - intros Hcx.
    destruct (free_entries_checked h (state_to_expire s)) as [h'|] eqn:Hf.
    + destruct Hcx.
      destruct (free_entries_checked_inv _ _ _ (wf_nodup _ _ Hwf) Hf) as [Hl Ho].
      by apply ctx_wf_intro.
    + unfold state_tree_free. rewrite Hspec. done.
Qed.

End tree_free.

(** * What one call changes *)

Section effects.

Context {platform : Platform}.

(** The entries [state_entry_create] takes out of the store: those the
    sweep unlinks, and the old entry when it holds no request data. *)
Definition removed (h : talloc) (old : option N) (lead : list N) : list N :=
  swept old lead ++ old_unlinked h old.

(** [e] is an entry as [state_entry_create] files it. *)
Definition fresh_entry (s : fr_state_tree_t) (now : Z) (e : fr_state_entry_t) : Prop :=
  entry_id e = state_id s ∧ entry_cleanup e = now + u32 (state_timeout s) ∧
  entry_seq_start e = 0 ∧ entry_ctx e = None ∧ entry_vps e = [] ∧ entry_data e = [] ∧
  entry_thawed e = None.

Lemma create_effect h s request packet old now rnd h' s' packet' res :
  state_wf h s → old_linked s old →
  state_entry_create h s request packet old now rnd = Some (h', s', packet', res) →
  ∃ lead rest,
    sweep_split h old now (state_to_expire s) lead rest ∧
    state_wf h' s' ∧
    state_to_expire s'
    = filter (λ p, p ∉ removed h old lead) (state_to_expire s) ++ created_entry res ∧
    (∀ q, q ∈ removed h old lead → q ∈ state_to_expire s ∧ entries h' !! q = None) ∧
    (∀ q, q ∉ removed h old lead → q ≠ brk h → entries h' !! q = entries h !! q) ∧
    (∀ q, res = Created q →
          q = brk h ∧
          ∃ e, entries h' !! q = Some e ∧ fresh_entry s now e ∧
               state_tree s' !! entry_state e = Some q) ∧
    (res ≠ Created (brk h) → entries h' !! brk h = None) ∧
    state_timed_out s' = u64 (state_timed_out s + Z.of_nat (length (swept old lead))) ∧
    (size (state_tree s') + length (removed h old lead)
     = size (state_tree s) + length (created_entry res))%nat ∧
    (state_max_sessions s' = state_max_sessions s ∧ state_timeout s' = state_timeout s ∧
     state_server_id s' = state_server_id s ∧ state_da s' = state_da s) ∧
    (∀ c, c ∈ ctxs h' ↔
          c ∈ ctxs h ∧
          ¬ ∃ p e, p ∈ removed h old lead ∧ entries h !! p = Some e ∧ entry_ctx e = Some c) ∧
    (res = TooMany ↔ too_many s old (length (swept old lead))).
Proof.
  intros Hwf Hold Hcreate.
  destruct (state_entry_create_spec h s request packet old now rnd Hwf Hold)
    as (lead & rest & s1 & h1 & Hsplit & Hu & Hfr & Hwf1 & Hspec).
  rewrite Hcreate in Hspec. injection Hspec as Hspec.
  pose proof (unlinked_fields _ _ _ Hu) as (Hid & Hto & Hmax & Htmo & Hsid & Hda).
  simpl in Hid, Hto, Hmax, Htmo, Hsid, Hda.
  destruct Hu as (Hq1 & Ht1 & Hsz1 & _). simpl in Hq1, Ht1, Hsz1.
  destruct Hfr as (He1 & Hc1 & Hb1).
  fold (removed h old lead) in Hq1, Ht1, Hsz1, He1, Hc1.
  assert (Hbrk_none : entries h !! brk h = None).
  { destruct (entries h !! brk h) eqn:Hb; [|done].
    pose proof (wf_brk _ _ Hwf (brk h) (mk_is_Some _ _ Hb)). lia. }
  assert (HR : ∀ q, q ∈ removed h old lead → q ∈ state_to_expire s).
  { intros q Hq. unfold removed in Hq. apply elem_of_app in Hq as [Hq|Hq].
    - apply list_elem_of_filter in Hq as [_ Hq]. destruct Hsplit as (-> & _). set_solver.
    - unfold old_unlinked in Hq. destruct old as [o|]; [|set_solver].
      destruct (entries h !! o) as [eo|]; [|set_solver].
      case_decide; [|set_solver]. apply list_elem_of_singleton in Hq as ->. by apply Hold. }
  exists lead, rest. split; [done|].
  case_decide as Htm.
  - injection Hspec as -> -> -> ->. simpl. rewrite app_nil_r.
    split_and!; try done.
    + intros q Hq. split; [by apply HR|]. rewrite He1. by rewrite decide_True.
    + intros q Hq _. rewrite He1. by rewrite decide_False.
    + intros _. rewrite He1. case_decide; done.
    + lia.
  - destruct (insert_new_entry_cases h1 s1 request packet old (old_tries_of h old)
                (old_state_of h old) now rnd) as (key & tries & pk & Hnew & Hins).
    cbn zeta in Hins. rewrite Hins in Hspec. clear Hins.
    assert (Hwf' : state_wf h' s').
    { pose proof (state_entry_create_wf_match h s request packet old now rnd Hwf Hold) as Hm.
      by rewrite Hcreate in Hm. }
    split; [done|].
    destruct (state_tree s1 !! _) as [q0|] eqn:Hk; injection Hspec as -> -> -> ->; simpl.
    + rewrite app_nil_r. split_and!; try done.
      * intros q Hq. split; [by apply HR|]. rewrite He1. by rewrite decide_True.
      * intros q Hq _. rewrite He1. by rewrite decide_False.
      * intros _. rewrite He1. case_decide; done.
      * lia.
    + rewrite Hb1. split_and!; try done.
      * by rewrite Hq1.
      * intros q Hq. split; [by apply HR|].
        rewrite lookup_insert_ne.
        -- rewrite He1. by rewrite decide_True.
        -- intros <-. pose proof (queue_below_brk h s _ Hwf (HR _ Hq)). lia.
      * intros q Hq Hne. rewrite lookup_insert_ne by done. rewrite He1.
        by rewrite decide_False.
      * intros q [= <-]. split; [done|]. eexists. split; [apply lookup_insert_eq|].
        split; [|simpl; apply lookup_insert_eq].
        unfold fresh_entry, new_entry. simpl. rewrite Hid, Htmo. done.
      * rewrite map_size_insert_None by done. simpl. lia.
Qed.

End effects.

Section effects_api.

Context {platform : Platform}.

(** The ways [fr_request_to_state] returns. *)
Lemma request_to_state_inv h s request now rnd h' s' request' ret res :
  request_to_state h s request now rnd = Some (h', s', request', ret, res) →
  (nothing_to_save request ∧ h' = h ∧ s' = s ∧ request' = detached request ∧
   ret = 0 ∧ res = None) ∨
  (¬ nothing_to_save request ∧
   ∃ h1 reply cres,
     save_create h s request now rnd = Some (h1, s', reply, cres) ∧ res = Some cres ∧
     (((∀ p, cres ≠ Created p) ∧ h' = h1 ∧ ret = -1 ∧
       request' = request_data_restore (set_request_reply reply (detached request))
                                       (persistable request)) ∨
      (∃ p e c,
         cres = Created p ∧ entries h1 !! p = Some e ∧ entry_ctx e = None ∧
         request_state_ctx request = Some c ∧ ret = 0 ∧
         h' = mk_talloc
                (<[p := freeze_entry (set_request_reply reply (detached request))
                                     (persistable request) e]> (entries h1))
                (ctxs h1) (brk h1) ∧
         request' = set_request_session None []
                      (set_request_reply reply (detached request))))).
Proof.
  rewrite request_to_state_unfold. case_decide as Hn.
  - intros [= <- <- <- <- <-]. left. done.
  - destruct (save_create h s request now rnd) as [[[[h1 s1] reply] cres]|] eqn:Hsave;
      [|done].
    cbn [mbind option_bind]. intros Hres. right. split; [done|].
    exists h1, reply, cres.
    destruct cres as [p| |].
    + destruct (entries h1 !! p) as [e|] eqn:He; [|done]. cbn [mbind option_bind] in Hres.
      case_decide as Hd; [|done]. destruct Hd as [Hctx Hrctx].
      injection Hres as <- <- <- <- <-.
      destruct (request_state_ctx request) as [c|] eqn:Hc; [|by destruct Hrctx].
      split; [done|]. split; [done|]. right. exists p, e, c. done.
    + injection Hres as <- <- <- <- <-. split; [done|]. split; [done|]. left. done.
    + injection Hres as <- <- <- <- <-. split; [done|]. split; [done|]. left. done.
Qed.

(** The ways [fr_state_to_request] returns. *)
Lemma fr_state_to_request_inv h s request h' request' :
  fr_state_to_request h s request = Some (h', request') →
  request_state request = [] ∧
  ((h' = h ∧ request_state request' = [] ∧
    request_state_ctx request' = request_state_ctx request ∧
    request_data request' = request_data request) ∨
   (∃ vp p e c,
      fr_pair_find_by_da (request_packet request) (state_da s) = Some vp ∧
      state_entry_find s request (vp_octets vp) = Some p ∧
      entries h !! p = Some e ∧ entry_thawed e = None ∧ entry_ctx e = Some c ∧
      h' = talloc_free_ctx
             (mk_talloc (<[p := thaw_entry request e]> (entries h)) (ctxs h) (brk h))
             (request_state_ctx request) ∧
      request' = restored request e c)).
Proof.
  unfold fr_state_to_request. case_decide as Hst; [|done]. intros Hres.
  split; [done|].
  destruct (fr_pair_find_by_da _ _) as [vp|] eqn:Hvp.
  - destruct (state_entry_find s request (vp_octets vp)) as [p|] eqn:Hfind.
    + destruct (entries h !! p) as [e|] eqn:He; [|done]. cbn [mbind option_bind] in Hres.
      destruct (entry_thawed e) as [r|] eqn:Hth.
      * injection Hres as <- <-. left. done.
      * destruct (entry_ctx e) as [c|] eqn:Hc; [|done].
        injection Hres as <- <-. right. exists vp, p, e, c. done.
    + injection Hres as <- <-. left. done.
  - injection Hres as <- <-. left. case_decide; done.
Qed.

(** The ways [fr_state_discard] returns. *)
Lemma fr_state_discard_inv h s request h' s' request' :
  state_wf h s →
  fr_state_discard h s request = Some (h', s', request') →
  (h' = h ∧ s' = s ∧ request' = request ∧
   ∀ vp, fr_pair_find_by_da (request_packet request) (state_da s) = Some vp →
         state_entry_find s request (vp_octets vp) = None) ∨
  (∃ vp p h1,
     fr_pair_find_by_da (request_packet request) (state_da s) = Some vp ∧
     state_entry_find s request (vp_octets vp) = Some p ∧
     unlinked [p] s s' ∧ freed [p] h h1 ∧ state_wf h1 s' ∧
     h' = (talloc_init (talloc_free_ctx h1 (request_state_ctx request))).1 ∧
     request' = set_request_session (Some (brk h)) [] request).
Proof.
  intros Hwf Hres.
  destruct (fr_pair_find_by_da (request_packet request) (state_da s)) as [vp|] eqn:Hvp.
  - destruct (state_entry_find s request (vp_octets vp)) as [p|] eqn:Hfind.
    + destruct (fr_state_discard_found _ _ _ _ _ Hwf Hvp Hfind)
        as (s1 & h1 & Hu & Hfr & Hwf1 & Heq).
      rewrite Heq in Hres. injection Hres as <- <- <-.
      right. exists vp, p, h1. done.
    + rewrite fr_state_discard_not_found in Hres by (intros ? ?; congruence).
      injection Hres as <- <- <-. left. split_and!; try done. intros ? ?. congruence.
  - rewrite fr_state_discard_not_found in Hres by (intros ? ?; congruence).
    injection Hres as <- <- <-. left. split_and!; try done.
Qed.

End effects_api.

(** What stays of an entry as long as it lives. *)
Definition same_identity (e e' : fr_state_entry_t) : Prop :=
  entry_id e' = entry_id e ∧ entry_state e' = entry_state e ∧
  entry_cleanup e' = entry_cleanup e ∧ entry_tries e' = entry_tries e.

Section step_effect.

Context {platform : Platform}.

Lemma live_below_brk h s q e : state_wf h s → entries h !! q = Some e → (q < brk h)%N.
Proof. intros Hwf He. apply (wf_brk _ _ Hwf). eauto. Qed.

(** One call from outside: the entries [gone] leave the queue and the
    heap, a successful save appends the entry it has filed, and every
    other entry stays where it was, changed at most by being thawed. *)
Lemma api_step_effect h s c h' s' res :
  state_wf h s → api_step h s c = Some (h', s', res) →
  ∃ gone : list N,
    (∀ q, q ∈ gone → q ∈ state_to_expire s ∧ entries h' !! q = None) ∧
    state_to_expire s'
    = filter (λ p, p ∉ gone) (state_to_expire s) ++ from_option created_entry [] res ∧
    (∀ q e, q ∉ gone → entries h !! q = Some e →
       ∃ e', entries h' !! q = Some e' ∧ same_identity e e' ∧
             (e' = e ∨
              ∃ r, c = CallRestore r ∧ e' = thaw_entry r e ∧ entry_thawed e = None ∧
                   find_old s r = Some q)) ∧
    (∀ q, res = Some (Created q) →
       ∃ r now rnd e' ctx,
         c = CallSave r now rnd ∧ q = brk h ∧ entries h' !! q = Some e' ∧
         entry_id e' = state_id s ∧ entry_cleanup e' = now + u32 (state_timeout s) ∧
         request_state_ctx r = Some ctx ∧ entry_ctx e' = Some ctx ∧
         entry_vps e' = request_state r ∧ entry_data e' = persistable r ∧
         entry_seq_start e' = request_seq_start r ∧ entry_thawed e' = None ∧
         state_tree s' !! entry_state e' = Some q) ∧
    state_max_sessions s' = state_max_sessions s ∧ state_timeout s' = state_timeout s ∧
    state_server_id s' = state_server_id s ∧ state_da s' = state_da s ∧
    (∀ q, entries h !! q = None → res ≠ Some (Created q) → entries h' !! q = None) ∧
    (∀ q, q ∈ gone →
       (∃ r now rnd, c = CallSave r now rnd ∧ (find_old s r = Some q ∨ expired h now q)) ∨
       (∃ r, c = CallDiscard r ∧ find_old s r = Some q)).
Proof.
  intros Hwf Hstep.
  assert (Hlive : ∀ q, q ∈ state_to_expire s → is_Some (entries h !! q)).
  { intros q Hin. destruct (wf_queue _ _ Hwf q) as [Hk _]. destruct (Hk Hin) as [k Hkq].
    destruct (wf_tree _ _ Hwf _ _ Hkq) as (e & He & _). eauto. }
  assert (Hkeep : ∃ gone : list N,
            (∀ q, q ∈ gone → q ∈ state_to_expire s ∧ entries h !! q = None) ∧
            state_to_expire s = filter (λ p, p ∉ gone) (state_to_expire s) ++ [] ∧
            (∀ q e, q ∉ gone → entries h !! q = Some e →
               ∃ e', entries h !! q = Some e' ∧ same_identity e e' ∧
                     (e' = e ∨
                      ∃ r, c = CallRestore r ∧ e' = thaw_entry r e ∧ entry_thawed e = None ∧
                           find_old s r = Some q)) ∧
            (∀ q, q ∈ gone →
               (∃ r now rnd, c = CallSave r now rnd ∧
                             (find_old s r = Some q ∨ expired h now q)) ∨
               (∃ r, c = CallDiscard r ∧ find_old s r = Some q))).
  { exists []. split; [set_solver|]. split; [by rewrite app_nil_r, filter_not_in_nil|].
    split; [|intros q Hq; by apply elem_of_nil in Hq].
    intros q e _ He. exists e. split; [done|]. split; [done|]. by left. }
  destruct c as [r|r now rnd|r]; simpl in Hstep.
  - (* fr_state_to_request *)
    destruct (fr_state_to_request h s r) as [[h1 r1]|] eqn:Hres; [|done].
    injection Hstep as <- <- <-.
    destruct (fr_state_to_request_inv _ _ _ _ _ Hres)
      as [_ [(-> & _)|(vp & p & e0 & c0 & Hvp & Hfind & He0 & Hth & Hc0 & -> & _)]].
    + destruct Hkeep as (gone & H1 & H2 & H3 & H4). exists gone. split_and!; try done.
    + exists []. split; [set_solver|].
      split; [by rewrite app_nil_r, filter_not_in_nil|].
      assert (Hkept : ∀ q e, q ∉ [] → entries h !! q = Some e →
                ∃ e', entries
                        (talloc_free_ctx
                           (mk_talloc (<[p := thaw_entry r e0]> (entries h)) (ctxs h) (brk h))
                           (request_state_ctx r)) !! q = Some e' ∧
                      same_identity e e' ∧
                      (e' = e ∨
                       ∃ r0, CallRestore r = CallRestore r0 ∧ e' = thaw_entry r0 e ∧
                             entry_thawed e = None ∧ find_old s r0 = Some q)).
      { intros q e _ He. rewrite talloc_free_ctx_entries. simpl.
        destruct (decide (q = p)) as [->|Hne].
        - rewrite lookup_insert_eq. rewrite He0 in He. injection He as <-.
          exists (thaw_entry r e0). split; [done|]. split; [done|]. right. exists r.
          split_and!; try done. unfold find_old. by rewrite Hvp.
        - rewrite lookup_insert_ne by done. exists e. split; [done|]. split; [done|].
          by left. }
      split; [exact Hkept|]. split; [done|]. split_and!; try done.
      * intros q Hq _. rewrite talloc_free_ctx_entries. simpl.
        rewrite lookup_insert_ne; [done|]. intros <-. congruence.
      * intros q Hq. by apply elem_of_nil in Hq.
  - (* fr_request_to_state *)
    destruct (request_to_state h s r now rnd) as [[[[[h1 s1] r1] ret] res1]|] eqn:Hres;
      [|done].
    injection Hstep as <- <- <-.
    destruct (request_to_state_inv _ _ _ _ _ _ _ _ _ _ Hres)
      as [(_ & -> & -> & _ & _ & ->)|(Hn & h2 & reply & cres & Hsave & -> & Hcases)].
    + destruct Hkeep as (gone & H1 & H2 & H3 & H4). exists gone. split_and!; try done.
    + unfold save_create in Hsave.
      assert (Hold : old_linked s (find_old s r)) by by eapply find_old_linked.
      destruct (create_effect _ _ _ _ _ _ _ _ _ _ _ Hwf Hold Hsave)
        as (lead & rest & (_ & Hlead & _) & Hwf2 & Hq & Hgone & Hframe & Hnew & Hbrk & _ & _
            & (Hmax & Htmo & Hsid & Hda) & _ & _).
      assert (Hwhy : ∀ q, q ∈ removed h (find_old s r) lead →
                (∃ r0 now0 rnd0, CallSave r now rnd = CallSave r0 now0 rnd0 ∧
                                 (find_old s r0 = Some q ∨ expired h now0 q)) ∨
                (∃ r0, CallSave r now rnd = CallDiscard r0 ∧ find_old s r0 = Some q)).
      { intros q Hin. left. exists r, now, rnd. split; [done|].
        unfold removed in Hin. apply elem_of_app in Hin as [Hin|Hin].
        - apply list_elem_of_filter in Hin as [Hne Hin]. rewrite Forall_forall in Hlead.
          destruct (Hlead q Hin) as [?|?]; [done|by right].
        - left. unfold old_unlinked in Hin.
          destruct (find_old s r) as [o|]; [|by apply elem_of_nil in Hin].
          destruct (entries h !! o) as [eo|]; [|by apply elem_of_nil in Hin].
          case_decide; [|by apply elem_of_nil in Hin].
          by apply list_elem_of_singleton in Hin as ->. }
      assert (Hdead : ∀ q, entries h !! q = None → q ∉ removed h (find_old s r) lead).
      { intros q Hnone Hin. destruct (Hgone q Hin) as [Hin' _].
        destruct (Hlive q Hin') as [e He]. congruence. }
      exists (removed h (find_old s r) lead).
      destruct Hcases as [(Hnc & -> & _)|(p & e & c & -> & He & Hctx & Hrc & _ & -> & _)].
      * split_and!; try done.
        -- intros q e Hq' He. exists e. split; [|split; [done|by left]].
           rewrite Hframe; [done|done|]. pose proof (live_below_brk _ _ _ _ Hwf He). lia.
        -- intros q [= ->]. by destruct (Hnc q).
        -- intros q Hnone _. destruct (decide (q = brk h)) as [->|Hne].
           ++ apply Hbrk. apply Hnc.
           ++ rewrite Hframe; [done|by apply Hdead|done].
      * destruct (Hnew p eq_refl) as (-> & e1 & He1 & Hfresh & Htree).
        rewrite He in He1. injection He1 as <-.
        destruct Hfresh as (Hid & Hcl & Hss & _ & Hvps & Hdata & Hth).
        split_and!; try done.
        -- intros q Hq'. destruct (Hgone q Hq') as [Hin Hnone]. split; [done|]. simpl.
           rewrite lookup_insert_ne; [done|].
           intros <-. pose proof (queue_below_brk _ _ _ Hwf Hin). lia.
        -- intros q e' Hq' He'. pose proof (live_below_brk _ _ _ _ Hwf He').
           exists e'. split; [|split; [done|by left]]. simpl.
           rewrite lookup_insert_ne by lia. rewrite Hframe; [done|done|lia].
        -- intros q [= <-]. eexists r, now, rnd, _, c. split; [done|]. split; [done|].
           split; [simpl; apply lookup_insert_eq|]. simpl. rewrite Hdata.
           split_and!; try done.
        -- intros q Hnone Hne. simpl.
           assert (q ≠ brk h) by (intros ->; by apply Hne).
           rewrite lookup_insert_ne by done.
           rewrite Hframe; [done|by apply Hdead|done].
  - (* fr_state_discard *)
    destruct (fr_state_discard h s r) as [[[h1 s1] r1]|] eqn:Hres; [|done].
    injection Hstep as <- <- <-.
    destruct (fr_state_discard_inv _ _ _ _ _ _ Hwf Hres)
      as [(-> & -> & _)|(vp & p & h2 & Hvp & Hfind & Hu & Hfr & Hwf2 & -> & _)].
    + destruct Hkeep as (gone & H1 & H2 & H3 & H4). exists gone. split_and!; try done.
    + pose proof (unlinked_fields _ _ _ Hu) as (_ & _ & Hmax & Htmo & Hsid & Hda).
      destruct Hu as (Hq & _). destruct Hfr as (He2 & _ & _).
      exists [p]. simpl. rewrite talloc_free_ctx_entries.
      split_and!; try done.
      * intros q Hq'. apply list_elem_of_singleton in Hq' as ->.
        split; [by eapply found_linked|]. rewrite He2. by rewrite decide_True by set_solver.
      * by rewrite app_nil_r.
      * intros q e Hq' He. exists e. split; [|split; [done|by left]].
        rewrite He2. by rewrite decide_False.
      * intros q Hnone _. rewrite He2. case_decide; done.
      * intros q Hq'. apply list_elem_of_singleton in Hq' as ->. right. exists r.
        split; [done|]. unfold find_old. by rewrite Hvp.
Qed.

End step_effect.

(** * Invariants of the calls from outside *)

Section invariants.

Context {platform : Platform}.

(** An entry of the queue that no request has thawed owns a state
    context: what [rad_assert(entry->ctx)] in [fr_state_to_request]
    checks. *)
Definition owned_or_thawed (h : talloc) (s : fr_state_tree_t) : Prop :=
  ∀ p e, p ∈ state_to_expire s → entries h !! p = Some e →
         entry_thawed e = None → is_Some (entry_ctx e).

Lemma api_step_owned h s c h' s' res :
  state_wf h s → owned_or_thawed h s → api_step h s c = Some (h', s', res) →
  owned_or_thawed h' s'.
Proof.
  intros Hwf Hown Hstep.
  destruct (api_step_effect _ _ _ _ _ _ Hwf Hstep)
    as (gone & Hgone & Hq & Hkeep & Hnew & _).
  intros p e' Hp He' Hth. rewrite Hq in Hp. apply elem_of_app in Hp as [Hp|Hp].
  - apply list_elem_of_filter in Hp as [Hng Hp].
    destruct (wf_queue _ _ Hwf p) as [Hk _]. destruct (Hk Hp) as [k Hkp].
    destruct (wf_tree _ _ Hwf _ _ Hkp) as (e & He & _).
    destruct (Hkeep p e Hng He) as (e'' & He'' & _ & Hor).
    rewrite He' in He''. injection He'' as <-.
    destruct Hor as [->|(r & _ & -> & _)]; [by eapply Hown|done].
  - destruct res as [[q| |]|]; simpl in Hp; try by apply elem_of_nil in Hp.
    apply list_elem_of_singleton in Hp as ->.
    destruct (Hnew q eq_refl) as (r & now & rnd & e'' & ctx & _ & _ & He'' & _ & _ & _
                                  & Hctx & _).
    rewrite He' in He''. injection He'' as <-. rewrite Hctx. eauto.
Qed.

Lemma api_run_inv calls : ∀ h s h' s' trace,
  state_wf h s → owned_or_thawed h s →
  api_run h s calls = Some (h', s', trace) →
  state_wf h' s' ∧ owned_or_thawed h' s'.
Proof.
  induction calls as [|c calls IH]; intros h s h' s' trace Hwf Hown Hrun.
  - injection Hrun as <- <- _. done.
  - simpl in Hrun.
    destruct (api_step h s c) as [[[h1 s1] res]|] eqn:Hstep; [|done].
    cbn [mbind option_bind] in Hrun.
    destruct (api_run h1 s1 calls) as [[[h2 s2] trace2]|] eqn:Hrest; [|done].
    injection Hrun as <- <- _.
    eapply IH; [| |exact Hrest].
    + by eapply api_step_wf.
    + by eapply api_step_owned.
Qed.

Lemma owned_or_thawed_init cs b da max_sessions timeout server_id :
  owned_or_thawed (mk_talloc ∅ cs b) (fr_state_tree_init da max_sessions timeout server_id).
Proof. intros p e Hp. simpl in Hp. by apply elem_of_nil in Hp. Qed.

Lemma tree_key_unique h s k1 k2 p :
  state_wf h s → state_tree s !! k1 = Some p → state_tree s !! k2 = Some p → k1 = k2.
Proof.
  intros Hwf H1 H2.
  destruct (wf_tree _ _ Hwf _ _ H1) as (e1 & He1 & <- & _).
  destruct (wf_tree _ _ Hwf _ _ H2) as (e2 & He2 & <- & _). congruence.
Qed.

(** The queue lists the values of the tree, each once. *)
Lemma queue_length_size h s :
  state_wf h s → length (state_to_expire s) = size (state_tree s).
Proof.
  intros Hwf.
  assert (Hperm : state_to_expire s ≡ₚ (map_to_list (state_tree s)).*2).
  { apply NoDup_Permutation.
    - apply Hwf.
    - apply NoDup_fmap_2_strong; [|apply NoDup_map_to_list].
      intros [k1 p1] [k2 p2] H1 H2 Heq. simpl in Heq. subst p2.
      apply elem_of_map_to_list in H1, H2. f_equal. by eapply tree_key_unique.
    - intros p. rewrite (wf_queue _ _ Hwf p). rewrite list_elem_of_fmap. split.
      + intros [k Hk]. exists (k, p). split; [done|]. by apply elem_of_map_to_list.
      + intros ([k p'] & -> & Hk). exists k. by apply elem_of_map_to_list in Hk. }
  rewrite Hperm, length_fmap. apply length_map_to_list.
Qed.

(** X2.  The store after any sequence of calls of [fr_state_to_request],
    [fr_request_to_state] and [fr_state_discard] on a new tree: the tree
    and the expiry queue hold the same entries, each once, each live and
    filed under its own state value of 16 octets; no live address lies at
    or above the next one the allocator hands out; and every entry that no
    request has thawed owns a state context. *)
Theorem store_invariant cs b da max_sessions timeout server_id calls h' s' trace :
  (∀ c, c ∈ cs → (c < b)%N) →
  api_run (mk_talloc ∅ cs b) (fr_state_tree_init da max_sessions timeout server_id) calls
  = Some (h', s', trace) →
  state_wf h' s' ∧ owned_or_thawed h' s' ∧
  (∀ k1 k2 p, state_tree s' !! k1 = Some p → state_tree s' !! k2 = Some p → k1 = k2) ∧
  length (state_to_expire s') = size (state_tree s').
Proof.
  intros Hcs Hrun.
  destruct (api_run_inv _ _ _ _ _ _ (state_wf_init cs b da max_sessions timeout server_id Hcs)
              (owned_or_thawed_init _ _ _ _ _ _) Hrun) as [Hwf Hown].
  split; [done|]. split; [done|]. split.
  - intros k1 k2 p. by apply (tree_key_unique h' s').
  - by apply (queue_length_size h').
Qed.

End invariants.

(** * The calls from outside, with the talloc_free that aborts *)

Section checked_api.

Context {platform : Platform}.

(** [state_entry_create]. *)
Definition state_entry_create_checked (h : talloc) (state : fr_state_tree_t)
    (request : REQUEST) (packet : list VALUE_PAIR) (old : option ptr) (now : Z)
    (rnd : nat → Z)
  : option (talloc * fr_state_tree_t * list VALUE_PAIR * create_result) :=
  (* Clean up old entries. *)
  '(state, to_free, timed_out) ←
     expire_sweep h old now (state_to_expire state) state [] 0;
  let state := set_timed_out (u64 (state_timed_out state + timed_out)) state in
  let too_many :=
    bool_decide (old = None ∧
                 u32 (state_max_sessions state) ≤ rbtree_num_elements (state_tree state)) in
  (* Record the information from the old state. *)
  '(state, to_free, old_tries, old_state) ← snapshot_old h state old to_free;
  (* Now free the unlinked entries. *)
  h ← free_entries_checked h to_free;
  if too_many then Some (h, state, packet, TooMany)
  else Some (insert_new_entry h state request packet old old_tries old_state now rnd).

(** [fr_state_discard]: [TALLOC_FREE(entry)], then
    [TALLOC_FREE(request->state_ctx)]. *)
Definition fr_state_discard_checked (h : talloc) (state : fr_state_tree_t)
    (request : REQUEST)
  : option (talloc * fr_state_tree_t * REQUEST) :=
  match fr_pair_find_by_da (request_packet request) (state_da state) with
  | None => Some (h, state, request)
  | Some vp =>
      match state_entry_find state request (vp_octets vp) with
      | None => Some (h, state, request)
      | Some entry =>
          state ← state_entry_unlink h state entry;
          h ← talloc_free_entry_checked h entry;
          (* destroy what the request holds, and give it a new context *)
          h ← talloc_free_checked h (request_state_ctx request);
          let '(h, c) := talloc_init h in
          Some (h, state, set_request_session (Some c) [] request)
      end
  end.

(** [fr_state_to_request]: [if (old_ctx) talloc_free(old_ctx)]. *)
Definition fr_state_to_request_checked (h : talloc) (state : fr_state_tree_t)
    (request : REQUEST)
  : option (talloc * REQUEST) :=
  if decide (request_state request = []) then
    match fr_pair_find_by_da (request_packet request) (state_da state) with
    | None =>
        Some (h, if decide (request_seq_start request = 0)
                 then set_request_seq_start (request_number request) request
                 else request)
    | Some vp =>
        match state_entry_find state request (vp_octets vp) with
        | None => Some (h, request)
        | Some entry =>
            e ← entries h !! entry;
            match entry_thawed e with
            | Some _ => Some (h, request)
            | None =>
                let old_ctx := request_state_ctx request in
                match entry_ctx e with
                | None => None
                | Some c =>
                    let request := set_request_seq_start (entry_seq_start e) request in
                    let request := set_request_session (Some c) (entry_vps e) request in
                    let request := request_data_restore request (entry_data e) in
                    let h := mk_talloc (<[entry := thaw_entry request e]> (entries h))
                                       (ctxs h) (brk h) in
                    (* free the context the request came with *)
                    h ← talloc_free_checked h old_ctx;
                    Some (h, request)
                end
            end
        end
    end
  else None.

(** [fr_request_to_state]. *)
Definition request_to_state_checked (h : talloc) (state : fr_state_tree_t)
    (request : REQUEST) (now : Z) (rnd : nat → Z)
  : option (talloc * fr_state_tree_t * REQUEST * Z * option create_result) :=
  let '(data, request) := request_data_by_persistance request true in
  if decide (request_state request = [] ∧ data = []) then Some (h, state, request, 0, None)
  else
    let old := find_old state request in
    '(h, state, reply, res) ←
       state_entry_create_checked h state request (request_reply request) old now rnd;
    let request := set_request_reply reply request in
    match res with
    | Created entry =>
        e ← entries h !! entry;
        if decide (entry_ctx e = None ∧ request_state_ctx request ≠ None) then
          Some (mk_talloc (<[entry := freeze_entry request data e]> (entries h))
                          (ctxs h) (brk h),
                state, set_request_session None [] request, 0, Some res)
        else None
    | _ =>
        (* Put it back again *)
        Some (h, state, request_data_restore request data, -1, Some res)
    end.

Definition fr_request_to_state_checked (h : talloc) (state : fr_state_tree_t)
    (request : REQUEST) (now : Z) (rnd : nat → Z)
  : option (talloc * fr_state_tree_t * REQUEST * Z) :=
  '(h, state, request, ret, _) ← request_to_state_checked h state request now rnd;
  Some (h, state, request, ret).

Definition api_step_checked (h : talloc) (s : fr_state_tree_t) (c : api_call)
  : option (talloc * fr_state_tree_t * option create_result) :=
  match c with
  | CallRestore request =>
      '(h', _) ← fr_state_to_request_checked h s request; Some (h', s, None)
  | CallSave request now rnd =>
      '(h', s', _, _, res) ← request_to_state_checked h s request now rnd;
      Some (h', s', res)
  | CallDiscard request =>
      '(h', s', _) ← fr_state_discard_checked h s request; Some (h', s', None)
  end.

Fixpoint api_run_checked (h : talloc) (s : fr_state_tree_t) (calls : list api_call)
  : option (talloc * fr_state_tree_t * list create_result) :=
  match calls with
  | [] => Some (h, s, [])
  | c :: calls =>
      '(h1, s1, res) ← api_step_checked h s c;
      '(h2, s2, trace) ← api_run_checked h1 s1 calls;
      Some (h2, s2, option_list res ++ trace)
  end.

(** The state context of the request, if it has one, is live and its
    own: no entry of the queue owns it.  This is how the server hands a
    request to the three functions: its context is the one it was
    allocated with, the one [fr_state_to_request] has taken from an entry,
    or the one [fr_state_discard] has allocated. *)
Definition request_ctx_ok (h : talloc) (s : fr_state_tree_t) (request : REQUEST) : Prop :=
  match request_state_ctx request with
  | Some c => c ∈ ctxs h ∧ c ∉ owned_ctxs h (state_to_expire s)
  | None => True
  end.

(** What the caller of a function owes it: a request with a context of
    its own, and what the function asserts of the request on entry
    ([rad_assert(request->state == NULL)] in [fr_state_to_request],
    [rad_assert(request->state_ctx)] in [fr_request_to_state]). *)
Definition call_ok (h : talloc) (s : fr_state_tree_t) (c : api_call) : Prop :=
  match c with
  | CallRestore request => request_ctx_ok h s request ∧ request_state request = []
  | CallSave request _ _ => request_ctx_ok h s request ∧ request_state_ctx request ≠ None
  | CallDiscard request => request_ctx_ok h s request
  end.

(** Every call of the sequence is made as [call_ok] says, in the store
    the calls before it have left. *)
Fixpoint calls_ok (h : talloc) (s : fr_state_tree_t) (calls : list api_call) : Prop :=
  match calls with
  | [] => True
  | c :: calls =>
      call_ok h s c ∧
      match api_step_checked h s c with
      | Some (h', s', _) => calls_ok h' s' calls
      | None => True
      end
  end.

Global Instance request_ctx_ok_dec h s request : Decision (request_ctx_ok h s request).
Proof. unfold request_ctx_ok. destruct (request_state_ctx request); apply _. Defined.

Global Instance call_ok_dec h s c : Decision (call_ok h s c).
Proof. destruct c; simpl; apply _. Defined.

Global Instance calls_ok_dec calls : ∀ h s, Decision (calls_ok h s calls).
Proof.
  induction calls as [|c calls IH]; intros h s; simpl; [apply _|].
  apply and_dec; [apply _|].
  destruct (api_step_checked h s c) as [[[h' s'] res]|]; [apply IH|apply _].
Defined.

(** ** Where a checked function returns, it returns what the function
    above returns *)

Lemma state_entry_create_checked_Some h s request packet old now rnd r :
  state_entry_create_checked h s request packet old now rnd = Some r →
  state_entry_create h s request packet old now rnd = Some r.
Proof.
  unfold state_entry_create_checked, state_entry_create.
  destruct (expire_sweep _ _ _ _ _ _ _) as [[[s1 tf] n]|]; [|done].
  cbn [mbind option_bind].
  destruct (snapshot_old _ _ _ _) as [[[[s2 tf2] ot] os]|]; [|done].
  cbn [mbind option_bind].
  destruct (free_entries_checked h tf2) as [h1|] eqn:Hf; [|done].
  by rewrite (free_entries_checked_Some _ _ _ Hf).
Qed.

Lemma fr_state_discard_checked_Some h s request r :
  fr_state_discard_checked h s request = Some r → fr_state_discard h s request = Some r.
Proof.
  unfold fr_state_discard_checked, fr_state_discard.
  destruct (fr_pair_find_by_da _ _) as [vp|]; [|done].
  destruct (state_entry_find _ _ _) as [p|]; [|done].
  destruct (state_entry_unlink h s p) as [s1|]; [|done]. cbn [mbind option_bind].
  destruct (talloc_free_entry_checked h p) as [h1|] eqn:Hf; [|done].
  rewrite (talloc_free_entry_checked_Some _ _ _ Hf). cbn [mbind option_bind].
  destruct (talloc_free_checked h1 (request_state_ctx request)) as [h2|] eqn:Hc; [|done].
  apply talloc_free_checked_Some in Hc as ->. done.
Qed.

Lemma fr_state_to_request_checked_Some h s request r :
  fr_state_to_request_checked h s request = Some r →
  fr_state_to_request h s request = Some r.
Proof.
  unfold fr_state_to_request_checked, fr_state_to_request.
  case_decide; [|done].
  destruct (fr_pair_find_by_da _ _) as [vp|]; [|done].
  destruct (state_entry_find _ _ _) as [p|]; [|done].
  destruct (entries h !! p) as [e|]; [|done]. cbn [mbind option_bind].
  destruct (entry_thawed e); [done|]. destruct (entry_ctx e) as [c|]; [|done].
  destruct (talloc_free_checked _ (request_state_ctx request)) as [h2|] eqn:Hc; [|done].
  apply talloc_free_checked_Some in Hc as ->. done.
Qed.

Lemma request_to_state_checked_Some h s request now rnd r :
  request_to_state_checked h s request now rnd = Some r →
  request_to_state h s request now rnd = Some r.
Proof.
  unfold request_to_state_checked, request_to_state.
  destruct (request_data_by_persistance request true) as [data rq].
  case_decide; [done|].
  destruct (state_entry_create_checked _ _ _ _ _ _ _) as [[[[h1 s1] reply] res]|] eqn:Hc;
    [|done].
  by rewrite (state_entry_create_checked_Some _ _ _ _ _ _ _ _ Hc).
Qed.

Lemma api_step_checked_Some h s c r :
  api_step_checked h s c = Some r → api_step h s c = Some r.
Proof.
  destruct c as [rq|rq now rnd|rq]; simpl.
  - destruct (fr_state_to_request_checked h s rq) as [r1|] eqn:Hc; [|done].
    by rewrite (fr_state_to_request_checked_Some _ _ _ _ Hc).
  - destruct (request_to_state_checked h s rq now rnd) as [r1|] eqn:Hc; [|done].
    by rewrite (request_to_state_checked_Some _ _ _ _ _ _ Hc).
  - destruct (fr_state_discard_checked h s rq) as [r1|] eqn:Hc; [|done].
    by rewrite (fr_state_discard_checked_Some _ _ _ _ Hc).
Qed.

Lemma api_run_checked_Some calls : ∀ h s r,
  api_run_checked h s calls = Some r → api_run h s calls = Some r.
Proof.
  induction calls as [|c calls IH]; intros h s r Hr; [done|]. simpl in *.
  destruct (api_step_checked h s c) as [[[h1 s1] res]|] eqn:Hc; [|done].
  rewrite (api_step_checked_Some _ _ _ _ Hc). cbn [mbind option_bind] in *.
  destruct (api_run_checked h1 s1 calls) as [r1|] eqn:Hrun; [|done].
  by rewrite (IH _ _ _ Hrun).
Qed.

(** ** Where every context has one owner, the checked function is the
    function above *)

Lemma state_entry_create_checked_eq h s request packet old now rnd :
  state_wf h s → old_linked s old → ctx_wf h s →
  state_entry_create_checked h s request packet old now rnd
  = state_entry_create h s request packet old now rnd.
Proof.
  intros Hwf Hold Hcx.
  destruct (expire_sweep_spec h old now (state_to_expire s) s [] 0 Hwf)
    as (lead & rest & s_sw & Hsplit & Hsweep & Hu); [apply Hwf|done|done|].
  unfold state_entry_create_checked, state_entry_create. rewrite Hsweep.
  cbn [mbind option_bind app].
  destruct (snapshot_old _ _ _ _) as [[[[s2 tf] ot] os]|] eqn:Hsnap; [|done].
  cbn [mbind option_bind].
  assert (Htf : ∀ p, p ∈ tf → p ∈ state_to_expire s).
  { assert (Hlead : ∀ p, p ∈ swept old lead → p ∈ state_to_expire s).
    { intros p Hp. apply list_elem_of_filter in Hp as [_ Hp].
      destruct Hsplit as (-> & _). set_solver. }
    unfold snapshot_old in Hsnap. destruct old as [o|].
    - destruct (entries h !! o) as [eo|]; [|done]. cbn [mbind option_bind] in Hsnap.
      case_decide.
      + destruct (state_entry_unlink _ _ _) as [s3|]; [|done].
        injection Hsnap as _ <- _ _. intros p Hp.
        apply elem_of_app in Hp as [Hp|Hp]; [by apply Hlead|].
        apply list_elem_of_singleton in Hp as ->. by apply Hold.
      + by injection Hsnap as _ <- _ _.
    - by injection Hsnap as _ <- _ _. }
  rewrite free_entries_checked_eq; [done| |].
  - intros p e c Hp. apply (ctx_wf_live _ _ Hcx). by apply Htf.
  - intros p q e e' c Hp Hq. apply (ctx_wf_once _ _ Hcx); by apply Htf.
Qed.

Lemma request_to_state_checked_eq h s request now rnd :
  state_wf h s → ctx_wf h s →
  request_to_state_checked h s request now rnd = request_to_state h s request now rnd.
Proof.
  intros Hwf Hcx. unfold request_to_state_checked, request_to_state.
  destruct (request_data_by_persistance request true) as [data rq].
  case_decide; [done|].
  rewrite state_entry_create_checked_eq; [done|done| |done].
  by eapply find_old_linked.
Qed.

Lemma request_ctx_ok_live h s request c :
  request_ctx_ok h s request → request_state_ctx request = Some c →
  c ∈ ctxs h ∧
  ∀ p e, p ∈ state_to_expire s → entries h !! p = Some e → entry_ctx e ≠ Some c.
Proof.
  unfold request_ctx_ok. intros Hok Hc. rewrite Hc in Hok. destruct Hok as [Hin Hno].
  split; [done|]. intros p e Hp He Hec. apply Hno. apply elem_of_owned_ctxs. eauto.
Qed.

Lemma fr_state_to_request_checked_eq h s request :
  request_ctx_ok h s request →
  fr_state_to_request_checked h s request = fr_state_to_request h s request.
Proof.
  intros Hok. unfold fr_state_to_request_checked, fr_state_to_request.
  case_decide; [|done].
  destruct (fr_pair_find_by_da _ _) as [vp|]; [|done].
  destruct (state_entry_find _ _ _) as [p|]; [|done].
  destruct (entries h !! p) as [e|]; [|done]. cbn [mbind option_bind].
  destruct (entry_thawed e); [done|]. destruct (entry_ctx e) as [c|]; [|done].
  rewrite talloc_free_checked_live; [done|].
  intros c' Hc'. simpl. by destruct (request_ctx_ok_live _ _ _ _ Hok Hc').
Qed.

Lemma fr_state_discard_checked_eq h s request :
  state_wf h s → ctx_wf h s → request_ctx_ok h s request →
  fr_state_discard_checked h s request = fr_state_discard h s request.
Proof.
  intros Hwf Hcx Hok. unfold fr_state_discard_checked, fr_state_discard.
  destruct (fr_pair_find_by_da _ _) as [vp|]; [|done].
  destruct (state_entry_find _ _ _) as [p|] eqn:Hfind; [|done].
  pose proof (found_linked _ _ _ _ _ Hwf Hfind) as Hp.
  destruct (state_entry_unlink h s p) as [s1|]; [|done]. cbn [mbind option_bind].
  unfold talloc_free_entry_checked, talloc_free_entry.
  destruct (entries h !! p) as [e|] eqn:He; [|done]. cbn [mbind option_bind].
  rewrite talloc_free_checked_live.
  2:{ intros c Hc. by eapply (ctx_wf_live _ _ Hcx). }
  cbn [mbind option_bind].
  rewrite talloc_free_checked_live; [done|].
  intros c Hc. destruct (request_ctx_ok_live _ _ _ _ Hok Hc) as [Hin Hno]. simpl.
  destruct (entry_ctx e) as [c0|] eqn:Hc0; simpl; [|done].
  apply elem_of_difference. split; [done|]. intros Heq%elem_of_singleton. subst c0.
  by eapply Hno.
Qed.

Lemma api_step_checked_eq h s c :
  state_wf h s → ctx_wf h s → call_ok h s c → api_step_checked h s c = api_step h s c.
Proof.
  intros Hwf Hcx Hok. destruct c as [rq|rq now rnd|rq]; simpl in *.
  - destruct Hok as [Hok _]. by rewrite fr_state_to_request_checked_eq.
  - by rewrite request_to_state_checked_eq.
  - by rewrite fr_state_discard_checked_eq.
Qed.

(** ** The calls keep every context with one owner *)

Lemma api_step_ctx_wf h s c h' s' res :
  state_wf h s → ctx_wf h s → call_ok h s c →
  api_step h s c = Some (h', s', res) → ctx_wf h' s'.
Proof.
  intros Hwf Hcx Hok Hstep.
  pose proof (ctx_wf_live _ _ Hcx) as Hl. pose proof (ctx_wf_once _ _ Hcx) as Ho.
  destruct c as [r|r now rnd|r]; simpl in Hstep, Hok.
  - (* fr_state_to_request *)
    destruct Hok as [Hok _].
    destruct (fr_state_to_request h s r) as [[h1 r1]|] eqn:Hres; [|done].
    injection Hstep as <- <- <-.
    destruct (fr_state_to_request_inv _ _ _ _ _ Hres)
      as [_ [(-> & _)|(vp & p & e0 & c0 & Hvp & Hfind & He0 & Hth & Hc0 & -> & _)]];
      [done|].
    assert (Hent : ∀ q e c, entries
                     (talloc_free_ctx
                        (mk_talloc (<[p := thaw_entry r e0]> (entries h)) (ctxs h) (brk h))
                        (request_state_ctx r)) !! q = Some e →
                   entry_ctx e = Some c → entries h !! q = Some e).
    { intros q e c He Hc. rewrite talloc_free_ctx_entries in He. simpl in He.
      destruct (decide (q = p)) as [->|Hne].
      - rewrite lookup_insert_eq in He. injection He as <-. done.
      - by rewrite lookup_insert_ne in He. }
    apply ctx_wf_intro.
    + intros q e c Hq He Hc. pose proof (Hent _ _ _ He Hc) as He'.
      pose proof (Hl q e c Hq He' Hc) as Hin.
      destruct (request_state_ctx r) as [old|] eqn:Hold; simpl; [|done].
      apply elem_of_difference. split; [done|]. intros Heq%elem_of_singleton. subst old.
      destruct (request_ctx_ok_live _ _ _ _ Hok Hold) as [_ Hno]. by eapply Hno.
    + intros q q' e e' c Hq Hq' He He' Hc Hc'.
      eapply (Ho q q'); [done|done|by eapply Hent|by eapply Hent|done|done].
  - (* fr_request_to_state *)
    destruct Hok as [Hok Hrc].
    destruct (request_to_state h s r now rnd) as [[[[[h1 s1] r1] ret] res1]|] eqn:Hres;
      [|done].
    injection Hstep as <- <- <-.
    destruct (request_to_state_inv _ _ _ _ _ _ _ _ _ _ Hres)
      as [(_ & -> & -> & _ & _ & ->)|(Hn & h2 & reply & cres & Hsave & -> & Hcases)];
      [done|].
    unfold save_create in Hsave.
    assert (Hold : old_linked s (find_old s r)) by by eapply find_old_linked.
    destruct (create_effect _ _ _ _ _ _ _ _ _ _ _ Hwf Hold Hsave)
      as (lead & rest & _ & Hwf2 & Hq & Hgone & Hframe & Hnew & _ & _ & _ & _ & Hctxs & _).
    assert (Hkept : ∀ q e c, q ∈ filter (λ p, p ∉ removed h (find_old s r) lead)
                                        (state_to_expire s) →
              entries h2 !! q = Some e → entry_ctx e = Some c →
              q ∈ state_to_expire s ∧ entries h !! q = Some e ∧ c ∈ ctxs h2).
    { intros q e c Hin He Hc. apply list_elem_of_filter in Hin as [Hnr Hin].
      pose proof (queue_below_brk _ _ _ Hwf Hin) as Hlt.
      rewrite Hframe in He; [|done|lia]. split; [done|]. split; [done|].
      apply Hctxs. split; [by eapply Hl|].
      intros (p & e' & Hp & He' & Hc'). destruct (Hgone p Hp) as [Hpq _].
      assert (p = q) by (eapply (Ho p q); done). by subst p. }
    destruct Hcases as [(Hnc & -> & _)|(p & e & c & -> & He & Hctx & Hrc' & _ & -> & _)].
    + assert (Hq' : state_to_expire s1
                    = filter (λ p, p ∉ removed h (find_old s r) lead) (state_to_expire s)).
      { rewrite Hq. destruct cres as [p| |]; [by destruct (Hnc p)| |]; apply app_nil_r. }
      apply ctx_wf_intro; rewrite Hq'.
      * intros q e c Hin He Hc. by destruct (Hkept q e c Hin He Hc) as (_ & _ & ?).
      * intros q q' e e' c Hin Hin' He He' Hc Hc'.
        destruct (Hkept q e c Hin He Hc) as (? & ? & _).
        destruct (Hkept q' e' c Hin' He' Hc') as (? & ? & _).
        by eapply (Ho q q').
    + destruct (Hnew p eq_refl) as (-> & _).
      destruct (request_ctx_ok_live _ _ _ _ Hok Hrc') as [Hcin Hcno].
      assert (Hcin2 : c ∈ ctxs h2).
      { apply Hctxs. split; [done|]. intros (p & e' & Hp & He' & Hc').
        destruct (Hgone p Hp) as [Hpq _]. by eapply Hcno. }
      assert (Hlook : ∀ q e', q ≠ brk h →
                entries (mk_talloc
                  (<[brk h := freeze_entry (set_request_reply reply (detached r))
                                           (persistable r) e]> (entries h2))
                  (ctxs h2) (brk h2)) !! q = Some e' → entries h2 !! q = Some e').
      { intros q e' Hne Hq'. simpl in Hq'. by rewrite lookup_insert_ne in Hq'. }
      assert (Hne : ∀ q, q ∈ filter (λ p, p ∉ removed h (find_old s r) lead)
                                    (state_to_expire s) → q ≠ brk h).
      { intros q Hin. apply list_elem_of_filter in Hin as [_ Hin].
        pose proof (queue_below_brk _ _ _ Hwf Hin). lia. }
      assert (Hnewe : ∀ e' c', entries (mk_talloc
                  (<[brk h := freeze_entry (set_request_reply reply (detached r))
                                           (persistable r) e]> (entries h2))
                  (ctxs h2) (brk h2)) !! brk h = Some e' → entry_ctx e' = Some c' →
                c' = c).
      { intros e' c' He' Hc'. simpl in He'. rewrite lookup_insert_eq in He'.
        injection He' as <-. simpl in Hc'. rewrite Hrc' in Hc'. congruence. }
      apply ctx_wf_intro; rewrite Hq; simpl.
      * intros q e' c' Hin He' Hc'. apply elem_of_app in Hin as [Hin|Hin].
        -- apply Hlook in He'; [|by apply Hne].
           by destruct (Hkept q e' c' Hin He' Hc') as (_ & _ & ?).
        -- apply list_elem_of_singleton in Hin as ->.
           by rewrite (Hnewe e' c' He' Hc').
      * intros q q' e1 e2 c' Hin Hin' He1 He2 Hc1 Hc2.
        apply elem_of_app in Hin as [Hin|Hin]; apply elem_of_app in Hin' as [Hin'|Hin'].
        -- apply Hlook in He1; [|by apply Hne]. apply Hlook in He2; [|by apply Hne].
           destruct (Hkept q e1 c' Hin He1 Hc1) as (? & ? & _).
           destruct (Hkept q' e2 c' Hin' He2 Hc2) as (? & ? & _).
           by eapply (Ho q q').
        -- apply list_elem_of_singleton in Hin' as ->.
           pose proof (Hnewe e2 c' He2 Hc2) as ->.
           apply Hlook in He1; [|by apply Hne].
           destruct (Hkept q e1 c Hin He1 Hc1) as (? & ? & _).
           by destruct (Hcno q e1).
        -- apply list_elem_of_singleton in Hin as ->.
           pose proof (Hnewe e1 c' He1 Hc1) as ->.
           apply Hlook in He2; [|by apply Hne].
           destruct (Hkept q' e2 c Hin' He2 Hc2) as (? & ? & _).
           by destruct (Hcno q' e2).
        -- apply list_elem_of_singleton in Hin as ->.
           by apply list_elem_of_singleton in Hin' as ->.
  - (* fr_state_discard *)
    destruct (fr_state_discard h s r) as [[[h1 s1] r1]|] eqn:Hres; [|done].
    injection Hstep as <- <- <-.
    destruct (fr_state_discard_inv _ _ _ _ _ _ Hwf Hres)
      as [(-> & -> & _)|(vp & p & h2 & Hvp & Hfind & Hu & Hfr & Hwf2 & -> & _)]; [done|].
    destruct Hu as (Hq & _). destruct Hfr as (He2 & Hc2 & _).
    assert (Hkept : ∀ q e c, q ∈ filter (λ p0, p0 ∉ [p]) (state_to_expire s) →
              entries h2 !! q = Some e → entry_ctx e = Some c →
              q ∈ state_to_expire s ∧ entries h !! q = Some e ∧
              c ∈ ctxs (talloc_init (talloc_free_ctx h2 (request_state_ctx r))).1).
    { intros q e c Hin He Hc. apply list_elem_of_filter in Hin as [Hnp Hin].
      rewrite He2 in He. rewrite decide_False in He by done.
      split; [done|]. split; [done|].
      assert (Hin2 : c ∈ ctxs h2).
      { apply Hc2. split; [by eapply Hl|].
        intros (p' & e' & Hp' & He' & Hc'). apply list_elem_of_singleton in Hp' as ->.
        assert (p = q); [|set_solver].
        eapply (Ho p q); [by eapply found_linked|done|done|done|done|done]. }
      simpl. apply elem_of_union. right.
      destruct (request_state_ctx r) as [rc|] eqn:Hrc; simpl; [|done].
      apply elem_of_difference. split; [done|]. intros Heq%elem_of_singleton. subst rc.
      destruct (request_ctx_ok_live _ _ _ _ Hok Hrc) as [_ Hno]. by eapply Hno. }
    assert (Hent : entries (talloc_init (talloc_free_ctx h2 (request_state_ctx r))).1
                   = entries h2).
    { simpl. by rewrite talloc_free_ctx_entries. }
    apply ctx_wf_intro; rewrite Hq.
    + intros q e c Hin He Hc. rewrite Hent in He.
      by destruct (Hkept q e c Hin He Hc) as (_ & _ & ?).
    + intros q q' e e' c Hin Hin' He He' Hc Hc'. rewrite Hent in He, He'.
      destruct (Hkept q e c Hin He Hc) as (? & ? & _).
      destruct (Hkept q' e' c Hin' He' Hc') as (? & ? & _).
      by eapply (Ho q q').
Qed.

(** ** No call aborts *)

Lemma fr_state_to_request_returns h s request :
  state_wf h s → owned_or_thawed h s → request_state request = [] →
  is_Some (fr_state_to_request h s request).
Proof.
  intros Hwf Hown Hst. unfold fr_state_to_request. rewrite decide_True by done.
  destruct (fr_pair_find_by_da _ _) as [vp|]; [|eauto].
  destruct (state_entry_find s request (vp_octets vp)) as [p|] eqn:Hfind; [|eauto].
  pose proof (found_linked _ _ _ _ _ Hwf Hfind) as Hp.
  destruct (wf_queue _ _ Hwf p) as [Hk _]. destruct (Hk Hp) as [k Hkp].
  destruct (wf_tree _ _ Hwf _ _ Hkp) as (e & He & _).
  rewrite He. cbn [mbind option_bind].
  destruct (entry_thawed e) as [r|] eqn:Hth; [eauto|].
  destruct (Hown p e Hp He Hth) as [c ->]. eauto.
Qed.

Lemma request_to_state_returns h s request now rnd :
  state_wf h s → request_state_ctx request ≠ None →
  ∃ h' s' request' ret res,
    request_to_state h s request now rnd = Some (h', s', request', ret, res) ∧
    (ret = 0 ∨ ret = -1).
Proof.
  intros Hwf Hctx.
  destruct (decide (nothing_to_save request)) as [Hn|Hn].
  - rewrite request_to_state_nothing by done.
    eexists _, _, _, _, _. split; [done|]. by left.
  - assert (Hold : old_linked s (find_old s request)) by by eapply find_old_linked.
    destruct (state_entry_create_wf h s (detached request) (request_reply request)
                (find_old s request) now rnd Hwf Hold)
      as (h1 & s1 & reply & res & Hcreate & _).
    destruct (decide (∃ p, res = Created p)) as [[p ->]|Hnc].
    + destruct (create_effect _ _ _ _ _ _ _ _ _ _ _ Hwf Hold Hcreate)
        as (_ & _ & _ & _ & _ & _ & _ & Hnew & _).
      destruct (Hnew p eq_refl) as (_ & e & He & (_ & _ & _ & Hec & _) & _).
      rewrite (request_to_state_created _ _ _ _ _ _ _ _ _ _ Hn Hcreate He Hec Hctx).
      eexists _, _, _, _, _. split; [done|]. by left.
    + rewrite (request_to_state_failed _ _ _ _ _ _ _ _ _ Hn Hcreate).
      * eexists _, _, _, _, _. split; [done|]. by right.
      * intros p ->. apply Hnc. eauto.
Qed.

Lemma api_step_returns h s c :
  state_wf h s → owned_or_thawed h s → call_ok h s c → is_Some (api_step h s c).
Proof.
  intros Hwf Hown Hok. destruct c as [r|r now rnd|r]; simpl in *.
  - destruct Hok as [_ Hst].
    destruct (fr_state_to_request_returns h s r Hwf Hown Hst) as [[h' r'] ->]. eauto.
  - destruct Hok as [_ Hrc].
    destruct (request_to_state_returns h s r now rnd Hwf Hrc)
      as (h' & s' & r' & ret & res & -> & _). eauto.
  - destruct (fr_state_discard_wf h s r Hwf) as (h' & s' & r' & -> & _). eauto.
Qed.

(** What holds between two calls. *)
Definition store_ok (h : talloc) (s : fr_state_tree_t) : Prop :=
  state_wf h s ∧ owned_or_thawed h s ∧ ctx_wf h s.

Lemma api_step_checked_ok h s c :
  store_ok h s → call_ok h s c →
  ∃ h' s' res,
    api_step_checked h s c = Some (h', s', res) ∧ api_step h s c = Some (h', s', res) ∧
    store_ok h' s'.
Proof.
  intros (Hwf & Hown & Hcx) Hok.
  destruct (api_step_returns h s c Hwf Hown Hok) as [[[h' s'] res] Hstep].
  exists h', s', res. rewrite api_step_checked_eq by done.
  split; [done|]. split; [done|]. split; [|split].
  - by eapply api_step_wf.
  - by eapply api_step_owned.
  - by eapply api_step_ctx_wf.
Qed.

Lemma api_run_checked_ok calls : ∀ h s,
  store_ok h s → calls_ok h s calls →
  ∃ h' s' trace,
    api_run_checked h s calls = Some (h', s', trace) ∧
    api_run h s calls = Some (h', s', trace) ∧ store_ok h' s'.
Proof.
  induction calls as [|c calls IH]; intros h s Hst Hok.
  - exists h, s, []. done.
  - destruct Hok as [Hc Hrest].
    destruct (api_step_checked_ok h s c Hst Hc) as (h1 & s1 & res & Hstep & Hstep' & Hst1).
    rewrite Hstep in Hrest.
    destruct (IH h1 s1 Hst1 Hrest) as (h' & s' & trace & Hrun & Hrun' & Hst').
    exists h', s', (option_list res ++ trace). simpl.
    rewrite Hstep, Hstep'. cbn [mbind option_bind]. rewrite Hrun, Hrun'. done.
Qed.

Lemma store_ok_init cs b da max_sessions timeout server_id :
  (∀ c, c ∈ cs → (c < b)%N) →
  store_ok (mk_talloc ∅ cs b) (fr_state_tree_init da max_sessions timeout server_id).
Proof.
  intros Hcs. split; [by apply state_wf_init|]. split; [apply owned_or_thawed_init|].
  apply ctx_wf_intro.
  - intros p e c Hp. simpl in Hp. by apply elem_of_nil in Hp.
  - intros p q e e' c Hp. simpl in Hp. by apply elem_of_nil in Hp.
Qed.

(** [fr_state_discard] for a request that holds the very context the
    entry owns: the entry's destructor frees the context, and
    [TALLOC_FREE(request->state_ctx)] frees it again. *)
Lemma fr_state_discard_checked_twice h s request vp p e c :
  fr_pair_find_by_da (request_packet request) (state_da s) = Some vp →
  state_entry_find s request (vp_octets vp) = Some p →
  entries h !! p = Some e → entry_ctx e = Some c → request_state_ctx request = Some c →
  fr_state_discard_checked h s request = None.
Proof.
  intros Hvp Hfind He Hc Hrc. unfold fr_state_discard_checked.
  rewrite Hvp, Hfind. unfold state_entry_unlink, talloc_free_entry_checked.
  rewrite He. cbn [mbind option_bind]. rewrite Hc, Hrc.
  destruct (decide (c ∈ ctxs h)) as [Hin|Hin].
  - rewrite talloc_free_checked_live by (by intros ? [= <-]).
    cbn [mbind option_bind]. rewrite talloc_free_checked_dead; [done|]. simpl. set_solver.
  - by rewrite talloc_free_checked_dead.
Qed.

End checked_api.

Section invariants_checked.

Context {platform : Platform}.

(** X3.  On a new tree, let every call of [fr_state_to_request],
    [fr_request_to_state] and [fr_state_discard] be made for a request
    whose state context, if it has one, is live and its own, a restore for
    a request with an empty session-state list, a save for a request that
    has a state context.  Then no call aborts: no assertion fails and no
    [talloc_free] meets a chunk that is freed.  In the store the calls
    leave, every context an entry owns is live and has one owner, and the
    same holds of the next call: [fr_state_discard] returns;
    [fr_state_to_request] returns for a request whose session-state list
    is empty and aborts otherwise; [fr_request_to_state] returns 0 or -1
    for a request that has a state context.  A request that holds the very
    context the entry of its State attribute owns is not such a request:
    [fr_state_discard] frees that context twice and aborts. *)
Theorem api_assertions_hold cs b da max_sessions timeout server_id calls :
  (∀ c, c ∈ cs → (c < b)%N) →
  calls_ok (mk_talloc ∅ cs b) (fr_state_tree_init da max_sessions timeout server_id) calls →
  ∃ h s trace,
    api_run_checked (mk_talloc ∅ cs b)
                    (fr_state_tree_init da max_sessions timeout server_id) calls
    = Some (h, s, trace) ∧
    ctx_wf h s ∧
    (∀ request, request_ctx_ok h s request →
       is_Some (fr_state_discard_checked h s request)) ∧
    (∀ request, request_ctx_ok h s request →
       (request_state request = [] ↔ is_Some (fr_state_to_request_checked h s request))) ∧
    (∀ request now rnd,
       request_ctx_ok h s request → request_state_ctx request ≠ None →
       ∃ h' s' request' ret,
         fr_request_to_state_checked h s request now rnd = Some (h', s', request', ret) ∧
         (ret = 0 ∨ ret = -1)) ∧
    (∀ request vp p e c,
       fr_pair_find_by_da (request_packet request) (state_da s) = Some vp →
       state_entry_find s request (vp_octets vp) = Some p →
       entries h !! p = Some e → entry_ctx e = Some c →
       request_state_ctx request = Some c →
       fr_state_discard_checked h s request = None).
Proof.
  intros Hcs Hok.
  destruct (api_run_checked_ok calls _ _
              (store_ok_init cs b da max_sessions timeout server_id Hcs) Hok)
    as (h & s & trace & Hrun & _ & Hwf & Hown & Hcx).
  exists h, s, trace. split; [done|]. split; [done|]. split_and!.
  - intros request Hrq. rewrite fr_state_discard_checked_eq by done.
    destruct (fr_state_discard_wf h s request Hwf) as (h' & s' & r' & -> & _). eauto.
  - intros request Hrq. rewrite fr_state_to_request_checked_eq by done. split.
    + by apply fr_state_to_request_returns.
    + intros [[h' r'] Hres]. by destruct (fr_state_to_request_inv _ _ _ _ _ Hres).
  - intros request now rnd Hrq Hctx. unfold fr_request_to_state_checked.
    rewrite request_to_state_checked_eq by done.
    destruct (request_to_state_returns h s request now rnd Hwf Hctx)
      as (h' & s' & r' & ret & res & -> & Hret).
    exists h', s', r', ret. done.
  - intros request vp p e c. apply fr_state_discard_checked_twice.
Qed.

End invariants_checked.

(** * The three counters *)

Section accounting.

Context {platform : Platform}.

Lemma inserted_option_list (res : option create_result) :
  inserted (option_list res) = length (from_option created_entry [] res).
Proof. by destruct res as [[p| |]|]. Qed.

Lemma size_lookup_pos {A} (m : gmap (list Z) A) k x : m !! k = Some x → (0 < size m)%nat.
Proof.
  intros Hk. destruct (size m) eqn:Hs; [|lia].
  apply map_size_empty_inv in Hs. rewrite Hs, lookup_empty in Hk. done.
Qed.

(** One call: the entries tracked and those timed out, together, grow by
    no more than the entry the call has filed. *)
Lemma api_step_accounting h s c h' s' res n :
  state_wf h s → api_step h s c = Some (h', s', res) →
  0 ≤ state_timed_out s →
  rbtree_num_elements (state_tree s) + state_timed_out s ≤ n → n < 2 ^ 64 →
  0 ≤ state_timed_out s' ∧
  rbtree_num_elements (state_tree s') + state_timed_out s'
  ≤ n + Z.of_nat (inserted (option_list res)).
Proof.
  intros Hwf Hstep Hpos Hle Hn. unfold rbtree_num_elements in *.
  destruct c as [r|r now rnd|r]; simpl in Hstep.
  - destruct (fr_state_to_request h s r) as [[h1 r1]|]; [|done].
    injection Hstep as <- <- <-. simpl. lia.
  - destruct (request_to_state h s r now rnd) as [[[[[h1 s1] r1] ret] res1]|] eqn:Hres;
      [|done].
    injection Hstep as <- <- <-.
    destruct (request_to_state_inv _ _ _ _ _ _ _ _ _ _ Hres)
      as [(_ & _ & -> & _ & _ & ->)|(Hnts & h2 & reply & cres & Hsave & -> & _)].
    + simpl. lia.
    + unfold save_create in Hsave.
      assert (Hold : old_linked s (find_old s r)) by by eapply find_old_linked.
      destruct (create_effect _ _ _ _ _ _ _ _ _ _ _ Hwf Hold Hsave)
        as (lead & rest & _ & _ & _ & _ & _ & Hnew & _ & Hto & Hsz & _).
      rewrite inserted_option_list. simpl.
      unfold removed in Hsz. rewrite length_app in Hsz.
      assert (Hsw : (length (swept (find_old s r) lead) ≤ size (state_tree s))%nat).
      { destruct cres as [p| |]; simpl in Hsz; try lia.
        destruct (Hnew p eq_refl) as (_ & e & _ & _ & Htree).
        pose proof (size_lookup_pos _ _ _ Htree). lia. }
      rewrite Hto, u64_small by lia. lia.
  - destruct (fr_state_discard h s r) as [[[h1 s1] r1]|] eqn:Hres; [|done].
    injection Hstep as <- <- <-.
    destruct (fr_state_discard_inv _ _ _ _ _ _ Hwf Hres)
      as [(_ & -> & _)|(vp & p & h2 & _ & _ & Hu & _)].
    + simpl. lia.
    + pose proof (unlinked_fields _ _ _ Hu) as (_ & Hto & _).
      destruct Hu as (_ & _ & Hsz & _). simpl in Hsz. rewrite Hto. simpl. lia.
Qed.

Lemma api_run_accounting calls : ∀ h s h' s' trace n,
  state_wf h s → 0 ≤ state_timed_out s →
  rbtree_num_elements (state_tree s) + state_timed_out s ≤ n →
  n + Z.of_nat (inserted trace) < 2 ^ 64 →
  api_run h s calls = Some (h', s', trace) →
  0 ≤ state_timed_out s' ∧
  rbtree_num_elements (state_tree s') + state_timed_out s' ≤ n + Z.of_nat (inserted trace).
Proof.
  induction calls as [|c calls IH]; intros h s h' s' trace n Hwf Hpos Hle Hn Hrun.
  - injection Hrun as <- <- <-. simpl. unfold inserted. simpl. lia.
  - simpl in Hrun.
    destruct (api_step h s c) as [[[h1 s1] res]|] eqn:Hstep; [|done].
    cbn [mbind option_bind] in Hrun.
    destruct (api_run h1 s1 calls) as [[[h2 s2] trace2]|] eqn:Hrest; [|done].
    injection Hrun as <- <- <-. rewrite inserted_app in *.
    destruct (api_step_accounting _ _ _ _ _ _ n Hwf Hstep Hpos Hle) as [Hpos1 Hle1]; [lia|].
    destruct (IH h1 s1 h2 s2 trace2 (n + Z.of_nat (inserted (option_list res))))
      as [Hpos2 Hle2]; try done.
    + by eapply api_step_wf.
    + lia.
    + split; [done|]. lia.
Qed.

(** X4.  After any sequence of calls on a new tree that has allocated
    fewer than 2^64 entries: the entries tracked and the entries timed out
    are, together, no more than the entries filed in the tree so far, which
    are no more than [fr_state_entries_created] reports.  (An entry leaves
    the tree without being counted as timed out when it is discarded or
    replaced by its successor.) *)
Theorem counters_account cs b da max_sessions timeout server_id calls h' s' trace :
  (∀ c, c ∈ cs → (c < b)%N) →
  api_run (mk_talloc ∅ cs b) (fr_state_tree_init da max_sessions timeout server_id) calls
  = Some (h', s', trace) →
  Z.of_nat (allocated trace) < 2 ^ 64 →
  0 ≤ fr_state_entries_timeout s' ∧
  fr_state_entries_tracked s' ≤ rbtree_num_elements (state_tree s') ∧
  rbtree_num_elements (state_tree s') + fr_state_entries_timeout s'
  ≤ Z.of_nat (inserted trace) ∧
  Z.of_nat (inserted trace) ≤ fr_state_entries_created s' ∧
  fr_state_entries_tracked s' + fr_state_entries_timeout s' ≤ fr_state_entries_created s'.
Proof.
  intros Hcs Hrun Hbound.
  pose proof (state_wf_init cs b da max_sessions timeout server_id Hcs) as Hwf.
  pose proof (inserted_le_allocated trace) as Hia.
  assert (H0 : 0 ≤ state_timed_out (fr_state_tree_init da max_sessions timeout server_id))
    by (simpl; lia).
  assert (H1 : rbtree_num_elements
                 (state_tree (fr_state_tree_init da max_sessions timeout server_id))
               + state_timed_out (fr_state_tree_init da max_sessions timeout server_id) ≤ 0).
  { simpl. unfold rbtree_num_elements. rewrite map_size_empty. simpl. lia. }
  assert (H2 : 0 + Z.of_nat (inserted trace) < 2 ^ 64) by lia.
  destruct (api_run_accounting calls _ _ _ _ _ 0 Hwf H0 H1 H2 Hrun) as [Hpos Hle].
  assert (H3 : u64 (state_id (fr_state_tree_init da max_sessions timeout server_id))
               = state_id (fr_state_tree_init da max_sessions timeout server_id)) by done.
  destruct (api_run_counter calls _ _ _ _ _ Hwf H3 Hrun) as [Hid _].
  simpl in Hid. rewrite u64_small in Hid by lia.
  assert (Htr : fr_state_entries_tracked s' ≤ rbtree_num_elements (state_tree s')).
  { unfold fr_state_entries_tracked, u32.
    apply Z.mod_le; [apply rbtree_num_elements_nonneg|lia]. }
  unfold fr_state_entries_timeout, fr_state_entries_created. rewrite Hid.
  split_and!; lia.
Qed.

End accounting.

(** * The order of the expiry queue *)

From stdpp Require Import sorting.

Open Scope Z_scope.

(** The cleanup time of the entry at [p]. *)
Definition cleanup_of (h : talloc) (p : N) : Z :=
  from_option entry_cleanup 0 (entries h !! p).

(** "The list is implicitly ordered by cleanup time": no entry of the
    queue is due before one that comes earlier in the queue. *)
Definition queue_sorted (h : talloc) (s : fr_state_tree_t) : Prop :=
  StronglySorted (λ p q, cleanup_of h p ≤ cleanup_of h q) (state_to_expire s).

(** No entry of the queue is due later than an entry filed at [t]. *)
Definition due_by (h : talloc) (s : fr_state_tree_t) (t : Z) : Prop :=
  ∀ p, p ∈ state_to_expire s → cleanup_of h p ≤ t + u32 (state_timeout s).

(** The clock does not go backwards: the times at which the calls of
    [fr_request_to_state] read it, from [t] on. *)
Fixpoint clock_monotone (t : Z) (calls : list api_call) : Prop :=
  match calls with
  | [] => True
  | CallSave _ now _ :: calls => t ≤ now ∧ clock_monotone now calls
  | _ :: calls => clock_monotone t calls
  end.

Lemma StronglySorted_filter_keep {A} (R : relation A) (P : A → Prop)
    `{∀ x, Decision (P x)} (l : list A) :
  StronglySorted R l → StronglySorted R (filter P l).
Proof.
  induction 1 as [|a l Hs IH Hall]; [constructor|].
  rewrite filter_cons. destruct (decide (P a)); [|done].
  constructor; [done|]. apply Forall_forall. intros x Hx.
  apply list_elem_of_filter in Hx as [_ Hx]. rewrite Forall_forall in Hall. by apply Hall.
Qed.

Lemma StronglySorted_measure_ext {A} (f g : A → Z) (l : list A) :
  (∀ x, x ∈ l → g x = f x) →
  StronglySorted (λ p q, f p ≤ f q) l → StronglySorted (λ p q, g p ≤ g q) l.
Proof.
  intros Hext Hs. induction Hs as [|a l Hs IH Hall]; [constructor|].
  constructor.
  - apply IH. intros x Hx. apply Hext. set_solver.
  - apply Forall_forall. intros x Hx. rewrite Forall_forall in Hall.
    rewrite !Hext by set_solver. by apply Hall.
Qed.

Lemma StronglySorted_snoc {A} (R : relation A) (l : list A) (x : A) :
  StronglySorted R l → (∀ p, p ∈ l → R p x) → StronglySorted R (l ++ [x]).
Proof.
  intros Hs Hall. apply StronglySorted_app_2; [|done|].
  - intros x1 x2 H1 H2. apply list_elem_of_singleton in H2 as ->. by apply Hall.
  - constructor; [constructor|constructor].
Qed.

Lemma filter_nil_all {A} (P : A → Prop) `{∀ x, Decision (P x)} (l : list A) :
  (∀ x, x ∈ l → ¬ P x) → filter P l = [].
Proof.
  intros Hall. induction l as [|x l IH]; [done|].
  rewrite filter_cons_False by (apply Hall; set_solver). apply IH.
  intros y Hy. apply Hall. set_solver.
Qed.

Lemma filter_all {A} (P : A → Prop) `{∀ x, Decision (P x)} (l : list A) :
  (∀ x, x ∈ l → P x) → filter P l = l.
Proof.
  intros Hall. induction l as [|x l IH]; [done|].
  rewrite filter_cons_True by (apply Hall; set_solver). f_equal. apply IH.
  intros y Hy. apply Hall. set_solver.
Qed.

Lemma filter_ext_in {A} (P Q : A → Prop) `{∀ x, Decision (P x)} `{∀ x, Decision (Q x)}
    (l : list A) :
  (∀ x, x ∈ l → P x ↔ Q x) → filter P l = filter Q l.
Proof.
  intros Hext. induction l as [|x l IH]; [done|].
  rewrite !filter_cons. rewrite IH by (intros y Hy; apply Hext; set_solver).
  destruct (decide (P x)) as [HP|HP], (decide (Q x)) as [HQ|HQ]; try done.
  - destruct HQ. apply Hext; [set_solver|done].
  - destruct HP. apply Hext; [set_solver|done].
Qed.

Section order.

Context {platform : Platform}.

(** X5.  [state_entry_create] on a store whose expiry queue is ordered
    by cleanup time: the sweep at its head stops at the first entry that
    is not due, and behind that entry none is due.  So the call takes out
    of the queue and frees exactly the entries whose cleanup time is
    before [now], the old entry apart: every such entry is gone when the
    call returns, [fr_state_entries_timeout] has grown by their number (as
    a uint64_t), and every entry left in the queue other than the old one
    and the new one is as it was and has a cleanup time of [now] or later.
    Ordered or not, an entry that is not due and is not the old one stays
    in the queue, as it was. *)
Theorem sweep_complete h s request packet old now rnd h' s' packet' res :
  state_wf h s → old_linked s old →
  state_entry_create h s request packet old now rnd = Some (h', s', packet', res) →
  (∀ q, q ∈ state_to_expire s → old ≠ Some q → unexpired h now q →
        q ∈ state_to_expire s' ∧ entries h' !! q = entries h !! q) ∧
  (queue_sorted h s →
   (∀ q, q ∈ state_to_expire s → old ≠ Some q → expired h now q →
         (q ∉ state_to_expire s') ∧ entries h' !! q = None) ∧
   (∀ q, q ∈ state_to_expire s' → old ≠ Some q → res ≠ Created q →
         q ∈ state_to_expire s ∧ entries h' !! q = entries h !! q ∧ unexpired h' now q) ∧
   fr_state_entries_timeout s'
   = u64 (fr_state_entries_timeout s
          + Z.of_nat (length (filter (λ q, old ≠ Some q ∧ cleanup_of h q < now)
                                     (state_to_expire s))))).
Proof.
  intros Hwf Hold Hcreate.
  destruct (create_effect _ _ _ _ _ _ _ _ _ _ _ Hwf Hold Hcreate)
    as (lead & rest & (Hq & Hlead & Hrest) & Hwf' & Hq' & Hgone & Hframe & Hnew & _
        & Hto & _).
  assert (Hlive : ∀ q, q ∈ state_to_expire s → ∃ e, entries h !! q = Some e).
  { intros q Hin. destruct (wf_queue _ _ Hwf q) as [Hk _]. destruct (Hk Hin) as [k Hkq].
    destruct (wf_tree _ _ Hwf _ _ Hkq) as (e & He & _). eauto. }
  assert (Hlead_gone : ∀ q, q ∈ lead → old ≠ Some q → q ∈ removed h old lead).
  { intros q Hin Hne. unfold removed, swept. apply elem_of_app. left.
    by apply list_elem_of_filter. }
  assert (Hkept : ∀ q, q ∈ state_to_expire s → old ≠ Some q → q ∉ lead →
                       q ∈ state_to_expire s' ∧ entries h' !! q = entries h !! q).
  { intros q Hin Hne Hnl.
    assert (Hng : q ∉ removed h old lead).
    { unfold removed. intros Hr. apply elem_of_app in Hr as [Hr|Hr].
      - apply list_elem_of_filter in Hr as [_ Hr]. done.
      - unfold old_unlinked in Hr. destruct old as [o|]; [|by apply elem_of_nil in Hr].
        destruct (entries h !! o) as [eo|]; [|by apply elem_of_nil in Hr].
        case_decide; [|by apply elem_of_nil in Hr].
        apply list_elem_of_singleton in Hr as ->. done. }
    split.
    - rewrite Hq'. apply elem_of_app. left. by apply list_elem_of_filter.
    - apply Hframe; [done|]. pose proof (queue_below_brk _ _ _ Hwf Hin). lia. }
  split.
  { intros q Hin Hne (e & He & Hle). apply Hkept; [done|done|].
    intros Hl. rewrite Forall_forall in Hlead.
    destruct (Hlead q Hl) as [?|(e' & He' & Hlt)]; [done|].
    rewrite He in He'. injection He' as <-. lia. }
  intros Hsorted.
  assert (Hrest_due : ∀ q, q ∈ rest → ∃ e, entries h !! q = Some e ∧ now ≤ entry_cleanup e).
  { intros q Hin. destruct rest as [|q0 rest']; [by apply elem_of_nil in Hin|].
    destruct Hrest as [_ (e0 & He0 & Hle0)].
    destruct (Hlive q) as [e He]; [rewrite Hq; set_solver|].
    exists e. split; [done|].
    unfold queue_sorted in Hsorted. rewrite Hq in Hsorted.
    apply StronglySorted_app_1_r in Hsorted.
    apply StronglySorted_inv in Hsorted as [_ Hall]. rewrite Forall_forall in Hall.
    apply elem_of_cons in Hin as [->|Hin]; [congruence|].
    specialize (Hall q Hin). unfold cleanup_of in Hall. rewrite He0, He in Hall.
    simpl in Hall. lia. }
  split; [|split].
  - intros q Hin Hne (e & He & Hlt).
    assert (Hl : q ∈ lead).
    { rewrite Hq in Hin. apply elem_of_app in Hin as [Hin|Hin]; [done|].
      destruct (Hrest_due q Hin) as (e' & He' & Hle). rewrite He in He'.
      injection He' as <-. lia. }
    destruct (Hgone q (Hlead_gone q Hl Hne)) as [_ Hnone]. split; [|done].
    intros Hin'. destruct (wf_queue _ _ Hwf' q) as [Hk _]. destruct (Hk Hin') as [k Hkq].
    destruct (wf_tree _ _ Hwf' _ _ Hkq) as (e' & He' & _). congruence.
  - intros q Hin Hne Hnc. rewrite Hq' in Hin. apply elem_of_app in Hin as [Hin|Hin].
    + apply list_elem_of_filter in Hin as [Hng Hin]. split; [done|].
      assert (Hne_brk : q ≠ brk h).
      { pose proof (queue_below_brk _ _ _ Hwf Hin). lia. }
      rewrite (Hframe q Hng Hne_brk). split; [done|].
      assert (Hr : q ∈ rest).
      { rewrite Hq in Hin. apply elem_of_app in Hin as [Hin|Hin]; [|done].
        destruct Hng. by apply Hlead_gone. }
      destruct (Hrest_due q Hr) as (e & He & Hle). exists e.
      rewrite (Hframe q Hng Hne_brk). done.
    + destruct res as [p| |]; simpl in Hin; try by apply elem_of_nil in Hin.
      apply list_elem_of_singleton in Hin as ->. done.
  - unfold fr_state_entries_timeout. rewrite Hto. do 3 f_equal.
    rewrite Hq, filter_app.
    assert (Hr : filter (λ q, old ≠ Some q ∧ cleanup_of h q < now) rest = []).
    { apply filter_nil_all. intros q Hin [_ Hlt].
      destruct (Hrest_due q Hin) as (e & He & Hle).
      unfold cleanup_of in Hlt. rewrite He in Hlt. simpl in Hlt. lia. }
    rewrite Hr, app_nil_r. unfold swept. f_equal. apply filter_ext_in. intros q Hin. split.
    + intros Hne. split; [done|]. rewrite Forall_forall in Hlead.
      destruct (Hlead q Hin) as [?|(e & He & Hlt)]; [done|].
      unfold cleanup_of. by rewrite He.
    + by intros [Hne _].
Qed.

Lemma api_step_sorted h s c h' s' res t :
  state_wf h s → queue_sorted h s → due_by h s t →
  api_step h s c = Some (h', s', res) →
  clock_monotone t [c] →
  queue_sorted h' s' ∧
  due_by h' s' (match c with CallSave _ now _ => now | _ => t end).
Proof.
  intros Hwf Hsorted Hdue Hstep Hclock.
  destruct (api_step_effect _ _ _ _ _ _ Hwf Hstep)
    as (gone & Hgone & Hq & Hkeep & Hnew & _ & Htmo & _).
  assert (Hlive : ∀ q, q ∈ state_to_expire s → ∃ e, entries h !! q = Some e).
  { intros q Hin. destruct (wf_queue _ _ Hwf q) as [Hk _]. destruct (Hk Hin) as [k Hkq].
    destruct (wf_tree _ _ Hwf _ _ Hkq) as (e & He & _). eauto. }
  assert (Hsame : ∀ q, q ∈ filter (λ p, p ∉ gone) (state_to_expire s) →
                       cleanup_of h' q = cleanup_of h q).
  { intros q Hin. apply list_elem_of_filter in Hin as [Hng Hin].
    destruct (Hlive q Hin) as [e He].
    destruct (Hkeep q e Hng He) as (e' & He' & (_ & _ & Hcl & _) & _).
    unfold cleanup_of. rewrite He, He'. done. }
  assert (Hkept : StronglySorted (λ p q, cleanup_of h' p ≤ cleanup_of h' q)
                    (filter (λ p, p ∉ gone) (state_to_expire s))).
  { apply (StronglySorted_measure_ext (cleanup_of h)); [done|].
    by apply StronglySorted_filter_keep. }
  assert (Hdue_kept : ∀ q, q ∈ filter (λ p, p ∉ gone) (state_to_expire s) →
                           cleanup_of h' q ≤ t + u32 (state_timeout s)).
  { intros q Hin. rewrite (Hsame q Hin). apply Hdue.
    by apply list_elem_of_filter in Hin as [_ Hin]. }
  unfold queue_sorted, due_by. rewrite Hq, Htmo.
  destruct res as [[p| |]|]; simpl; rewrite ?app_nil_r.
  - destruct (Hnew p eq_refl)
      as (r & now & rnd & e' & ctx & -> & _ & He' & _ & Hcl & _).
    simpl in Hclock. destruct Hclock as [Hle _].
    assert (Hp : cleanup_of h' p = now + u32 (state_timeout s)).
    { unfold cleanup_of. rewrite He'. done. }
    split.
    + apply StronglySorted_snoc; [done|]. intros q Hin. rewrite Hp.
      specialize (Hdue_kept q Hin). lia.
    + intros q Hin. apply elem_of_app in Hin as [Hin|Hin].
      * specialize (Hdue_kept q Hin). lia.
      * apply list_elem_of_singleton in Hin as ->. lia.
  - split; [done|]. intros q Hin. specialize (Hdue_kept q Hin).
    destruct c as [r|r now rnd|r]; try done. simpl in Hclock. lia.
  - split; [done|]. intros q Hin. specialize (Hdue_kept q Hin).
    destruct c as [r|r now rnd|r]; try done. simpl in Hclock. lia.
  - split; [done|]. intros q Hin. specialize (Hdue_kept q Hin).
    destruct c as [r|r now rnd|r]; try done. simpl in Hclock. lia.
Qed.

Lemma api_run_sorted calls : ∀ h s h' s' trace t,
  state_wf h s → queue_sorted h s → due_by h s t →
  clock_monotone t calls →
  api_run h s calls = Some (h', s', trace) →
  queue_sorted h' s'.
Proof.
  induction calls as [|c calls IH]; intros h s h' s' trace t Hwf Hsorted Hdue Hclock Hrun.
  - injection Hrun as <- <- _. done.
  - simpl in Hrun.
    destruct (api_step h s c) as [[[h1 s1] res]|] eqn:Hstep; [|done].
    cbn [mbind option_bind] in Hrun.
    destruct (api_run h1 s1 calls) as [[[h2 s2] trace2]|] eqn:Hrest; [|done].
    injection Hrun as <- <- _.
    destruct (api_step_sorted _ _ _ _ _ _ t Hwf Hsorted Hdue Hstep) as [Hsorted1 Hdue1].
    { destruct c; simpl in *; tauto. }
    eapply (IH h1 s1 h2 s2 trace2); [by eapply api_step_wf|done|exact Hdue1| |done].
    destruct c; simpl in *; tauto.
Qed.

(** X6.  As long as the clock does not go backwards between the calls
    of [fr_request_to_state], the expiry queue of a tree is ordered by
    cleanup time after any sequence of calls of the three functions: the
    invariant the sweep of [state_entry_create] relies on when it stops at
    the first entry that is not due. *)
Theorem expiry_queue_ordered cs b da max_sessions timeout server_id calls t h' s' trace :
  (∀ c, c ∈ cs → (c < b)%N) →
  clock_monotone t calls →
  api_run (mk_talloc ∅ cs b) (fr_state_tree_init da max_sessions timeout server_id) calls
  = Some (h', s', trace) →
  queue_sorted h' s'.
Proof.
  intros Hcs Hclock Hrun.
  eapply (api_run_sorted calls _ _ _ _ _ t); [| | |exact Hclock|exact Hrun].
  - by apply state_wf_init.
  - constructor.
  - intros p Hp. simpl in Hp. by apply elem_of_nil in Hp.
Qed.

End order.

(** * State values *)

Section state_values.

Context {platform : Platform}.

Lemma derive_key_zero_padded (B : list Z) (k : nat) :
  (length B + k ≤ STATE_SIZE)%nat → derive_key (B ++ replicate k 0) = derive_key B.
Proof.
  intros Hlen. unfold derive_key. rewrite length_app, length_replicate.
  repeat case_decide; try lia.
  - replace k with 0%nat by lia. simpl. by rewrite app_nil_r.
  - replace (STATE_SIZE - length B)%nat with k by lia. done.
  - rewrite <- app_assoc, <- replicate_add. do 2 f_equal. lia.
Qed.

(** X7.  A State value shorter than 16 octets and the same value with
    zero octets appended (up to 16 octets in all) give the same state
    value: [state_entry_create] files an entry under the same key for
    either, and [state_entry_find] resolves either to the same entry. *)
Theorem short_state_zero_padded (B : list Z) (k : nat) :
  (length B + k ≤ STATE_SIZE)%nat →
  (∀ da, state_from_vp (replicate STATE_SIZE 0) (mk_vp da (B ++ replicate k 0))
         = state_from_vp (replicate STATE_SIZE 0) (mk_vp da B)) ∧
  (∀ s packet packet' old old_tries old_state rnd vp vp',
     fr_pair_find_by_da packet (state_da s) = Some vp → vp_octets vp = B →
     fr_pair_find_by_da packet' (state_da s) = Some vp' →
     vp_octets vp' = B ++ replicate k 0 →
     (new_state_value s packet' old old_tries old_state rnd).1.1
     = (new_state_value s packet old old_tries old_state rnd).1.1) ∧
  (∀ s request,
     state_entry_find s request (B ++ replicate k 0) = state_entry_find s request B).
Proof.
  intros Hlen. split; [|split].
  - intros da. rewrite !state_from_vp_derive by by rewrite length_replicate.
    simpl. by apply derive_key_zero_padded.
  - intros s packet packet' old ot os rnd vp vp' Hvp HB Hvp' HB'.
    rewrite (new_state_value_preset _ _ _ _ _ _ _ Hvp).
    rewrite (new_state_value_preset _ _ _ _ _ _ _ Hvp'). simpl.
    rewrite HB, HB'. by apply derive_key_zero_padded.
  - intros s request. rewrite !state_entry_find_lookup.
    by rewrite derive_key_zero_padded.
Qed.

Lemma fr_pair_find_deleted vps da :
  fr_pair_find_by_da (fr_pair_delete_by_da vps da) da = None.
Proof.
  unfold fr_pair_find_by_da, fr_pair_delete_by_da.
  induction vps as [|vp vps IH]; [done|].
  rewrite filter_cons. case_decide as Hda; [|done].
  simpl. rewrite bool_decide_eq_false_2 by done. done.
Qed.

Lemma fr_pair_delete_added vps da octets :
  fr_pair_delete_by_da (vps ++ [mk_vp da octets]) da = fr_pair_delete_by_da vps da.
Proof.
  unfold fr_pair_delete_by_da. rewrite filter_app.
  rewrite (filter_cons_False _ (mk_vp da octets)) by (simpl; tauto).
  by rewrite filter_nil, app_nil_r.
Qed.

(** X8.  [state_entry_create] fails with "Insertion into state tree
    failed" exactly when it is not at the session limit and the tree,
    once the sweep and the rotation have unlinked their entries, holds an
    entry under the state value of the new one.  Then the packet is left
    without any State attribute, the one a module had put there included;
    the id of the new entry is used up; the new entry is freed again; the
    entry that holds the state value is where it was, untouched; and the
    entries the sweep and the rotation have unlinked stay unlinked and are
    freed. *)
Theorem insert_conflict h s request packet old now rnd h' s' packet' res :
  state_wf h s → old_linked s old →
  state_entry_create h s request packet old now rnd = Some (h', s', packet', res) →
  ∃ lead rest key tries pk,
    sweep_split h old now (state_to_expire s) lead rest ∧
    new_state_value s packet old (old_tries_of h old) (old_state_of h old) rnd
    = (key, tries, pk) ∧
    (res = InsertFailed ↔
     ¬ too_many s old (length (swept old lead)) ∧
     ∃ q, state_tree s !! xor_u32_at key OFF_server_hash (server_hash request) = Some q ∧
          q ∉ removed h old lead) ∧
    (res = InsertFailed →
     packet' = fr_pair_delete_by_da packet (state_da s) ∧
     fr_pair_find_by_da packet' (state_da s) = None ∧
     fr_state_entries_created s' = u64 (fr_state_entries_created s + 1) ∧
     entries h' !! brk h = None ∧
     state_to_expire s' = filter (λ p, p ∉ removed h old lead) (state_to_expire s) ∧
     (∀ p, p ∈ removed h old lead → entries h' !! p = None) ∧
     (∀ q, state_tree s !! xor_u32_at key OFF_server_hash (server_hash request) = Some q →
           q ∉ removed h old lead →
           state_tree s' !! xor_u32_at key OFF_server_hash (server_hash request) = Some q ∧
           entries h' !! q = entries h !! q)).
Proof.
  intros Hwf Hold Hcreate.
  destruct (state_entry_create_spec h s request packet old now rnd Hwf Hold)
    as (lead & rest & s1 & h1 & Hsplit & Hu & Hfr & Hwf1 & Hspec).
  rewrite Hcreate in Hspec. injection Hspec as Hspec.
  pose proof (unlinked_fields _ _ _ Hu) as (Hid & _ & _ & _ & Hsid & Hda).
  simpl in Hid, Hsid, Hda.
  destruct (insert_new_entry_cases h1 s1 request packet old (old_tries_of h old)
              (old_state_of h old) now rnd) as (key & tries & pk & Hnew & Hins).
  cbn zeta in Hins.
  rewrite (new_state_value_ext s s1) in Hnew by done.
  destruct Hu as (Hq1 & Ht1 & _ & _). simpl in Hq1, Ht1.
  destruct Hfr as (He1 & _ & Hb1).
  fold (removed h old lead) in Hq1, Ht1, He1.
  exists lead, rest, key, tries, pk. split; [done|]. split; [done|].
  case_decide as Htm.
  { injection Hspec as -> -> -> ->. split; [|done]. split; [done|]. by intros [? _]. }
  rewrite Hins in Hspec. clear Hins.
  destruct (state_tree s1 !! _) as [q|] eqn:Hk.
  - injection Hspec as -> -> -> ->.
    apply Ht1 in Hk as Hk0. destruct Hk0 as [Hk0 Hq].
    split; [split; [eauto|done]|]. intros _.
    assert (Hos : (STATE_SIZE ≤ length (old_state_of h old))%nat)
      by by erewrite old_state_of_length.
    assert (Hpk : fr_pair_delete_by_da pk (state_da s)
                  = fr_pair_delete_by_da packet (state_da s)).
    { destruct (fr_pair_find_by_da packet (state_da s)) as [vp|] eqn:Hvp.
      - rewrite (new_state_value_preset _ _ _ _ _ _ _ Hvp) in Hnew.
        by injection Hnew as _ _ <-.
      - rewrite (new_state_value_minted _ _ _ _ _ _ _ _ _ Hos Hvp Hnew).
        apply fr_pair_delete_added. }
    rewrite Hda, Hpk. split; [done|]. split; [apply fr_pair_find_deleted|].
    split; [simpl; unfold fr_state_entries_created; by rewrite Hid|].
    assert (Hbrk_none : entries h !! brk h = None).
    { destruct (entries h !! brk h) eqn:Hb; [|done].
      pose proof (wf_brk _ _ Hwf (brk h) (mk_is_Some _ _ Hb)). lia. }
    split; [simpl; rewrite He1; case_decide; done|]. simpl.
    split; [done|]. split.
    + intros p Hp. rewrite He1. by rewrite decide_True.
    + intros q' Hq' Hng. split; [by apply Ht1|]. rewrite He1. by rewrite decide_False.
  - injection Hspec as -> -> -> ->. split; [|done]. split; [done|].
    intros [_ (q & Hq & Hng)].
    assert (Hsome : state_tree s1 !! xor_u32_at key OFF_server_hash (server_hash request)
                    = Some q) by by apply Ht1.
    congruence.
Qed.

End state_values.

Section tokens.

Context {platform : Platform}.

Lemma u32_octets_inv x : ∃ a b c d, u32_octets x = [a; b; c; d].
Proof. unfold u32_octets. destruct host_big_endian; simpl; eauto. Qed.

Lemma lxor_twice a x : Z.lxor a (Z.lxor a x) = x.
Proof. by rewrite <- Z.lxor_assoc, Z.lxor_nilpotent, Z.lxor_0_l. Qed.

(** X9.  The State value [state_entry_create] mints for a new
    conversation (no old entry, no State attribute in the packet): 16
    octets, of which tries and tx are 1, server_id is the configured one,
    and the three vx octets are r_0 xor'd with the octets of the version;
    the other ten are what [fr_rand] returned: r_0 from its first result,
    the four server_hash octets its second result as it lies in memory,
    r_5 and r_6 from the third, r_7, r_8 and r_9 from the fourth.  The
    entry counts no tries and is filed under the value with the server
    hash xor'd in. *)
Theorem fresh_state_value h s request packet now rnd h' s' packet' p :
  state_wf h s →
  fr_pair_find_by_da packet (state_da s) = None →
  state_entry_create h s request packet None now rnd = Some (h', s', packet', Created p) →
  ∃ token e,
    packet' = packet ++ [mk_vp (state_da s) token] ∧ length token = STATE_SIZE ∧
    entries h' !! p = Some e ∧ entry_tries e = 0 ∧
    entry_state e = xor_u32_at token OFF_server_hash (server_hash request) ∧
    token !! OFF_tries = Some 1 ∧ token !! OFF_tx = Some 1 ∧
    token !! OFF_server_id = Some (u8 (state_server_id s)) ∧
    token !! OFF_vx_0 = Some (u8 (Z.lxor (token !!! OFF_r_0) (version_octet 16))) ∧
    token !! OFF_vx_1 = Some (u8 (Z.lxor (token !!! OFF_r_0) (version_octet 8))) ∧
    token !! OFF_vx_2 = Some (u8 (Z.lxor (token !!! OFF_r_0) (version_octet 0))) ∧
    token !! OFF_r_0 = u32_octets (rnd 0%nat) !! 2%nat ∧
    take 4 (drop OFF_server_hash token) = u32_octets (rnd 1%nat) ∧
    token !! OFF_r_5 = u32_octets (rnd 2%nat) !! 1%nat ∧
    token !! OFF_r_6 = u32_octets (rnd 2%nat) !! 3%nat ∧
    drop OFF_r_7 token = drop 1 (u32_octets (rnd 3%nat)).
Proof.
  intros Hwf Hnone Hcreate.
  assert (Hold : old_linked s None) by (intros ? [=]).
  destruct (state_entry_create_Created _ _ _ _ _ _ _ _ _ _ _ Hwf Hold Hcreate)
    as (lead & rest & s1 & h1 & key & tries & _ & _ & _ & _ & _ & Hnew & Hlen & _ & _
        & Hh' & _).
  pose proof (new_state_value_minted _ _ _ _ _ _ _ _ _
                (ltac:(by rewrite (old_state_of_length h s))) Hnone Hnew) as Hpk.
  unfold new_state_value in Hnew. rewrite Hnone in Hnew.
  injection Hnew as <- <- _.
  eexists _, _. split; [exact Hpk|]. split; [exact Hlen|].
  split; [rewrite Hh'; simpl; apply lookup_insert_eq|].
  split; [done|]. split; [done|].
  destruct (u32_octets_inv (rnd 0%nat)) as (a0 & a1 & a2 & a3 & H0).
  destruct (u32_octets_inv (rnd 1%nat)) as (b0 & b1 & b2 & b3 & H1).
  destruct (u32_octets_inv (rnd 2%nat)) as (c0 & c1 & c2 & c3 & H2).
  destruct (u32_octets_inv (rnd 3%nat)) as (d0 & d1 & d2 & d3 & H3).
  cbn [fill_random]. rewrite H0, H1, H2, H3.
  split_and!; reflexivity.
Qed.

(** X10.  Two State values that follow each other in a conversation
    give away the hash of the virtual server: the entry of the first is
    filed under the value sent with the hash xor'd into its server_hash
    octets, and the value minted for its successor copies these octets
    from the entry.  So the server_hash octets of the second value are
    those of the first xor'd with the hash of the virtual server of the
    first, and the exclusive or of the two is that hash as it lies in
    memory. *)
Theorem rotation_reveals_server_hash h s request packet o now rnd h' s' packet' p eo
    (sent : list Z) (first : REQUEST) :
  state_wf h s → o ∈ state_to_expire s → entries h !! o = Some eo →
  length sent = STATE_SIZE →
  entry_state eo = xor_u32_at sent OFF_server_hash (server_hash first) →
  fr_pair_find_by_da packet (state_da s) = None →
  state_entry_create h s request packet (Some o) now rnd
  = Some (h', s', packet', Created p) →
  ∃ next,
    packet' = packet ++ [mk_vp (state_da s) next] ∧
    take 4 (drop OFF_server_hash next)
    = zip_with Z.lxor (take 4 (drop OFF_server_hash sent)) (u32_octets (server_hash first)) ∧
    zip_with Z.lxor (take 4 (drop OFF_server_hash sent)) (take 4 (drop OFF_server_hash next))
    = u32_octets (server_hash first).
Proof.
  intros Hwf Ho Heo Hsent Hfiled Hnone Hcreate.
  assert (Hold : old_linked s (Some o)) by (intros ? [= <-]; done).
  destruct (state_entry_create_Created _ _ _ _ _ _ _ _ _ _ _ Hwf Hold Hcreate)
    as (lead & rest & s1 & h1 & key & tries & _ & _ & _ & _ & _ & Hnew & Hlen & _).
  pose proof (new_state_value_minted _ _ _ _ _ _ _ _ _
                (ltac:(by rewrite (old_state_of_length h s))) Hnone Hnew) as Hpk.
  assert (Host : old_state_of h (Some o) = entry_state eo)
    by (unfold old_state_of; simpl; by rewrite Heo).
  rewrite Host in Hnew.
  unfold new_state_value in Hnew. rewrite Hnone in Hnew.
  injection Hnew as <- _ _.
  eexists. split; [exact Hpk|].
  rewrite Hfiled.
  destruct (length_16_inv _ Hsent)
    as (b0 & b1 & b2 & b3 & b4 & b5 & b6 & b7 & b8 & b9 & b10 & b11 & b12 & b13 & b14
        & b15 & ->).
  destruct (u32_octets_inv (server_hash first)) as (x0 & x1 & x2 & x3 & Hx).
  unfold xor_u32_at. rewrite Hx. split; [reflexivity|].
  cbn. by rewrite !lxor_twice.
Qed.

End tokens.

(** * How the calls compose *)

Section composition.

Context {platform : Platform}.

(** X11.  After [fr_state_discard] the conversation cannot be taken up
    again: for a request of the same virtual server that carries the State
    value of the discarded one, [fr_state_to_request] restores nothing and
    leaves the heap and the request as they are, a second
    [fr_state_discard] does nothing, and [fr_request_to_state] finds no
    old entry to base a new one on. *)
Theorem discarded_session_gone h s request h' s' request' r2 vp vp2 :
  state_wf h s →
  fr_state_discard h s request = Some (h', s', request') →
  fr_pair_find_by_da (request_packet request) (state_da s) = Some vp →
  fr_pair_find_by_da (request_packet r2) (state_da s) = Some vp2 →
  vp_octets vp2 = vp_octets vp →
  request_server_cs r2 = request_server_cs request →
  state_entry_find s' r2 (vp_octets vp2) = None ∧
  (request_state r2 = [] → fr_state_to_request h' s' r2 = Some (h', r2)) ∧
  fr_state_discard h' s' r2 = Some (h', s', r2) ∧
  find_old s' r2 = None ∧
  rbtree_num_elements (state_tree s')
  = rbtree_num_elements (state_tree s)
    - (if state_entry_find s request (vp_octets vp) is Some _ then 1 else 0).
Proof.
  intros Hwf Hdiscard Hvp Hvp2 Hoct Hcs.
  assert (Hda : state_da s' = state_da s ∧ state_entry_find s' r2 (vp_octets vp2) = None ∧
                rbtree_num_elements (state_tree s')
                = rbtree_num_elements (state_tree s)
                  - (if state_entry_find s request (vp_octets vp) is Some _ then 1 else 0)).
  { destruct (fr_state_discard_inv _ _ _ _ _ _ Hwf Hdiscard)
      as [(_ & -> & _ & Hnone)|(vp' & p & h1 & Hvp' & Hfind & Hu & _)].
    - split; [done|]. rewrite Hoct, (state_entry_find_same_server s request r2) by done.
      rewrite (Hnone vp Hvp). split; [done|]. lia.
    - pose proof (unlinked_fields _ _ _ Hu) as (_ & _ & _ & _ & _ & Hda).
      split; [done|]. rewrite Hvp in Hvp'. injection Hvp' as <-.
      rewrite Hoct, (state_entry_find_same_server s' request r2) by done.
      rewrite Hfind. split.
      + rewrite state_entry_find_lookup in *.
        destruct (state_tree s' !! _) as [q|] eqn:Hq; [|done].
        destruct Hu as (_ & Ht & _). apply Ht in Hq as [Hq Hne].
        rewrite Hfind in Hq. injection Hq as <-. destruct Hne. set_solver.
      + destruct Hu as (_ & _ & Hsz & _). simpl in Hsz. unfold rbtree_num_elements. lia. }
  destruct Hda as (Hda & Hnone & Hsz). split; [done|]. split; [|split; [|split; [|done]]].
  - intros Hst. unfold fr_state_to_request. rewrite decide_True by done.
    by rewrite Hda, Hvp2, Hnone.
  - apply fr_state_discard_not_found. intros vp3 Hvp3. rewrite Hda, Hvp2 in Hvp3.
    by injection Hvp3 as <-.
  - unfold find_old. by rewrite Hda, Hvp2.
Qed.

(** X12.  One call of [fr_state_to_request], [fr_request_to_state] or
    [fr_state_discard] and an entry that is live before it: the entry is
    freed, or it keeps its id, its state value, its cleanup time and its
    tries.  What it holds changes in one case only: the call is
    [fr_state_to_request] for a request [r] whose State attribute resolves
    to this entry, which thaws it.  So no call puts off the time at which
    an entry is due, and no call touches what the entry of another
    conversation holds. *)
Theorem entry_identity_fixed h s c h' s' res q e :
  state_wf h s → api_step h s c = Some (h', s', res) →
  entries h !! q = Some e →
  entries h' !! q = None ∨
  ∃ e', entries h' !! q = Some e' ∧
        entry_id e' = entry_id e ∧ entry_state e' = entry_state e ∧
        entry_cleanup e' = entry_cleanup e ∧ entry_tries e' = entry_tries e ∧
        (e' = e ∨
         ∃ r, c = CallRestore r ∧ e' = thaw_entry r e ∧ entry_thawed e = None ∧
              find_old s r = Some q).
Proof.
  intros Hwf Hstep He.
  destruct (api_step_effect _ _ _ _ _ _ Hwf Hstep) as (gone & Hgone & _ & Hkeep & _).
  destruct (decide (q ∈ gone)) as [Hin|Hout].
  - left. by apply Hgone.
  - right. destruct (Hkeep q e Hout He) as (e' & He' & (? & ? & ? & ?) & Hor).
    exists e'. done.
Qed.

(** X13.  A round of a conversation: [fr_state_to_request] restores the
    entry [o] into the request [r]; the request [rq] is what the modules
    have made of it (the packet and the virtual server are those of [r],
    it has something to save and a state context).  Then
    [fr_request_to_state] returns, and whatever it returns the entry [o]
    is gone: out of the queue, out of the tree and freed.  The call does
    not fail for the session limit, and the tree holds no more entries
    than before.  When the call returns -1 the insertion has failed, and
    the conversation is lost. *)
Theorem restore_then_save_rotates h s r vp o eo c rq now rnd :
  state_wf h s →
  request_state r = [] →
  fr_pair_find_by_da (request_packet r) (state_da s) = Some vp →
  state_entry_find s r (vp_octets vp) = Some o →
  entries h !! o = Some eo → entry_thawed eo = None → entry_ctx eo = Some c →
  request_packet rq = request_packet r → request_server_cs rq = request_server_cs r →
  ¬ nothing_to_save rq → request_state_ctx rq ≠ None →
  ∃ h1 h2 s2 rq' ret res,
    fr_state_to_request h s r = Some (h1, restored r eo c) ∧
    request_to_state h1 s rq now rnd = Some (h2, s2, rq', ret, Some res) ∧
    res ≠ TooMany ∧
    (ret = 0 ∧ (∃ p, res = Created p) ∨ ret = -1 ∧ res = InsertFailed) ∧
    entries h2 !! o = None ∧ (o ∉ state_to_expire s2) ∧
    (∀ k, state_tree s2 !! k ≠ Some o) ∧
    rbtree_num_elements (state_tree s2) ≤ rbtree_num_elements (state_tree s).
Proof.
  intros Hwf Hst Hvp Hfind Heo Hth Hc Hpkt Hcs Hn Hctx.
  pose proof (fr_state_to_request_restored _ _ _ _ _ _ _ Hst Hvp Hfind Heo Hth Hc)
    as Hrestore.
  set (h1 := talloc_free_ctx _ _) in Hrestore.
  pose proof (fr_state_to_request_wf _ _ _ _ _ Hwf Hrestore) as Hwf1.
  assert (Heo1 : entries h1 !! o = Some (thaw_entry r eo)).
  { unfold h1. rewrite talloc_free_ctx_entries. simpl. apply lookup_insert_eq. }
  assert (Hfo : find_old s rq = Some o).
  { unfold find_old. rewrite Hpkt, Hvp.
    by rewrite (state_entry_find_same_server s r rq). }
  assert (Hold : old_linked s (find_old s rq)) by by eapply find_old_linked.
  destruct (state_entry_create_wf h1 s (detached rq) (request_reply rq)
              (find_old s rq) now rnd Hwf1 Hold)
    as (h2 & s2 & reply & res & Hcreate & Hwf2).
  destruct (create_effect _ _ _ _ _ _ _ _ _ _ _ Hwf1 Hold Hcreate)
    as (lead & rest & _ & _ & Hq & Hgone & _ & Hnew & _ & _ & Hsz & _ & _ & Htm).
  assert (Ho : o ∈ removed h1 (find_old s rq) lead).
  { unfold removed, old_unlinked. rewrite Hfo, Heo1. simpl.
    apply elem_of_app. right. set_solver. }
  destruct (Hgone o Ho) as [Hoq Hnone].
  assert (Hntm : res ≠ TooMany).
  { intros ->. destruct Htm as [Htm _]. destruct (Htm eq_refl) as [Hnoold _]. congruence. }
  assert (Hout : o ∉ state_to_expire s2).
  { rewrite Hq. intros Hin. apply elem_of_app in Hin as [Hin|Hin].
    - apply list_elem_of_filter in Hin as [Hng _]. done.
    - destruct res as [p| |]; simpl in Hin; try by apply elem_of_nil in Hin.
      apply list_elem_of_singleton in Hin. subst p.
      destruct (Hnew o eq_refl) as (Hob & _).
      pose proof (queue_below_brk _ _ _ Hwf1 Hoq). lia. }
  assert (Htree : ∀ k, state_tree s2 !! k ≠ Some o).
  { intros k Hk. apply Hout. apply (wf_queue _ _ Hwf2). eauto. }
  assert (Hle : rbtree_num_elements (state_tree s2) ≤ rbtree_num_elements (state_tree s)).
  { unfold rbtree_num_elements.
    assert (0 < length (removed h1 (find_old s rq) lead))%nat.
    { destruct (removed h1 (find_old s rq) lead); [by apply elem_of_nil in Ho|simpl; lia]. }
    assert (length (created_entry res) ≤ 1)%nat by (destruct res; simpl; lia).
    lia. }
  exists h1.
  destruct (decide (∃ p, res = Created p)) as [[p ->]|Hnc].
  - destruct (Hnew p eq_refl) as (Hp & e & He & (_ & _ & _ & Hec & _) & _).
    eexists _, s2, _, 0, (Created p). split; [exact Hrestore|].
    split; [exact (request_to_state_created _ _ _ _ _ _ _ _ _ _ Hn Hcreate He Hec Hctx)|].
    split; [done|]. split; [left; eauto|]. simpl.
    split; [|done]. rewrite lookup_insert_ne; [done|].
    intros <-. pose proof (queue_below_brk _ _ _ Hwf1 Hoq). lia.
  - eexists h2, s2, _, (-1), res. split; [exact Hrestore|]. split.
    + apply (request_to_state_failed _ _ _ _ _ _ _ _ _ Hn Hcreate).
      intros p ->. apply Hnc. eauto.
    + split; [done|]. split; [|done]. right. split; [done|].
      destruct res as [p| |]; [destruct Hnc; eauto|done|done].
Qed.

(** X14.  [state_entry_create] and the state contexts: the call creates
    none, and it frees a context exactly when it frees an entry of the
    queue that owns it.  A context that no entry of the queue owns, such as
    the one a request holds after [fr_state_to_request] has handed it over,
    is live afterwards even when the entry it came from has timed out. *)
Theorem create_frees_owned_contexts h s request packet old now rnd h' s' packet' res c :
  state_wf h s → old_linked s old →
  state_entry_create h s request packet old now rnd = Some (h', s', packet', res) →
  (c ∈ ctxs h' ↔
   c ∈ ctxs h ∧
   ¬ ∃ p e, p ∈ state_to_expire s ∧ entries h !! p = Some e ∧ entry_ctx e = Some c ∧
            entries h' !! p = None) ∧
  (c ∈ ctxs h →
   (∀ p e, p ∈ state_to_expire s → entries h !! p = Some e → entry_ctx e ≠ Some c) →
   c ∈ ctxs h').
Proof.
  intros Hwf Hold Hcreate.
  destruct (create_effect _ _ _ _ _ _ _ _ _ _ _ Hwf Hold Hcreate)
    as (lead & rest & _ & _ & _ & Hgone & Hframe & _ & _ & _ & _ & _ & Hctx & _).
  assert (Hiff : c ∈ ctxs h' ↔
            c ∈ ctxs h ∧
            ¬ ∃ p e, p ∈ state_to_expire s ∧ entries h !! p = Some e ∧ entry_ctx e = Some c ∧
                     entries h' !! p = None).
  { rewrite Hctx. split; intros [Hin Hno]; (split; [done|]).
    - intros (p & e & Hp & He & Hc & Hnone). apply Hno. exists p, e.
      split; [|done]. destruct (decide (p ∈ removed h old lead)) as [|Hng]; [done|].
      rewrite Hframe in Hnone; [congruence|done|].
      pose proof (queue_below_brk _ _ _ Hwf Hp). lia.
    - intros (p & e & Hp & He & Hc). apply Hno. exists p, e.
      destruct (Hgone p Hp) as [Hq Hnone]. done. }
  split; [done|]. intros Hin Hnone. apply Hiff. split; [done|].
  intros (p & e & Hp & He & Hc & _). by apply (Hnone p e).
Qed.

End composition.

(** * The order of the tree *)

(** [memcmp(a, b, n)] of the C library: the first octet in which the two
    buffers differ decides.  The C standard fixes the sign of the result
    only; here it is the difference of the two octets. *)
Fixpoint memcmp (a b : list Z) (n : nat) : Z :=
  match n, a, b with
  | S n, x :: a, y :: b => if decide (x = y) then memcmp a b n else x - y
  | _, _, _ => 0
  end.

(** [state_entry_cmp], the comparison the rbtree is created with. *)
Definition state_entry_cmp (one two : fr_state_entry_t) : Z :=
  memcmp (entry_state one) (entry_state two) STATE_SIZE.

Lemma memcmp_eq n : ∀ a b,
  length a = n → length b = n → memcmp a b n = 0 ↔ a = b.
Proof.
  induction n as [|n IH]; intros a b Ha Hb.
  - destruct a, b; try done.
  - destruct a as [|x a], b as [|y b]; try done. simpl.
    injection Ha as Ha. injection Hb as Hb. case_decide as Hxy.
    + subst y. rewrite (IH a b Ha Hb). split; [by intros ->|by intros [= ->]].
    + split; [lia|]. intros [= ? _]. done.
Qed.

Lemma memcmp_antisym n : ∀ a b,
  length a = n → length b = n → memcmp b a n = - memcmp a b n.
Proof.
  induction n as [|n IH]; intros a b Ha Hb.
  - destruct a, b; done.
  - destruct a as [|x a], b as [|y b]; try done. simpl.
    injection Ha as Ha. injection Hb as Hb.
    destruct (decide (x = y)) as [->|Hxy].
    + rewrite decide_True by done. by apply IH.
    + rewrite decide_False by done. lia.
Qed.

Lemma memcmp_trans n : ∀ a b c,
  length a = n → length b = n → length c = n →
  memcmp a b n < 0 → memcmp b c n < 0 → memcmp a c n < 0.
Proof.
  induction n as [|n IH]; intros a b c Ha Hb Hc.
  - destruct a, b, c; simpl; lia.
  - destruct a as [|x a], b as [|y b], c as [|z c]; try done. simpl.
    injection Ha as Ha. injection Hb as Hb. injection Hc as Hc.
    repeat case_decide; subst; try lia.
    by apply IH.
Qed.

(** X15.  [state_entry_cmp] orders the entries by their state values as
    the rbtree needs it: two entries compare equal exactly when their 16
    octets are the same, exchanging the arguments changes the sign, and
    less-than is transitive.  So in a well-formed store the entry filed
    under a state value is the one that compares equal to a probe with
    that value, which is what [rbtree_finddata] returns. *)
Theorem state_entry_cmp_total_order (a b c : fr_state_entry_t) :
  length (entry_state a) = STATE_SIZE → length (entry_state b) = STATE_SIZE →
  length (entry_state c) = STATE_SIZE →
  (state_entry_cmp a b = 0 ↔ entry_state a = entry_state b) ∧
  state_entry_cmp b a = - state_entry_cmp a b ∧
  (state_entry_cmp a b < 0 ∨ state_entry_cmp a b = 0 ∨ state_entry_cmp b a < 0) ∧
  (state_entry_cmp a b < 0 → state_entry_cmp b c < 0 → state_entry_cmp a c < 0) ∧
  (∀ h s p, state_wf h s → entries h !! p = Some b →
            (∃ k, state_tree s !! k = Some p) →
            (state_entry_cmp a b = 0 ↔ rbtree_finddata (state_tree s) (entry_state a) = Some p)).
Proof.
  intros Ha Hb Hc. unfold state_entry_cmp.
  pose proof (memcmp_antisym STATE_SIZE _ _ Ha Hb) as Hanti.
  split; [by apply memcmp_eq|]. split; [done|]. split; [lia|].
  split; [by apply memcmp_trans|].
  intros h s p Hwf Hp [k Hk]. rewrite (memcmp_eq STATE_SIZE _ _ Ha Hb).
  unfold rbtree_finddata.
  destruct (wf_tree _ _ Hwf _ _ Hk) as (e & He & Hek & _).
  rewrite Hp in He. injection He as <-. split.
  - intros ->. by rewrite Hek.
  - intros Hfind. destruct (wf_tree _ _ Hwf _ _ Hfind) as (e & He & Hek' & _).
    rewrite Hp in He. injection He as <-. done.
Qed.

(** * No state entry is lost *)

Section leaks.

Context {platform : Platform}.

(** Every live state entry is in the expiry queue. *)
Definition no_stray_entry (h : talloc) (s : fr_state_tree_t) : Prop :=
  ∀ p, is_Some (entries h !! p) → p ∈ state_to_expire s.

Lemma api_step_no_stray h s c h' s' res :
  state_wf h s → no_stray_entry h s → api_step h s c = Some (h', s', res) →
  no_stray_entry h' s'.
Proof.
  intros Hwf Hns Hstep.
  destruct (api_step_effect _ _ _ _ _ _ Hwf Hstep)
    as (gone & Hgone & Hq & _ & _ & _ & _ & _ & _ & Hdead & _).
  intros p [e' He']. rewrite Hq. apply elem_of_app.
  destruct (entries h !! p) as [e|] eqn:He.
  - left. apply list_elem_of_filter. split; [|apply Hns; eauto].
    intros Hin. destruct (Hgone p Hin) as [_ Hnone]. congruence.
  - right. destruct (decide (res = Some (Created p))) as [->|Hne].
    + simpl. set_solver.
    + rewrite (Hdead p He Hne) in He'. done.
Qed.

Lemma api_run_no_stray calls : ∀ h s h' s' trace,
  state_wf h s → no_stray_entry h s →
  api_run h s calls = Some (h', s', trace) →
  state_wf h' s' ∧ no_stray_entry h' s'.
Proof.
  induction calls as [|c calls IH]; intros h s h' s' trace Hwf Hns Hrun.
  - injection Hrun as <- <- _. done.
  - simpl in Hrun.
    destruct (api_step h s c) as [[[h1 s1] res]|] eqn:Hstep; [|done].
    cbn [mbind option_bind] in Hrun.
    destruct (api_run h1 s1 calls) as [[[h2 s2] trace2]|] eqn:Hrest; [|done].
    injection Hrun as <- <- _.
    eapply IH; [| |exact Hrest].
    + by eapply api_step_wf.
    + by eapply api_step_no_stray.
Qed.

(** X16.  No state entry leaks.  After any sequence of calls of the three
    functions on a new tree, the live state entries are the members of the
    expiry queue: what a call takes out of the queue it frees, and it
    leaves no entry behind that is not filed.  So when the tree is freed
    after calls that were each made for a request with a state context of
    its own, [_state_tree_free] returns after as many rounds as entries
    are tracked and no state entry is left on the heap. *)
Theorem state_entries_do_not_leak cs b da max_sessions timeout server_id calls :
  (∀ c, c ∈ cs → (c < b)%N) →
  (∀ h s trace,
     api_run_checked (mk_talloc ∅ cs b)
                     (fr_state_tree_init da max_sessions timeout server_id) calls
     = Some (h, s, trace) →
     ∀ p, is_Some (entries h !! p) ↔ p ∈ state_to_expire s) ∧
  (calls_ok (mk_talloc ∅ cs b) (fr_state_tree_init da max_sessions timeout server_id)
            calls →
   ∃ h s trace,
     api_run_checked (mk_talloc ∅ cs b)
                     (fr_state_tree_init da max_sessions timeout server_id) calls
     = Some (h, s, trace) ∧
     ∀ fuel, (length (state_to_expire s) ≤ fuel)%nat →
       ∃ h', state_tree_free fuel h s = Some h' ∧ entries h' = ∅).
Proof.
  intros Hcs.
  assert (Hns0 : no_stray_entry (mk_talloc ∅ cs b)
                   (fr_state_tree_init da max_sessions timeout server_id)).
  { intros p [e He]. simpl in He. by rewrite lookup_empty in He. }
  assert (Hlive : ∀ h s, state_wf h s →
            ∀ p, p ∈ state_to_expire s → is_Some (entries h !! p)).
  { intros h s Hwf p Hp. destruct (wf_queue _ _ Hwf p) as [Hk _].
    destruct (Hk Hp) as [k Hkp]. destruct (wf_tree _ _ Hwf _ _ Hkp) as (e & He & _).
    eauto. }
  split.
  - intros h s trace Hrun. apply api_run_checked_Some in Hrun.
    destruct (api_run_no_stray calls _ _ _ _ _
                (state_wf_init cs b da max_sessions timeout server_id Hcs) Hns0 Hrun)
      as [Hwf Hns].
    intros p. split; [apply Hns|by apply Hlive].
  - intros Hok.
    destruct (api_run_checked_ok calls _ _
                (store_ok_init cs b da max_sessions timeout server_id Hcs) Hok)
      as (h & s & trace & Hrun & Hrun' & Hwf & Hown & Hcx).
    destruct (api_run_no_stray calls _ _ _ _ _
                (state_wf_init cs b da max_sessions timeout server_id Hcs) Hns0 Hrun')
      as [_ Hns].
    exists h, s, trace. split; [done|]. intros fuel Hfuel.
    pose proof (state_tree_free_loop_spec fuel h s Hwf Hfuel) as Hspec.
    rewrite (free_entries_checked_eq _ _ (ctx_wf_live _ _ Hcx) (ctx_wf_once _ _ Hcx))
      in Hspec.
    destruct (free_entries_spec (state_to_expire s) h (wf_nodup _ _ Hwf) (Hlive h s Hwf))
      as (h' & Hfree & Hent & _).
    rewrite Hfree in Hspec. destruct Hspec as (s' & Hloop & _).
    exists h'. split.
    + unfold state_tree_free. by rewrite Hloop.
    + apply map_empty. intros p. rewrite Hent. case_decide as Hin; [done|].
      destruct (entries h !! p) as [e|] eqn:He; [|done].
      destruct Hin. apply Hns. eauto.
Qed.

End leaks.

(** * Sessions over time *)

(** The request a call is made for. *)
Definition call_request (c : api_call) : REQUEST :=
  match c with
  | CallRestore request => request
  | CallSave request _ _ => request
  | CallDiscard request => request
  end.

Section lifetime.

Context {platform : Platform}.

(** The state value under which the State attribute of the packet of
    [request] is looked up, if the packet has one. *)
Definition lookup_key (da : Z) (request : REQUEST) : option (list Z) :=
  vp ← fr_pair_find_by_da (request_packet request) da;
  Some (xor_u32_at (derive_key (vp_octets vp)) OFF_server_hash (server_hash request)).

Lemma find_old_lookup_key h s request p e :
  state_wf h s → entries h !! p = Some e → find_old s request = Some p →
  lookup_key (state_da s) request = Some (entry_state e).
Proof.
  intros Hwf He Hfind. unfold find_old in Hfind. unfold lookup_key.
  destruct (fr_pair_find_by_da _ _) as [vp|]; [|done]. simpl.
  rewrite state_entry_find_lookup in Hfind.
  destruct (wf_tree _ _ Hwf _ _ Hfind) as (e0 & He0 & <- & _). congruence.
Qed.

Lemma api_step_leaves h s c h' s' res p e :
  state_wf h s → p ∈ state_to_expire s → entries h !! p = Some e →
  lookup_key (state_da s) (call_request c) ≠ Some (entry_state e) →
  (∀ r now rnd, c = CallSave r now rnd → now ≤ entry_cleanup e) →
  api_step h s c = Some (h', s', res) →
  p ∈ state_to_expire s' ∧ entries h' !! p = Some e ∧ state_da s' = state_da s.
Proof.
  intros Hwf Hp He Hkey Hnow Hstep.
  destruct (api_step_effect _ _ _ _ _ _ Hwf Hstep)
    as (gone & Hgone & Hq & Hkeep & _ & _ & _ & _ & Hda & _ & Hwhy).
  assert (Hng : p ∉ gone).
  { intros Hin.
    destruct (Hwhy p Hin) as [(r & now & rnd & -> & [Hfind|(e0 & He0 & Hlt)])
                             |(r & -> & Hfind)].
    - apply Hkey. by eapply find_old_lookup_key.
    - rewrite He in He0. injection He0 as <-.
      specialize (Hnow r now rnd eq_refl). lia.
    - apply Hkey. by eapply find_old_lookup_key. }
  split; [|split; [|done]].
  - rewrite Hq. apply elem_of_app. left. by apply list_elem_of_filter.
  - destruct (Hkeep p e Hng He) as (e' & He' & _ & [->|(r & -> & _ & _ & Hfind)]); [done|].
    destruct Hkey. by eapply find_old_lookup_key.
Qed.

Lemma api_run_leaves calls : ∀ h s h' s' trace p e,
  state_wf h s → p ∈ state_to_expire s → entries h !! p = Some e →
  (∀ c, c ∈ calls → lookup_key (state_da s) (call_request c) ≠ Some (entry_state e)) →
  (∀ r now rnd, CallSave r now rnd ∈ calls → now ≤ entry_cleanup e) →
  api_run h s calls = Some (h', s', trace) →
  state_wf h' s' ∧ state_da s' = state_da s ∧
  p ∈ state_to_expire s' ∧ entries h' !! p = Some e ∧
  state_tree s' !! entry_state e = Some p.
Proof.
  induction calls as [|c calls IH]; intros h s h' s' trace p e Hwf Hp He Hkey Hnow Hrun.
  - injection Hrun as <- <- _. split; [done|]. split; [done|]. split; [done|].
    split; [done|].
    destruct (wf_queue _ _ Hwf p) as [Hk _]. destruct (Hk Hp) as [k Hkp].
    destruct (wf_tree _ _ Hwf _ _ Hkp) as (e0 & He0 & <- & _). congruence.
  - simpl in Hrun.
    destruct (api_step h s c) as [[[h1 s1] res]|] eqn:Hstep; [|done].
    cbn [mbind option_bind] in Hrun.
    destruct (api_run h1 s1 calls) as [[[h2 s2] trace2]|] eqn:Hrest; [|done].
    injection Hrun as <- <- _.
    assert (Hkey0 : lookup_key (state_da s) (call_request c) ≠ Some (entry_state e)).
    { apply Hkey. set_solver. }
    assert (Hnow0 : ∀ r now rnd, c = CallSave r now rnd → now ≤ entry_cleanup e).
    { intros r now rnd ->. apply (Hnow r now rnd). set_solver. }
    destruct (api_step_leaves _ _ _ _ _ _ p e Hwf Hp He Hkey0 Hnow0 Hstep)
      as (Hp1 & He1 & Hda1).
    rewrite <- Hda1.
    apply (IH h1 s1 h2 s2 trace2 p e); try done.
    + by eapply api_step_wf.
    + intros c' Hc'. rewrite Hda1. apply Hkey. set_solver.
    + intros r now rnd Hin. apply (Hnow r now rnd). set_solver.
Qed.

(** X17.  An entry is kept for its whole lifetime.  Take an entry of the
    queue and any sequence of calls of the three functions such that no
    call is made for a request whose State attribute is looked up under
    the state value of the entry, and no call of [fr_request_to_state]
    reads a time later than the cleanup time of the entry.  Then the entry
    is in the queue and in the tree afterwards, under the same state
    value, and it holds what it held: no sweep, no rotation and no discard
    of another conversation touches it. *)
Theorem session_survives h s calls h' s' trace p e :
  state_wf h s → p ∈ state_to_expire s → entries h !! p = Some e →
  (∀ c, c ∈ calls → lookup_key (state_da s) (call_request c) ≠ Some (entry_state e)) →
  (∀ r now rnd, CallSave r now rnd ∈ calls → now ≤ entry_cleanup e) →
  api_run h s calls = Some (h', s', trace) →
  p ∈ state_to_expire s' ∧ entries h' !! p = Some e ∧
  state_tree s' !! entry_state e = Some p.
Proof.
  intros Hwf Hp He Hkey Hnow Hrun.
  destruct (api_run_leaves calls _ _ _ _ _ _ _ Hwf Hp He Hkey Hnow Hrun)
    as (_ & _ & Hp' & He' & Ht'). done.
Qed.

(** X18.  Once the cleanup time of every entry has passed, a tree with a
    session limit above zero admits a new conversation whatever it held:
    [state_entry_create] without an old entry sweeps the whole queue,
    frees every entry, counts them all as timed out, and returns a new
    entry, the only one the tree tracks. *)
Theorem expired_store_admits h s request packet now rnd :
  state_wf h s →
  (∀ p, p ∈ state_to_expire s → expired h now p) →
  0 < u32 (state_max_sessions s) →
  ∃ h' s' packet',
    state_entry_create h s request packet None now rnd
    = Some (h', s', packet', Created (brk h)) ∧
    state_to_expire s' = [brk h] ∧
    rbtree_num_elements (state_tree s') = 1 ∧
    fr_state_entries_timeout s'
    = u64 (fr_state_entries_timeout s + rbtree_num_elements (state_tree s)) ∧
    (∀ p, p ∈ state_to_expire s → entries h' !! p = None).
Proof.
  intros Hwf Hexp Hmax.
  assert (Hold : old_linked s None) by (intros ? [=]).
  destruct (state_entry_create_wf h s request packet None now rnd Hwf Hold)
    as (h' & s' & packet' & res & Hcreate & _).
  destruct (create_effect _ _ _ _ _ _ _ _ _ _ _ Hwf Hold Hcreate)
    as (lead & rest & (Hq & _ & Hrest) & Hwf' & Hq' & Hgone & _ & Hnew & _ & Hto & Hsz & _
        & _ & Htm).
  assert (Hrest_nil : rest = []).
  { destruct rest as [|q rest']; [done|]. destruct Hrest as [_ (e & He & Hle)].
    destruct (Hexp q) as (e' & He' & Hlt); [rewrite Hq; set_solver|].
    rewrite He in He'. injection He' as <-. lia. }
  subst rest. rewrite app_nil_r in Hq.
  assert (Hrem : removed h None lead = state_to_expire s).
  { unfold removed, swept. simpl. rewrite app_nil_r, Hq.
    apply filter_all. intros x _. done. }
  assert (Hsw : swept None lead = state_to_expire s).
  { unfold removed in Hrem. simpl in Hrem. by rewrite app_nil_r in Hrem. }
  rewrite Hrem in Hq', Hgone, Hsz. rewrite Hsw in Hto, Htm.
  pose proof (queue_length_size _ _ Hwf) as Hlen.
  assert (Hfil : filter (λ p, p ∉ state_to_expire s) (state_to_expire s) = []).
  { apply filter_nil_all. intros x Hx Hn. done. }
  rewrite Hfil in Hq'. simpl in Hq'.
  assert (Hres : res = Created (brk h)).
  { destruct res as [p| |].
    - by destruct (Hnew p eq_refl) as (-> & _).
    - destruct Htm as [Htm _]. destruct (Htm eq_refl) as [_ Hle].
      unfold rbtree_num_elements in Hle. lia.
    - exfalso.
      destruct (state_entry_create_spec h s request packet None now rnd Hwf Hold)
        as (lead' & rest' & s1 & h1 & Hsplit' & Hu & _ & _ & Hspec).
      rewrite Hcreate in Hspec. injection Hspec as Hspec.
      destruct Hu as (_ & Ht1 & Hsz1 & _). simpl in Ht1, Hsz1.
      case_decide as Htm'; [done|].
      destruct (insert_new_entry_cases h1 s1 request packet None (old_tries_of h None)
                  (old_state_of h None) now rnd) as (key & tries & pk & _ & Hins).
      cbn zeta in Hins. rewrite Hins in Hspec.
      destruct (state_tree s1 !! _) as [q|] eqn:Hk; [|done].
      apply Ht1 in Hk as [Hk Hng].
      assert (Hsplit : sweep_split h None now (state_to_expire s) lead []).
      { split; [by rewrite app_nil_r|]. split; [|done].
        apply Forall_forall. intros x Hx. right. apply Hexp. by rewrite Hq. }
      destruct (sweep_split_unique _ _ _ _ _ _ _ _ Hsplit Hsplit') as [<- <-].
      apply Hng. rewrite app_nil_r, Hsw. apply (wf_queue _ _ Hwf). eauto. }
  subst res. simpl in Hq', Hsz.
  exists h', s', packet'. split; [done|]. split; [done|].
  unfold rbtree_num_elements, fr_state_entries_timeout.
  split; [lia|]. split; [by rewrite Hto, Hlen|].
  intros p Hp. by apply Hgone.
Qed.

Lemma filter_not_true_all (l : list request_data_t) :
  filter (λ rd, rd_persist rd = true) l = [] →
  filter (λ rd, rd_persist rd ≠ true) l = l.
Proof.
  induction l as [|rd l IH]; [done|]. rewrite !filter_cons.
  destruct (decide (rd_persist rd = true)) as [Hp|Hp]; [done|].
  intros Hnil. destruct (decide (rd_persist rd ≠ true)); [|done]. by rewrite IH.
Qed.

(** X19.  The calls that find nothing to do.  [fr_request_to_state] for
    a request without session-state pairs and without persistable request
    data returns 0 and changes nothing: no entry is made, no State
    attribute is added, the sweep does not run, and the request data of
    the request are as they were.  [fr_state_to_request] for a packet
    without State attribute touches the request only to set a seq_start of
    0 to the number of the request; for a State attribute that resolves to
    no entry it changes nothing. *)
Theorem nothing_to_do h s request :
  (∀ now rnd,
     nothing_to_save request →
     fr_request_to_state h s request now rnd = Some (h, s, request, 0)) ∧
  (request_state request = [] →
   fr_pair_find_by_da (request_packet request) (state_da s) = None →
   fr_state_to_request h s request
   = Some (h, if decide (request_seq_start request = 0)
              then set_request_seq_start (request_number request) request
              else request)) ∧
  (∀ vp, request_state request = [] →
         fr_pair_find_by_da (request_packet request) (state_da s) = Some vp →
         state_entry_find s request (vp_octets vp) = None →
         fr_state_to_request h s request = Some (h, request)).
Proof.
  split; [|split].
  - intros now rnd Hn. unfold fr_request_to_state.
    rewrite request_to_state_nothing by done. cbn [mbind option_bind].
    destruct Hn as [_ Hp]. unfold persistable, request_data_by_persistance in Hp.
    simpl in Hp. unfold detached, request_data_by_persistance. simpl.
    rewrite (filter_not_true_all _ Hp). by destruct request.
  - intros Hst Hvp. unfold fr_state_to_request. rewrite decide_True by done.
    by rewrite Hvp.
  - intros vp Hst Hvp Hfind. unfold fr_state_to_request. rewrite decide_True by done.
    by rewrite Hvp, Hfind.
Qed.

End lifetime.

Section resume.

Context {platform : Platform}.

(** X20.  A saved conversation can be taken up again for as long as its
    entry is not due, whatever the server does for other conversations
    in between.  Let [fr_request_to_state] return 0 at time [now] for a
    request that has something to save and whose reply carries no State
    attribute; it adds a State value to the reply.  Let any sequence of
    calls of the three functions follow, none for a request whose State
    attribute is looked up under that value in the virtual server of the
    request, and every [fr_request_to_state] of which reads a time of at
    most [now] plus the timeout.  Then [fr_state_to_request], for a
    request of the same virtual server that carries the value and holds no
    session-state pairs, returns and gives it the session-state pairs, the
    state context and the seq_start of the saved request, and its
    persistable request data after the request data it had. *)
Theorem round_trip_under_traffic h s request now rnd h1 s1 request' calls h2 s2 trace :
  state_wf h s →
  ¬ nothing_to_save request →
  fr_pair_find_by_da (request_reply request) (state_da s) = None →
  fr_request_to_state h s request now rnd = Some (h1, s1, request', 0) →
  api_run h1 s1 calls = Some (h2, s2, trace) →
  ∃ token,
    request_reply request' = request_reply request ++ [mk_vp (state_da s) token] ∧
    length token = STATE_SIZE ∧
    ((∀ c, c ∈ calls →
           lookup_key (state_da s) (call_request c)
           ≠ Some (xor_u32_at token OFF_server_hash (server_hash request))) →
     (∀ r t rnd', CallSave r t rnd' ∈ calls → t ≤ now + u32 (state_timeout s)) →
     ∀ r2 vp,
       request_state r2 = [] →
       fr_pair_find_by_da (request_packet r2) (state_da s) = Some vp →
       vp_octets vp = token →
       request_server_cs r2 = request_server_cs request →
       ∃ h3 r2',
         fr_state_to_request h2 s2 r2 = Some (h3, r2') ∧
         request_state r2' = request_state request ∧
         request_state_ctx r2' = request_state_ctx request ∧
         request_seq_start r2' = request_seq_start request ∧
         request_data r2' = request_data r2 ++ persistable request).
Proof.
  intros Hwf Hn Hreply Hsave Hrun.
  apply fr_request_to_state_inv in Hsave as [res Hsave].
  pose proof (request_to_state_wf _ _ _ _ _ _ _ _ _ _ Hwf Hsave) as Hwf1.
  destruct (request_to_state_saved_inv _ _ _ _ _ _ _ _ _ Hn Hsave)
    as (h0 & reply & p & e & c & Hc & He & Hectx & Hrctx & Hh1 & Hreq & _).
  unfold save_create in Hc.
  destruct (state_entry_create_Created _ _ _ _ _ _ _ _ _ _ _ Hwf
              (find_old_linked _ _ _ Hwf) Hc)
    as (lead & rest & s0 & h00 & key & tries & _ & Hu & _ & _ & _ & Hnew & Hlen & _ & _
        & Hh0 & Hs1).
  pose proof (unlinked_fields _ _ _ Hu) as (_ & _ & _ & Htmo & _ & Hda).
  simpl in Htmo, Hda.
  assert (Hos : (STATE_SIZE ≤ length (old_state_of h (find_old s request)))%nat).
  { rewrite (old_state_of_length h s); [done|done|by eapply find_old_linked]. }
  pose proof (new_state_value_minted _ _ _ _ _ _ _ _ _ Hos Hreply Hnew) as Hpk.
  assert (Hreply' : request_reply request' = reply) by (by rewrite Hreq).
  exists key. split; [by rewrite Hreply'|]. split; [done|].
  intros Hkey Hnow r2 vp Hst2 Hvp Hoct Hcs.
  set (k := xor_u32_at key OFF_server_hash (server_hash request)) in *.
  assert (Hek : e = new_entry s0 k now tries).
  { rewrite Hh0 in He. simpl in He. rewrite lookup_insert_eq in He. by injection He as <-. }
  set (ef := freeze_entry (set_request_reply reply (detached request))
                          (persistable request) e) in *.
  assert (Hef : entries h1 !! p = Some ef).
  { rewrite Hh1. simpl. apply lookup_insert_eq. }
  assert (Hp : p ∈ state_to_expire s1).
  { rewrite Hs1. simpl. set_solver. }
  assert (Hda1 : state_da s1 = state_da s) by (rewrite Hs1; exact Hda).
  assert (Hst : entry_state ef = k) by (unfold ef; rewrite Hek; done).
  assert (Hcl : entry_cleanup ef = now + u32 (state_timeout s)).
  { unfold ef. rewrite Hek. simpl. by rewrite Htmo. }
  destruct (api_run_leaves calls h1 s1 h2 s2 trace p ef Hwf1 Hp Hef)
    as (Hwf2 & Hda2 & Hp2 & Hef2 & Ht2); [| |exact Hrun|].
  { intros c0 Hc0. rewrite Hda1, Hst. by apply Hkey. }
  { intros r t rnd' Hin. rewrite Hcl. by eapply Hnow. }
  assert (Hfind : state_entry_find s2 r2 (vp_octets vp) = Some p).
  { rewrite state_entry_find_lookup, Hoct. unfold derive_key.
    rewrite decide_True by done.
    replace (server_hash r2) with (server_hash request)
      by (unfold server_hash; by rewrite Hcs).
    fold k. by rewrite <- Hst. }
  eexists _, _. split.
  - eapply fr_state_to_request_restored; [done| |exact Hfind|exact Hef2| |].
    + by rewrite Hda2, Hda1.
    + unfold ef. rewrite Hek. done.
    + unfold ef. simpl. exact Hrctx.
  - unfold ef. rewrite Hek. unfold restored. simpl. rewrite Hrctx. done.
Qed.

End resume.

(** * The properties above, on the example stores *)

Lemma ex_three_wf : state_wf ex_three.1 ex_three.2.
Proof. apply (ex_fill_wf _ (ex_heap, ex_s0)). apply state_wf_init, ex_heap_ctxs. Qed.

(** Two saves, each for a request with a state context of its own: the
    entries at the addresses 3 and 4 own the contexts 1 and 2. *)
Definition ex_owned_run :=
  api_run_checked (platform := example_platform) ex_heap ex_s0 ex_over_calls.

Definition ex_owned_heap : talloc :=
  match ex_owned_run with Some (h, _, _) => h | None => ex_heap end.

Definition ex_owned_tree : fr_state_tree_t :=
  match ex_owned_run with Some (_, s, _) => s | None => ex_s0 end.

Lemma ex_over_calls_ok : calls_ok (platform := example_platform) ex_heap ex_s0 ex_over_calls.
Proof. apply (bool_decide_unpack _). vm_compute. exact I. Qed.

Lemma ex_owned_ok : store_ok ex_owned_heap ex_owned_tree.
Proof.
  destruct (api_run_checked_ok (platform := example_platform) ex_over_calls ex_heap ex_s0
              (store_ok_init _ _ _ _ _ _ ex_heap_ctxs) ex_over_calls_ok)
    as (h & s & trace & Hrun & _ & Hst).
  unfold ex_owned_heap, ex_owned_tree, ex_owned_run.
  change (fr_state_tree_init ex_da 10 30 0) with ex_s0 in Hrun.
  change (mk_talloc ∅ {[1%N; 2%N]} 3%N) with ex_heap in Hrun.
  rewrite Hrun. exact Hst.
Qed.

(** Two saves for requests that name the same state context: the entries
    at the addresses 3 and 4 both own the context 1. *)
Definition ex_shared_calls : list api_call :=
  [CallSave ex_reqA 1000 ex_rnd; CallSave ex_reqA 1001 (ex_rnd_from 7)].

Definition ex_shared_run :=
  api_run_checked (platform := example_platform) ex_heap ex_s0 ex_shared_calls.

Definition ex_shared_heap : talloc :=
  match ex_shared_run with Some (h, _, _) => h | None => ex_heap end.

Definition ex_shared_tree : fr_state_tree_t :=
  match ex_shared_run with Some (_, s, _) => s | None => ex_s0 end.

Lemma ex_shared_evaluated :
  ex_shared_run = Some (ex_shared_heap, ex_shared_tree, [Created 3%N; Created 4%N]) ∧
  state_to_expire ex_shared_tree = [3%N; 4%N] ∧
  (entries ex_shared_heap !! 3%N) ≫= entry_ctx = Some 1%N ∧
  (entries ex_shared_heap !! 4%N) ≫= entry_ctx = Some 1%N.
Proof. vm_compute. repeat split. Qed.

Lemma ex_shared_wf : state_wf ex_shared_heap ex_shared_tree.
Proof.
  destruct ex_shared_evaluated as (Hrun & _).
  apply (api_run_checked_Some (platform := example_platform)) in Hrun.
  exact (proj1 (api_run_inv (platform := example_platform) _ _ _ _ _ _
                  (state_wf_init _ _ _ _ _ _ ex_heap_ctxs)
                  (owned_or_thawed_init _ _ _ _ _ _) Hrun)).
Qed.

Lemma ex_shared_not_ctx_wf : ¬ ctx_wf ex_shared_heap ex_shared_tree.
Proof.
  intros [_ Honce].
  destruct ex_shared_evaluated as (_ & Hq & H3 & H4).
  destruct (entries ex_shared_heap !! 3%N) as [e3|] eqn:He3; [|discriminate H3].
  destruct (entries ex_shared_heap !! 4%N) as [e4|] eqn:He4; [|discriminate H4].
  assert (Heq : 3%N = 4%N).
  { apply (Honce 3%N 4%N e3 e4 1%N).
    - rewrite Hq. apply list_elem_of_here.
    - rewrite Hq. apply list_elem_of_further, list_elem_of_here.
    - exact He3.
    - exact He4.
    - exact H3.
    - exact H4. }
  discriminate Heq.
Qed.

Lemma state_tree_free_frees_all_witness :
  (∃ h' s',
     state_tree_free_loop 2 ex_owned_heap ex_owned_tree = Some (h', s') ∧
     state_to_expire s' = [] ∧ state_tree s' = ∅ ∧
     entries h' !! 3%N = None ∧ entries h' !! 4%N = None ∧
     (1%N ∉ ctxs h') ∧ (2%N ∉ ctxs h')) ∧
  state_tree_free 2 ex_shared_heap ex_shared_tree = None.
Proof.
  assert (Hq : state_to_expire ex_owned_tree = [3%N; 4%N]) by (vm_compute; reflexivity).
  split.
  - destruct ex_owned_ok as (Hwf & _ & Hcx).
    destruct (state_tree_free_frees_all ex_owned_heap ex_owned_tree 2 Hwf) as [Hfree _].
    { rewrite Hq. simpl. lia. }
    destruct (Hfree Hcx) as (h' & s' & Hloop & _ & Hq' & Ht & Hfreed & _ & Hctx).
    exists h', s'. split; [exact Hloop|]. split; [exact Hq'|]. split; [exact Ht|].
    assert (Hin : ∀ p, p ∈ [3%N; 4%N] → entries h' !! p = None).
    { intros p Hp.
      assert (Hk : ∃ k, state_tree ex_owned_tree !! k = Some p).
      { apply (wf_queue _ _ Hwf). rewrite Hq. exact Hp. }
      destruct Hk as [k Hk]. exact (Hfreed k p Hk). }
    split; [apply Hin, list_elem_of_here|].
    split; [apply Hin, list_elem_of_further, list_elem_of_here|].
    split.
    + intros Hc. apply Hctx in Hc as [_ Hno]. apply Hno.
      eexists 3%N, _. split; [rewrite Hq; apply list_elem_of_here|].
      split; [vm_compute; reflexivity|reflexivity].
    + intros Hc. apply Hctx in Hc as [_ Hno]. apply Hno.
      eexists 4%N, _. split; [rewrite Hq; apply list_elem_of_further, list_elem_of_here|].
      split; [vm_compute; reflexivity|reflexivity].
  - destruct (state_tree_free_frees_all ex_shared_heap ex_shared_tree 2 ex_shared_wf)
      as [_ Habort].
    { destruct ex_shared_evaluated as (_ & -> & _). simpl. lia. }
    exact (proj2 (Habort ex_shared_not_ctx_wf)).
Defined.

Lemma store_invariant_witness :
  state_wf ex_calls_heap ex_calls_tree ∧ owned_or_thawed ex_calls_heap ex_calls_tree ∧
  length (state_to_expire ex_calls_tree) = size (state_tree ex_calls_tree).
Proof.
  destruct (store_invariant (platform := example_platform)
              {[1%N; 2%N]} 3%N ex_da 10 30 0 ex_calls ex_calls_heap ex_calls_tree
              [Created 3%N; InsertFailed] ex_heap_ctxs)
    as (Hwf & Hown & _ & Hlen).
  - vm_compute. reflexivity.
  - split; [exact Hwf|]. split; [exact Hown|exact Hlen].
Defined.

(** A request that holds the context of the entry its State attribute
    names, and one that comes with session state. *)
Definition ex_holder : REQUEST :=
  ex_request 506%N "serverA" [mk_vp ex_da ex_token] (Some 1%N) [] [].

Definition ex_with_state : REQUEST :=
  ex_request 507%N "serverA" [mk_vp ex_da ex_token] None [mk_vp 1 [1]] [].

Lemma api_assertions_hold_witness :
  is_Some (fr_state_discard_checked (platform := example_platform)
             ex_owned_heap ex_owned_tree ex_round2_again) ∧
  is_Some (fr_state_to_request_checked (platform := example_platform)
             ex_owned_heap ex_owned_tree ex_round2_again) ∧
  ¬ is_Some (fr_state_to_request_checked (platform := example_platform)
               ex_owned_heap ex_owned_tree ex_with_state) ∧
  fr_state_discard_checked (platform := example_platform)
    ex_owned_heap ex_owned_tree ex_holder = None.
Proof.
  destruct (api_assertions_hold (platform := example_platform)
              {[1%N; 2%N]} 3%N ex_da 10 30 0 ex_over_calls ex_heap_ctxs ex_over_calls_ok)
    as (h & s & trace & Hrun & _ & Hdiscard & Hrestore & _ & Htwice).
  assert (Hh : h = ex_owned_heap ∧ s = ex_owned_tree).
  { unfold ex_owned_heap, ex_owned_tree, ex_owned_run.
    change (fr_state_tree_init ex_da 10 30 0) with ex_s0 in Hrun.
    change (mk_talloc ∅ {[1%N; 2%N]} 3%N) with ex_heap in Hrun.
    rewrite Hrun. split; reflexivity. }
  destruct Hh as [-> ->]. split; [|split; [|split]].
  - apply Hdiscard. exact I.
  - apply Hrestore; [exact I|reflexivity].
  - intros Hsome. apply Hrestore in Hsome; [discriminate Hsome|exact I].
  - eapply (Htwice ex_holder (mk_vp ex_da ex_token) 3%N _ 1%N).
    + vm_compute. reflexivity.
    + vm_compute. reflexivity.
    + vm_compute. reflexivity.
    + reflexivity.
    + reflexivity.
Defined.

Lemma counters_account_witness :
  fr_state_entries_tracked ex_calls_tree + fr_state_entries_timeout ex_calls_tree
  ≤ fr_state_entries_created ex_calls_tree.
Proof.
  destruct (counters_account (platform := example_platform)
              {[1%N; 2%N]} 3%N ex_da 10 30 0 ex_calls ex_calls_heap ex_calls_tree
              [Created 3%N; InsertFailed] ex_heap_ctxs)
    as (_ & _ & _ & _ & Hle).
  - vm_compute. reflexivity.
  - vm_compute. reflexivity.
  - exact Hle.
Defined.

(** The creation at 1045 on the store of three entries. *)
Definition ex_swept :=
  state_entry_create (platform := example_platform)
    ex_three.1 ex_three.2 ex_reqA [] None 1045 (ex_rnd_from 4).

Definition ex_swept_heap : talloc :=
  match ex_swept with Some (h, _, _, _) => h | None => ex_heap end.

Definition ex_swept_tree : fr_state_tree_t :=
  match ex_swept with Some (_, s, _, _) => s | None => ex_s0 end.

Definition ex_swept_packet : list VALUE_PAIR :=
  match ex_swept with Some (_, _, packet, _) => packet | None => [] end.

Lemma ex_swept_evaluated :
  ex_swept = Some (ex_swept_heap, ex_swept_tree, ex_swept_packet, Created 6%N) ∧
  state_to_expire ex_three.2 = [3%N; 4%N; 5%N] ∧
  state_to_expire ex_swept_tree = [5%N; 6%N].
Proof. vm_compute. repeat split. Qed.

Lemma ex_three_sorted : queue_sorted ex_three.1 ex_three.2.
Proof.
  unfold queue_sorted. destruct ex_swept_evaluated as (_ & -> & _).
  repeat constructor; vm_compute; discriminate.
Qed.

Lemma sweep_complete_witness :
  entries ex_swept_heap !! 3%N = None ∧ entries ex_swept_heap !! 4%N = None ∧
  unexpired ex_swept_heap 1045 5%N ∧ 5%N ∈ state_to_expire ex_swept_tree ∧
  fr_state_entries_timeout ex_swept_tree = 2.
Proof.
  destruct ex_swept_evaluated as (Hcreate & Hq & Hq').
  destruct (sweep_complete (platform := example_platform)
              ex_three.1 ex_three.2 ex_reqA [] None 1045 (ex_rnd_from 4)
              ex_swept_heap ex_swept_tree ex_swept_packet (Created 6%N))
    as (Hstay & Hsorted).
  - exact ex_three_wf.
  - intros o Ho. discriminate Ho.
  - exact Hcreate.
  - destruct (Hsorted ex_three_sorted) as (Hexp & Hleft & Hto).
    split; [|split; [|split; [|split]]].
    + apply (Hexp 3%N).
      * rewrite Hq. apply list_elem_of_here.
      * discriminate.
      * eexists. split; vm_compute; reflexivity.
    + apply (Hexp 4%N).
      * rewrite Hq. apply list_elem_of_further, list_elem_of_here.
      * discriminate.
      * eexists. split; vm_compute; reflexivity.
    + apply (Hleft 5%N).
      * rewrite Hq'. apply list_elem_of_here.
      * discriminate.
      * discriminate.
    + apply (Hstay 5%N).
      * rewrite Hq. apply list_elem_of_further, list_elem_of_further, list_elem_of_here.
      * discriminate.
      * eexists. split; [vm_compute; reflexivity|]. vm_compute. discriminate.
    + rewrite Hto. vm_compute. reflexivity.
Defined.

Lemma expiry_queue_ordered_witness : queue_sorted ex_calls_heap ex_calls_tree.
Proof.
  apply (expiry_queue_ordered (platform := example_platform)
           {[1%N; 2%N]} 3%N ex_da 10 30 0 ex_calls 0 ex_calls_heap ex_calls_tree
           [Created 3%N; InsertFailed] ex_heap_ctxs).
  - unfold ex_calls. simpl. lia.
  - vm_compute. reflexivity.
Defined.

Lemma short_state_zero_padded_witness :
  state_entry_find (platform := example_platform) ex_saved_tree ex_round2 [1; 2; 3; 0; 0]
  = state_entry_find (platform := example_platform) ex_saved_tree ex_round2 [1; 2; 3].
Proof.
  destruct (short_state_zero_padded (platform := example_platform) [1; 2; 3] 2)
    as (_ & _ & Hfind).
  - unfold STATE_SIZE. simpl. lia.
  - apply (Hfind ex_saved_tree ex_round2).
Defined.

Lemma ex_created_wf : state_wf ex_created_heap ex_created_tree.
Proof.
  pose proof (state_entry_create_wf_match (platform := example_platform)
                ex_heap ex_s0 ex_reqA [] None 1000 ex_rnd
                (state_wf_init _ _ _ _ _ _ ex_heap_ctxs)) as Hwf.
  unfold ex_created_heap, ex_created_tree, ex_created.
  destruct (state_entry_create _ _ _ _ _ _ _) as [[[[h' s'] pk] res]|].
  - apply Hwf. intros o Ho. discriminate Ho.
  - apply state_wf_init, ex_heap_ctxs.
Qed.

(** A second creation with the same results of [fr_rand]. *)
Definition ex_conflict :=
  state_entry_create (platform := example_platform)
    ex_created_heap ex_created_tree ex_reqA [] None 1001 ex_rnd.

Definition ex_conflict_heap : talloc :=
  match ex_conflict with Some (h, _, _, _) => h | None => ex_heap end.

Definition ex_conflict_tree : fr_state_tree_t :=
  match ex_conflict with Some (_, s, _, _) => s | None => ex_s0 end.

Lemma insert_conflict_witness :
  entries ex_conflict_heap !! 4%N = None ∧
  fr_state_entries_created ex_conflict_tree = u64 (fr_state_entries_created ex_created_tree + 1).
Proof.
  destruct (insert_conflict (platform := example_platform)
              ex_created_heap ex_created_tree ex_reqA [] None 1001 ex_rnd
              ex_conflict_heap ex_conflict_tree [] InsertFailed)
    as (lead & rest & key & tries & pk & _ & _ & _ & Hfail).
  - exact ex_created_wf.
  - intros o Ho. discriminate Ho.
  - vm_compute. reflexivity.
  - destruct (Hfail eq_refl) as (_ & _ & Hid & Hnone & _).
    split; [exact Hnone|exact Hid].
Defined.

Lemma fresh_state_value_witness :
  ∃ (token : list Z) (e : fr_state_entry_t),
    [mk_vp ex_da ex_token] = [] ++ [mk_vp ex_da token] ∧
    entries ex_created_heap !! 3%N = Some e ∧ entry_tries e = 0 ∧
    token !! OFF_tries = Some 1 ∧ token !! OFF_tx = Some 1.
Proof.
  destruct (fresh_state_value (platform := example_platform)
              ex_heap ex_s0 ex_reqA [] 1000 ex_rnd
              ex_created_heap ex_created_tree [mk_vp ex_da ex_token] 3%N)
    as (token & e & Hpk & _ & He & Htries & _ & Ht & Htx & _).
  - apply state_wf_init, ex_heap_ctxs.
  - reflexivity.
  - vm_compute. reflexivity.
  - exists token, e. split; [exact Hpk|]. split; [exact He|]. split; [exact Htries|].
    split; [exact Ht|exact Htx].
Defined.

Lemma rotation_reveals_server_hash_witness :
  ∃ next : list Z,
    [mk_vp ex_da ex_rotated_token] = [] ++ [mk_vp ex_da next] ∧
    zip_with Z.lxor (take 4 (drop OFF_server_hash ex_token))
                    (take 4 (drop OFF_server_hash next))
    = u32_octets (platform := example_platform)
        (server_hash (platform := example_platform) ex_reqA).
Proof.
  destruct ex_rotated_evaluated as (Hq & He & Hrot & _).
  destruct (rotation_reveals_server_hash (platform := example_platform)
              ex_saved_heap ex_saved_tree ex_round2 [] 3%N 1010 ex_rnd
              ex_rotated_heap ex_rotated_tree [mk_vp ex_da ex_rotated_token] 4%N
              ex_saved_entry ex_token ex_reqA)
    as (next & Hpk & _ & Hxor).
  - exact ex_saved_wf.
  - rewrite Hq. constructor.
  - exact He.
  - reflexivity.
  - vm_compute. reflexivity.
  - reflexivity.
  - exact Hrot.
  - exists next. split; [exact Hpk|exact Hxor].
Defined.

(** The discard of the saved entry by the request of the next round. *)
Definition ex_discarded :=
  fr_state_discard (platform := example_platform) ex_saved_heap ex_saved_tree ex_round2.

Definition ex_discarded_heap : talloc :=
  match ex_discarded with Some (h, _, _) => h | None => ex_heap end.

Definition ex_discarded_tree : fr_state_tree_t :=
  match ex_discarded with Some (_, s, _) => s | None => ex_s0 end.

Definition ex_discarded_request : REQUEST :=
  match ex_discarded with Some (_, _, r) => r | None => ex_round2 end.

Lemma discarded_session_gone_witness :
  fr_state_to_request (platform := example_platform)
    ex_discarded_heap ex_discarded_tree ex_round2_again
  = Some (ex_discarded_heap, ex_round2_again) ∧
  find_old (platform := example_platform) ex_discarded_tree ex_round2_again = None.
Proof.
  destruct (discarded_session_gone (platform := example_platform)
              ex_saved_heap ex_saved_tree ex_round2
              ex_discarded_heap ex_discarded_tree ex_discarded_request
              ex_round2_again (mk_vp ex_da ex_token) (mk_vp ex_da ex_token))
    as (_ & Hrestore & _ & Hold & _).
  - exact ex_saved_wf.
  - vm_compute. reflexivity.
  - reflexivity.
  - reflexivity.
  - reflexivity.
  - reflexivity.
  - split; [apply Hrestore; reflexivity|exact Hold].
Defined.

(** The restore of the saved entry into the request of the next round. *)
Definition ex_thawed :=
  api_step (platform := example_platform) ex_saved_heap ex_saved_tree (CallRestore ex_round2).

Definition ex_thawed_heap : talloc :=
  match ex_thawed with Some (h, _, _) => h | None => ex_heap end.

Lemma entry_identity_fixed_witness :
  ∃ e', entries ex_thawed_heap !! 3%N = Some e' ∧
        entry_cleanup e' = entry_cleanup ex_saved_entry ∧
        entry_state e' = entry_state ex_saved_entry.
Proof.
  destruct ex_rotated_evaluated as (_ & He & _).
  destruct (entry_identity_fixed (platform := example_platform)
              ex_saved_heap ex_saved_tree (CallRestore ex_round2)
              ex_thawed_heap ex_saved_tree None 3%N ex_saved_entry)
    as [Hnone|(e' & He' & _ & Hst & Hcl & _)].
  - exact ex_saved_wf.
  - vm_compute. reflexivity.
  - exact He.
  - vm_compute in Hnone. discriminate Hnone.
  - exists e'. split; [exact He'|]. split; [exact Hcl|exact Hst].
Defined.

Lemma restore_then_save_rotates_witness :
  ∃ h1 h2 s2 rq' ret res,
    fr_state_to_request (platform := example_platform) ex_saved_heap ex_saved_tree ex_round2
    = Some (h1, restored ex_round2 ex_saved_entry 1%N) ∧
    request_to_state (platform := example_platform)
      h1 ex_saved_tree ex_round2_unrestored 1010 ex_rnd
    = Some (h2, s2, rq', ret, Some res) ∧
    entries h2 !! 3%N = None ∧
    rbtree_num_elements (state_tree s2) ≤ rbtree_num_elements (state_tree ex_saved_tree).
Proof.
  destruct ex_rotated_evaluated as (_ & He & _).
  destruct (restore_then_save_rotates (platform := example_platform)
              ex_saved_heap ex_saved_tree ex_round2 (mk_vp ex_da ex_token) 3%N
              ex_saved_entry 1%N ex_round2_unrestored 1010 ex_rnd)
    as (h1 & h2 & s2 & rq' & ret & res & Hrestore & Hsave & _ & _ & Hnone & _ & _ & Hle).
  - exact ex_saved_wf.
  - reflexivity.
  - reflexivity.
  - vm_compute. reflexivity.
  - exact He.
  - reflexivity.
  - reflexivity.
  - reflexivity.
  - reflexivity.
  - intros [Hst _]. discriminate Hst.
  - discriminate.
  - exists h1, h2, s2, rq', ret, res.
    split; [exact Hrestore|]. split; [exact Hsave|]. split; [exact Hnone|exact Hle].
Defined.

Lemma create_frees_owned_contexts_witness : 2%N ∈ ctxs ex_swept_heap.
Proof.
  destruct ex_swept_evaluated as (Hcreate & Hq & _).
  destruct (create_frees_owned_contexts (platform := example_platform)
              ex_three.1 ex_three.2 ex_reqA [] None 1045 (ex_rnd_from 4)
              ex_swept_heap ex_swept_tree ex_swept_packet (Created 6%N) 2%N)
    as (_ & Hlive).
  - exact ex_three_wf.
  - intros o Ho. discriminate Ho.
  - exact Hcreate.
  - apply Hlive.
    + vm_compute. reflexivity.
    + intros p e Hp He Hc. rewrite Hq in Hp.
      repeat (apply elem_of_cons in Hp as [->|Hp];
              [vm_compute in He; injection He as <-; discriminate Hc|]).
      by apply elem_of_nil in Hp.
Defined.

Lemma state_entry_cmp_total_order_witness :
  state_entry_cmp ex_rotated_entry ex_saved_entry
  = - state_entry_cmp ex_saved_entry ex_rotated_entry ∧
  (state_entry_cmp ex_saved_entry ex_rotated_entry = 0
   ↔ entry_state ex_saved_entry = entry_state ex_rotated_entry).
Proof.
  destruct (state_entry_cmp_total_order ex_saved_entry ex_rotated_entry ex_saved_entry)
    as (Heq & Hanti & _).
  - reflexivity.
  - reflexivity.
  - reflexivity.
  - split; [exact Hanti|exact Heq].
Defined.

Lemma state_entries_do_not_leak_witness :
  ∃ h', state_tree_free 2 ex_owned_heap ex_owned_tree = Some h' ∧ entries h' = ∅.
Proof.
  destruct (state_entries_do_not_leak (platform := example_platform)
              {[1%N; 2%N]} 3%N ex_da 10 30 0 ex_over_calls ex_heap_ctxs) as [_ Hfree].
  destruct (Hfree ex_over_calls_ok) as (h & s & trace & Hrun & Hall).
  assert (Hh : h = ex_owned_heap ∧ s = ex_owned_tree).
  { unfold ex_owned_heap, ex_owned_tree, ex_owned_run.
    change (fr_state_tree_init ex_da 10 30 0) with ex_s0 in Hrun.
    change (mk_talloc ∅ {[1%N; 2%N]} 3%N) with ex_heap in Hrun.
    rewrite Hrun. split; reflexivity. }
  destruct Hh as [-> ->].
  apply (Hall 2%nat). vm_compute. lia.
Defined.

(** A save for another conversation, while the saved entry is not due. *)
Definition ex_other_calls : list api_call := [CallSave ex_reqA 1001 (ex_rnd_from 7)].

Definition ex_other_run :=
  api_run (platform := example_platform) ex_saved_heap ex_saved_tree ex_other_calls.

Definition ex_other_heap : talloc :=
  match ex_other_run with Some (h, _, _) => h | None => ex_heap end.

Definition ex_other_tree : fr_state_tree_t :=
  match ex_other_run with Some (_, s, _) => s | None => ex_s0 end.

Definition ex_other_trace : list create_result :=
  match ex_other_run with Some (_, _, trace) => trace | None => [] end.

Lemma session_survives_witness :
  3%N ∈ state_to_expire ex_other_tree ∧ entries ex_other_heap !! 3%N = Some ex_saved_entry ∧
  state_tree ex_other_tree !! entry_state ex_saved_entry = Some 3%N.
Proof.
  destruct ex_rotated_evaluated as (Hq & He & _).
  apply (session_survives (platform := example_platform)
           ex_saved_heap ex_saved_tree ex_other_calls ex_other_heap ex_other_tree
           ex_other_trace 3%N ex_saved_entry).
  - exact ex_saved_wf.
  - rewrite Hq. apply list_elem_of_here.
  - exact He.
  - intros c Hc. apply list_elem_of_singleton in Hc. rewrite Hc. vm_compute. discriminate.
  - intros r now rnd Hc. apply list_elem_of_singleton in Hc. injection Hc as _ Hnow _.
    rewrite Hnow. vm_compute. discriminate.
  - vm_compute. reflexivity.
Defined.

Lemma expired_store_admits_witness :
  ∃ h' s' packet',
    state_entry_create (platform := example_platform)
      ex_three.1 ex_three.2 ex_reqA [] None 2000 (ex_rnd_from 4)
    = Some (h', s', packet', Created (brk ex_three.1)) ∧
    state_to_expire s' = [brk ex_three.1] ∧
    rbtree_num_elements (state_tree s') = 1.
Proof.
  destruct ex_swept_evaluated as (_ & Hq & _).
  destruct (expired_store_admits (platform := example_platform)
              ex_three.1 ex_three.2 ex_reqA [] 2000 (ex_rnd_from 4))
    as (h' & s' & packet' & Hcreate & Hq' & Hone & _).
  - exact ex_three_wf.
  - intros p Hp. rewrite Hq in Hp.
    repeat (apply elem_of_cons in Hp as [->|Hp];
            [eexists; split; vm_compute; reflexivity|]).
    apply elem_of_nil in Hp. destruct Hp.
  - vm_compute. reflexivity.
  - exists h', s', packet'. split; [exact Hcreate|]. split; [exact Hq'|exact Hone].
Defined.

Lemma nothing_to_do_witness :
  fr_request_to_state (platform := example_platform) ex_heap ex_s0 ex_reqB 1000 ex_rnd
  = Some (ex_heap, ex_s0, ex_reqB, 0).
Proof.
  destruct (nothing_to_do (platform := example_platform) ex_heap ex_s0 ex_reqB)
    as (Hsave & _).
  apply Hsave. split; reflexivity.
Defined.

Lemma round_trip_under_traffic_witness :
  ∃ h3 r2',
    fr_state_to_request (platform := example_platform) ex_other_heap ex_other_tree ex_round2
    = Some (h3, r2') ∧
    request_state r2' = request_state ex_reqA ∧
    request_state_ctx r2' = request_state_ctx ex_reqA ∧
    request_data r2' = request_data ex_round2 ++ persistable ex_reqA.
Proof.
  destruct (round_trip_under_traffic (platform := example_platform)
              ex_heap ex_s0 ex_reqA 1000 ex_rnd ex_saved_heap ex_saved_tree
              (set_request_session None []
                 (set_request_reply [mk_vp ex_da ex_token] (detached ex_reqA)))
              ex_other_calls ex_other_heap ex_other_tree ex_other_trace)
    as (token & Hreply & _ & Hback).
  - apply state_wf_init, ex_heap_ctxs.
  - intros [Hs _]. discriminate Hs.
  - reflexivity.
  - vm_compute. reflexivity.
  - vm_compute. reflexivity.
  - injection Hreply as <-.
    destruct (Hback) with (r2 := ex_round2) (vp := mk_vp ex_da ex_token)
      as (h3 & r2' & Hr & Hst & Hctx & _ & Hdata).
    + intros c Hc. apply list_elem_of_singleton in Hc. rewrite Hc. vm_compute. discriminate.
    + intros r t rnd' Hc. apply list_elem_of_singleton in Hc. injection Hc as _ Ht _.
      rewrite Ht. vm_compute. discriminate.
    + reflexivity.
    + reflexivity.
    + reflexivity.
    + reflexivity.
    + exists h3, r2'. split; [exact Hr|]. split; [exact Hst|]. split; [exact Hctx|exact Hdata].
Defined.
